(** * Graph-game: the curve-following physics core (public/physics.js)

    A shallow embedding of [PhysicsEngine] and [Marble] and the properties
    the specification states about them, followed by the parts of the
    equation parser, of the renderer and of the user interface that
    compute on numbers and arrays (the equation objects, the grouping of
    points into curves, the screen mapping, the start position) and
    further properties of all of them.

    JavaScript numbers are IEEE 754 binary64 values: they are modelled by
    Rocq's primitive [float], whose operations are the processor's and
    whose meaning is given by [SpecFloat] through [FloatAxioms].

    Conventions of the embedding:
    - an object is a record, a method takes [this] as its first argument
      and returns the updated object where the source mutates it;
    - [equation.evaluate(x)] may throw: it returns [option float], and
      [None] is the exception that the [try]/[catch] blocks recover from;
    - [equation.getPoints] returns an array and does not throw (the
      parser's equations catch evaluation errors inside [evaluate]);
    - [v ** 2] is [v * v]. *)

From Stdlib Require Import ZArith QArith List Bool Lia Floats Permutation.
From Stdlib Require Strings.String.
Import ListNotations.
Import Stdlib.Strings.String.StringSyntax.
Delimit Scope string_scope with string.

Set Warnings "-inexact-float".
Local Open Scope float_scope.

(** ** JavaScript number primitives *)

Module JS.

Definition Infinity : float := infinity.
Definition NaN : float := nan.

Definition isNaN (v : float) : bool := is_nan v.
Definition isFinite (v : float) : bool := is_finite v.

(** [Math.max]: NaN if an argument is NaN, and [+0] is larger than [-0]. *)
Definition Math_max (a b : float) : float :=
  if is_nan a || is_nan b then nan
  else if a <? b then b
  else if b <? a then a
  else if get_sign a then b else a.

(** [Math.min]: NaN if an argument is NaN, and [-0] is smaller than [+0]. *)
Definition Math_min (a b : float) : float :=
  if is_nan a || is_nan b then nan
  else if a <? b then a
  else if b <? a then b
  else if get_sign a then a else b.

Definition Math_abs (v : float) : float := abs v.
Definition Math_sqrt (v : float) : float := sqrt v.

(** [v ** 2]. *)
Definition sq (v : float) : float := v * v.

(** [a !== b] on numbers. *)
Definition strict_neq (a b : float) : bool := negb (a =? b).

(** Truthiness of a number: [0], [-0] and [NaN] are falsy. *)
Definition truthy (v : float) : bool := negb (is_nan v || is_zero v).

(** An integer loop counter as a number. *)
Definition of_nat (n : nat) : float := of_uint63 (Uint63.of_Z (Z.of_nat n)).

End JS.

(** ** Data model *)

(** [{ x, y }] *)
Record Vector2 := mkVector2 { v_x : float; v_y : float }.

(** A star: [{ x, y, radius, collected }]. *)
Record Star := mkStar {
  star_x : float;
  star_y : float;
  star_radius : float;
  star_collected : bool
}.

(** [equation.type] *)
Inductive EquationType :=
| explicit_y
| explicit_x
| implicit
| piecewise
| other_type.

(** The equation objects built by the parser, as physics.js uses them:
    the [type] tag, [evaluate] on one argument and the five-argument
    [getPoints] of implicit curves, whose last argument is the number of
    cells of the sampling grid in each direction. *)
Record Equation := mkEquation {
  eq_type : EquationType;
  evaluate : float -> option float;
  getPoints : float -> float -> float -> float -> nat -> list Vector2
}.

(** The result of a closest-point query: [{ x, y, distance }]. *)
Record ClosestPoint := mkClosestPoint {
  cp_x : float;
  cp_y : float;
  cp_distance : float
}.

(** A candidate path: [{ equation, closestPoint, distance }]. *)
Record PathData := mkPathData {
  pd_equation : Equation;
  pd_closestPoint : ClosestPoint;
  pd_distance : float
}.

(** [{ minX, maxX, minY, maxY }] *)
Record Bounds := mkBounds {
  minX : float;
  maxX : float;
  minY : float;
  maxY : float
}.

Record PhysicsEngine := mkPhysicsEngine {
  gravity : float;
  friction : float;
  bounceThreshold : float;
  pathSnapStrength : float;
  pathFollowSpeed : float
}.

(** [Marble]; [stars] is the property the game attaches to a marble
    ([None] when it is undefined). The colour is left out. *)
Record Marble := mkMarble {
  position : Vector2;
  velocity : Vector2;
  radius : float;
  onPath : bool;
  currentEquation : option Equation;
  trail : list Vector2;
  maxTrailLength : nat;
  pathThreshold : float;
  timeOffPath : nat;
  stars : option (list Star)
}.

Definition set_position (m : Marble) (p : Vector2) : Marble :=
  mkMarble p (velocity m) (radius m) (onPath m) (currentEquation m) (trail m)
           (maxTrailLength m) (pathThreshold m) (timeOffPath m) (stars m).

Definition set_velocity (m : Marble) (v : Vector2) : Marble :=
  mkMarble (position m) v (radius m) (onPath m) (currentEquation m) (trail m)
           (maxTrailLength m) (pathThreshold m) (timeOffPath m) (stars m).

Definition set_trail (m : Marble) (t : list Vector2) : Marble :=
  mkMarble (position m) (velocity m) (radius m) (onPath m) (currentEquation m) t
           (maxTrailLength m) (pathThreshold m) (timeOffPath m) (stars m).

Definition set_path_state (m : Marble) (on : bool) (e : option Equation) (t : nat) : Marble :=
  mkMarble (position m) (velocity m) (radius m) on e (trail m)
           (maxTrailLength m) (pathThreshold m) t (stars m).

(** ** The implicit equations of the parser

    [parseImplicit] builds the equation object of [f(x, y) = 0]: its
    [getPoints] looks for the curve in every cell of a grid. [f] is the
    two-argument [evaluate], which returns NaN where the expression fails;
    with one argument it is NaN. *)

(** [hasZeroCrossing(f11, f12, f21, f22, tolerance)] *)
Definition hasZeroCrossing (f11 f12 f21 f22 tolerance : float) : bool :=
  let values := filter (fun v => negb (JS.isNaN v) && JS.isFinite v) [f11; f12; f21; f22] in
  if (length values <? 2)%nat then false
  else
    let minVal := fold_left JS.Math_min values JS.Infinity in
    let maxVal := fold_left JS.Math_max values neg_infinity in
    (minVal <=? tolerance) && (- tolerance <=? maxVal).

(** [findZeroCrossing(x1, x2, y1, y2, tolerance)]: the first point of a
    6 x 6 grid of the cell where [|f|] is within the tolerance. *)
Definition findZeroCrossing (f : float -> float -> float) (x1 x2 y1 y2 tolerance : float)
    : option Vector2 :=
  let steps := 5%nat in
  let xStep := (x2 - x1) / JS.of_nat steps in
  let yStep := (y2 - y1) / JS.of_nat steps in
  find (fun p => JS.Math_abs (f (v_x p) (v_y p)) <=? tolerance)
    (flat_map
       (fun i =>
          map (fun j => {| v_x := x1 + JS.of_nat i * xStep; v_y := y1 + JS.of_nat j * yStep |})
            (seq 0 (S steps)))
       (seq 0 (S steps))).

(** [getPoints(xMin, xMax, yMin, yMax, resolution)] of an implicit equation. *)
Definition implicitGetPoints (f : float -> float -> float)
    (xMin xMax yMin yMax : float) (resolution : nat) : list Vector2 :=
  let xStep := (xMax - xMin) / JS.of_nat resolution in
  let yStep := (yMax - yMin) / JS.of_nat resolution in
  let tolerance := 0.1 in
  flat_map
    (fun i =>
       flat_map
         (fun j =>
            let x1 := xMin + JS.of_nat i * xStep in
            let x2 := xMin + JS.of_nat (i + 1) * xStep in
            let y1 := yMin + JS.of_nat j * yStep in
            let y2 := yMin + JS.of_nat (j + 1) * yStep in
            if hasZeroCrossing (f x1 y1) (f x1 y2) (f x2 y1) (f x2 y2) tolerance then
              match findZeroCrossing f x1 x2 y1 y2 tolerance with
              | Some point => [point]
              | None => []
              end
            else [])
         (seq 0 resolution))
    (seq 0 resolution).

Definition implicitEquation (f : float -> float -> float) : Equation :=
  mkEquation implicit (fun _ => Some nan) (implicitGetPoints f).

(** ** PhysicsEngine *)

(** [constructor()] *)
Definition newPhysicsEngine : PhysicsEngine :=
  {| gravity := -0.15;
     friction := 0.98;
     bounceThreshold := 0.5;
     pathSnapStrength := 0.3;
     pathFollowSpeed := 0.12 |}.

Definition applyGravity (this : PhysicsEngine) (marble : Marble) : Marble :=
  set_velocity marble
    {| v_x := v_x (velocity marble);
       v_y := v_y (velocity marble) + gravity this |}.

Definition applyFriction (this : PhysicsEngine) (marble : Marble) : Marble :=
  set_velocity marble
    {| v_x := v_x (velocity marble) * friction this;
       v_y := v_y (velocity marble) * friction this |}.

(** [updatePosition(marble, dt = 1)] *)
Definition updatePosition (marble : Marble) (dt : float) : Marble :=
  set_position marble
    {| v_x := v_x (position marble) + v_x (velocity marble) * dt;
       v_y := v_y (position marble) + v_y (velocity marble) * dt |}.

Definition checkBounds (marble : Marble) (bounds : Bounds) : bool :=
  let x := v_x (position marble) in
  let y := v_y (position marble) in
  if (x <? minX bounds) || (maxX bounds <? x) || (y <? minY bounds) || (maxY bounds <? y)
  then false
  else true.

Definition checkCollision (marble : Marble) (star : Star) : bool :=
  let dx := v_x (position marble) - star_x star in
  let dy := v_y (position marble) - star_y star in
  let distance := JS.Math_sqrt (dx * dx + dy * dy) in
  distance <? (radius marble + star_radius star).

(** The guard [isNaN(a) || isNaN(b) || !isFinite(a) || !isFinite(b)]. *)
Definition unusable (a b : float) : bool :=
  JS.isNaN a || JS.isNaN b || negb (JS.isFinite a) || negb (JS.isFinite b).

(** [calculateDerivative(equation, x, dx = 0.01)]; an exception of
    [evaluate] is caught and gives 0. *)
Definition calculateDerivative (equation : Equation) (x dx : float) : float :=
  match evaluate equation (x - dx / 2) with
  | None => 0
  | Some y1 =>
      match evaluate equation (x + dx / 2) with
      | None => 0
      | Some y2 => if unusable y1 y2 then 0 else (y2 - y1) / dx
      end
  end.

(** [calculateDerivativeX(equation, y, dy = 0.01)] *)
Definition calculateDerivativeX (equation : Equation) (y dy : float) : float :=
  match evaluate equation (y - dy / 2) with
  | None => 0
  | Some x1 =>
      match evaluate equation (y + dy / 2) with
      | None => 0
      | Some x2 => if unusable x1 x2 then 0 else (x2 - x1) / dy
      end
  end.

(** The default value of the [dx] and [dy] parameters. *)
Definition default_h : float := 0.01.

(** The loop of [calculateImplicitVelocity]: [prev] is [points[i-1]],
    the head of [rest] is [points[i]]. *)
Fixpoint implicitDirection (x : float) (prev : Vector2) (rest : list Vector2)
    (bestDirection : Vector2) (minDistance : float) : Vector2 :=
  match rest with
  | [] => bestDirection
  | p :: rest' =>
      let dx := v_x p - v_x prev in
      let dy := v_y p - v_y prev in
      let distance := JS.Math_abs (v_x p - x) in
      if (distance <? minDistance) && (JS.strict_neq dx 0 || JS.strict_neq dy 0) then
        let magnitude := JS.Math_sqrt (dx * dx + dy * dy) in
        implicitDirection x p rest'
          {| v_x := dx / magnitude; v_y := dy / magnitude |} distance
      else implicitDirection x p rest' bestDirection minDistance
  end.

Definition calculateImplicitVelocity (equation : Equation) (x speed : float) : Vector2 :=
  let step := 0.1 in
  let points := getPoints equation (x - step) (x + step) (-10) 10 20 in
  match points with
  | [] | [_] => {| v_x := speed; v_y := 0 |}
  | p0 :: rest =>
      let bestDirection :=
        implicitDirection x p0 rest {| v_x := 1; v_y := 0 |} JS.Infinity in
      {| v_x := speed * v_x bestDirection; v_y := speed * v_y bestDirection |}
  end.

(** [calculatePathVelocity(equation, x, speed = null)]; [speed] is [None]
    when the argument is left out. *)
Definition calculatePathVelocity (this : PhysicsEngine) (equation : Equation)
    (x : float) (speed : option float) : Vector2 :=
  let actualSpeed :=
    match speed with
    | Some s => if JS.truthy s then s else pathFollowSpeed this
    | None => pathFollowSpeed this
    end in
  match eq_type equation with
  | explicit_y | piecewise =>
      let derivative := calculateDerivative equation x default_h in
      let magnitude := JS.Math_sqrt (1 + derivative * derivative) in
      {| v_x := actualSpeed / magnitude;
         v_y := (actualSpeed * derivative) / magnitude |}
  | explicit_x =>
      match evaluate equation x with
      | None => {| v_x := 0; v_y := 0 |}
      | Some y =>
          let dxdy := calculateDerivativeX equation y default_h in
          let dydx := if JS.strict_neq dxdy 0 then 1 / dxdy else 0 in
          let mag := JS.Math_sqrt (1 + dydx * dydx) in
          {| v_x := actualSpeed / mag; v_y := (actualSpeed * dydx) / mag |}
      end
  | implicit => calculateImplicitVelocity equation x actualSpeed
  | other_type => {| v_x := actualSpeed; v_y := 0 |}
  end.

(** *** Closest point on a path *)

(** The loop state of the closest-point scans: the argument of the best
    sample so far ([closestX] or [closestY]) and [minDistance]. *)
Record ScanState := mkScanState {
  closestArg : float;
  minDistance : float
}.

(** The body of the scan of [findClosestPointExplicitY] at abscissa [x]:
    a sample that fails to evaluate, or is not finite, is skipped. *)
Definition scanBodyY (equation : Equation) (marbleX marbleY x : float)
    (st : ScanState) : ScanState :=
  match evaluate equation x with
  | None => st
  | Some y =>
      if negb (JS.isNaN y) && JS.isFinite y then
        let distance := JS.Math_sqrt (JS.sq (x - marbleX) + JS.sq (y - marbleY)) in
        if distance <? minDistance st then mkScanState x distance else st
      else st
  end.

(** The body of the scan of [findClosestPointExplicitX] at ordinate [y]. *)
Definition scanBodyX (equation : Equation) (marbleX marbleY y : float)
    (st : ScanState) : ScanState :=
  match evaluate equation y with
  | None => st
  | Some x =>
      if negb (JS.isNaN x) && JS.isFinite x then
        let distance := JS.Math_sqrt (JS.sq (x - marbleX) + JS.sq (y - marbleY)) in
        if distance <? minDistance st then mkScanState y distance else st
      else st
  end.

Definition scan_step : float := 0.05.

(** [for (let x = start; x <= end; x += step) body]. The loop variable is
    a float; [fuel] bounds the number of iterations of the embedding. *)
Fixpoint scanLoop (fuel : nat) (body : float -> ScanState -> ScanState)
    (endv x : float) (st : ScanState) : ScanState :=
  match fuel with
  | O => st
  | S fuel' =>
      if x <=? endv then scanLoop fuel' body endv (x + scan_step) (body x st)
      else st
  end.

(** The scans start at -10 or above and stop above 10, in steps of 0.05:
    they run at most 401 times (see [scanPoints_length]). *)
Definition scan_fuel : nat := 512.

Definition findClosestPointExplicitY (marble : Marble) (equation : Equation)
    (searchRadius : float) : option ClosestPoint :=
  let marbleX := v_x (position marble) in
  let marbleY := v_y (position marble) in
  let startX := JS.Math_max (-10) (marbleX - searchRadius) in
  let endX := JS.Math_min 10 (marbleX + searchRadius) in
  let st := scanLoop scan_fuel (scanBodyY equation marbleX marbleY) endX startX
              (mkScanState marbleX JS.Infinity) in
  match evaluate equation (closestArg st) with
  | None => None
  | Some closestY =>
      Some {| cp_x := closestArg st; cp_y := closestY; cp_distance := minDistance st |}
  end.

Definition findClosestPointExplicitX (marble : Marble) (equation : Equation)
    (searchRadius : float) : option ClosestPoint :=
  let marbleX := v_x (position marble) in
  let marbleY := v_y (position marble) in
  let startY := JS.Math_max (-10) (marbleY - searchRadius) in
  let endY := JS.Math_min 10 (marbleY + searchRadius) in
  let st := scanLoop scan_fuel (scanBodyX equation marbleX marbleY) endY startY
              (mkScanState marbleY JS.Infinity) in
  match evaluate equation (closestArg st) with
  | None => None
  | Some closestX =>
      Some {| cp_x := closestX; cp_y := closestArg st; cp_distance := minDistance st |}
  end.

Definition distanceTo (marbleX marbleY : float) (p : Vector2) : float :=
  JS.Math_sqrt (JS.sq (v_x p - marbleX) + JS.sq (v_y p - marbleY)).

(** The loop of [findClosestPointImplicit] over [points[1..]]. *)
Fixpoint closestOfPoints (marbleX marbleY : float) (points : list Vector2)
    (closestPoint : Vector2) (minDist : float) : Vector2 * float :=
  match points with
  | [] => (closestPoint, minDist)
  | p :: rest =>
      let distance := distanceTo marbleX marbleY p in
      if distance <? minDist then closestOfPoints marbleX marbleY rest p distance
      else closestOfPoints marbleX marbleY rest closestPoint minDist
  end.

Definition findClosestPointImplicit (marble : Marble) (equation : Equation)
    (searchRadius : float) : option ClosestPoint :=
  let marbleX := v_x (position marble) in
  let marbleY := v_y (position marble) in
  let points := getPoints equation
                  (marbleX - searchRadius) (marbleX + searchRadius)
                  (marbleY - searchRadius) (marbleY + searchRadius) 50 in
  match points with
  | [] => None
  | p0 :: rest =>
      let '(closestPoint, minDist) :=
        closestOfPoints marbleX marbleY rest p0 (distanceTo marbleX marbleY p0) in
      Some {| cp_x := v_x closestPoint; cp_y := v_y closestPoint; cp_distance := minDist |}
  end.

(** [findClosestPointOnPath(marble, equation, searchRadius = 2.0)] *)
Definition findClosestPointOnPath (marble : Marble) (equation : Equation)
    (searchRadius : float) : option ClosestPoint :=
  match eq_type equation with
  | explicit_y | piecewise => findClosestPointExplicitY marble equation searchRadius
  | explicit_x => findClosestPointExplicitX marble equation searchRadius
  | implicit => findClosestPointImplicit marble equation searchRadius
  | other_type => None
  end.

Definition default_searchRadius : float := 2.0.

(** *** Choosing among candidate paths *)

(** One round of the sampling loops of [samplePathPoints]. *)
Definition sampleExplicitY (equation : Equation) (startX step : float) (i : nat)
    : list Vector2 :=
  let x := startX + JS.of_nat i * step in
  match evaluate equation x with
  | None => []
  | Some y =>
      if negb (JS.isNaN y) && JS.isFinite y then [ {| v_x := x; v_y := y |} ] else []
  end.

Definition sampleExplicitX (equation : Equation) (startX distance yStep : float) (i : nat)
    : list Vector2 :=
  let y := -10 + JS.of_nat i * yStep in
  match evaluate equation y with
  | None => []
  | Some x =>
      if negb (JS.isNaN x) && JS.isFinite x && (startX <=? x) && (x <=? startX + distance)
      then [ {| v_x := x; v_y := y |} ] else []
  end.

(** [samplePathPoints(equation, startX, distance, numSamples)]: the loops
    run [i] from 0 to [numSamples] included. *)
Definition samplePathPoints (equation : Equation) (startX distance : float)
    (numSamples : nat) : list Vector2 :=
  match eq_type equation with
  | explicit_y | piecewise =>
      let step := distance / JS.of_nat numSamples in
      flat_map (sampleExplicitY equation startX step) (seq 0 (S numSamples))
  | explicit_x =>
      let yStep := distance / JS.of_nat numSamples in
      flat_map (sampleExplicitX equation startX distance yStep) (seq 0 (S numSamples))
  | implicit =>
      getPoints equation startX (startX + distance) (-10) 10 numSamples
  | other_type => []
  end.

(** The inner [forEach] of [calculatePathScore]: the closest approach of
    the sampled points to a star. *)
Definition closestApproach (samplePoints : list Vector2) (star : Star) : float :=
  fold_left
    (fun minDistanceToStar point =>
       let distanceToStar :=
         JS.Math_sqrt (JS.sq (v_x point - star_x star) + JS.sq (v_y point - star_y star)) in
       JS.Math_min minDistanceToStar distanceToStar)
    samplePoints JS.Infinity.

(** The body of the outer [forEach] of [calculatePathScore]: what one
    uncollected star does to [score]. *)
Definition scoreStar (this : PhysicsEngine) (marble : Marble) (pathData : PathData)
    (samplePoints : list Vector2) (score : float) (star : Star) : float :=
  let minDistanceToStar := closestApproach samplePoints star in
  let score :=
    if minDistanceToStar <? 2.0 then score + (2.0 - minDistanceToStar) * 100 else score in
  let directionToStar :=
    {| v_x := star_x star - v_x (position marble);
       v_y := star_y star - v_y (position marble) |} in
  let pathDirection :=
    calculatePathVelocity this (pd_equation pathData) (cp_x (pd_closestPoint pathData)) None in
  let dotProduct :=
    v_x directionToStar * v_x pathDirection + v_y directionToStar * v_y pathDirection in
  if 0 <? dotProduct then score + dotProduct * 10 else score.

Definition calculatePathScore (this : PhysicsEngine) (marble : Marble)
    (pathData : PathData) (stars : list Star) : float :=
  let uncollectedStars := filter (fun star => negb (star_collected star)) stars in
  match uncollectedStars with
  | [] => 0
  | _ =>
      let samplePoints :=
        samplePathPoints (pd_equation pathData) (v_x (position marble)) 5.0 20 in
      fold_left (scoreStar this marble pathData samplePoints) uncollectedStars 0
  end.

(** The loop state of [findBestPathTowardStars]: [bestPath], [bestScore]. *)
Definition bestStep (this : PhysicsEngine) (marble : Marble) (stars : list Star)
    (best : option PathData * float) (pathData : PathData) : option PathData * float :=
  let score := calculatePathScore this marble pathData stars in
  if snd best <? score then (Some pathData, score) else best.

Definition findBestPathTowardStars (this : PhysicsEngine) (marble : Marble)
    (candidatePaths : list PathData) (stars : list Star) : option PathData :=
  match candidatePaths with
  | [] => None
  | [pathData] => Some pathData
  | _ => fst (fold_left (bestStep this marble stars) candidatePaths (None, neg_infinity))
  end.

(** ** Marble *)

(** [constructor(x, y)] *)
Definition newMarble (x y : float) : Marble :=
  {| position := {| v_x := x; v_y := y |};
     velocity := {| v_x := 0.05; v_y := 0 |};
     radius := 0.15;
     onPath := false;
     currentEquation := None;
     trail := [];
     maxTrailLength := 25;
     pathThreshold := 0.8;
     timeOffPath := 0;
     stars := None |}.

(** The first statements of [update]: [trail.push] of a copy of the
    position, then [trail.shift] when the trail is too long. *)
Definition pushTrail (this : Marble) : Marble :=
  let trail' := trail this ++ [ {| v_x := v_x (position this); v_y := v_y (position this) |} ] in
  if (maxTrailLength this <? length trail')%nat then set_trail this (tl trail')
  else set_trail this trail'.

(** The candidate paths of a marble: the equations whose closest point is
    nearer than [pathThreshold], in the order of [equations]. *)
Definition candidatePathsOf (this : Marble) (physics : PhysicsEngine)
    (equations : list Equation) : list PathData :=
  flat_map
    (fun equation =>
       match findClosestPointOnPath this equation default_searchRadius with
       | Some closestPoint =>
           if cp_distance closestPoint <? pathThreshold this
           then [ {| pd_equation := equation;
                     pd_closestPoint := closestPoint;
                     pd_distance := cp_distance closestPoint |} ]
           else []
       | None => []
       end)
    equations.

(** [bestPathData] of [update]. *)
Definition selectPath (this : Marble) (physics : PhysicsEngine)
    (equations : list Equation) : option PathData :=
  match candidatePathsOf this physics equations with
  | [] => None
  | candidatePaths =>
      findBestPathTowardStars physics this candidatePaths
        (match stars this with Some l => l | None => [] end)
  end.

(** The branch of [update] taken when a path was selected. *)
Definition followPath (this : Marble) (physics : PhysicsEngine) (wasOnPath : bool)
    (bestPathData : PathData) : Marble :=
  let this := set_path_state this true (Some (pd_equation bestPathData)) 0 in
  let bestPoint := pd_closestPoint bestPathData in
  let snapStrength := pathSnapStrength physics in
  let this :=
    set_position this
      {| v_x := v_x (position this) + (cp_x bestPoint - v_x (position this)) * snapStrength;
         v_y := v_y (position this) + (cp_y bestPoint - v_y (position this)) * snapStrength |} in
  let pathVel :=
    calculatePathVelocity physics (pd_equation bestPathData) (v_x (position this)) None in
  let blendFactor := if wasOnPath then 0.8 else 0.5 in
  let this :=
    set_velocity this
      {| v_x := v_x (velocity this) * (1 - blendFactor) + v_x pathVel * blendFactor;
         v_y := v_y (velocity this) * (1 - blendFactor) + v_y pathVel * blendFactor |} in
  set_velocity this
    {| v_x := v_x (velocity this);
       v_y := v_y (velocity this) + gravity physics * 0.3 |}.

(** The branch of [update] taken when no path was selected. *)
Definition freeFall (this : Marble) (physics : PhysicsEngine) : Marble :=
  let this := set_path_state this false None (S (timeOffPath this)) in
  let this := applyGravity physics this in
  set_velocity this
    {| v_x := v_x (velocity this) * 0.995;
       v_y := v_y (velocity this) * 0.995 |}.

(** The last statement of [update]. *)
Definition stalled (v : Vector2) : bool :=
  (JS.Math_abs (v_x v) <? 0.001) && (JS.Math_abs (v_y v) <? 0.001).

Definition antiStall (this : Marble) : Marble :=
  if stalled (velocity this)
  then set_velocity this {| v_x := v_x (velocity this) + 0.01; v_y := v_y (velocity this) |}
  else this.

(** The statements of [update] before the final anti-stall guard. *)
Definition advance (this : Marble) (physics : PhysicsEngine) (equations : list Equation)
    : Marble :=
  let this := pushTrail this in
  let bestPathData := selectPath this physics equations in
  let wasOnPath := onPath this in
  let this :=
    match bestPathData with
    | Some pathData => followPath this physics wasOnPath pathData
    | None => freeFall this physics
    end in
  let this := applyFriction physics this in
  updatePosition this 1.

(** [update(physics, equations)] *)
Definition update (this : Marble) (physics : PhysicsEngine) (equations : list Equation)
    : Marble :=
  antiStall (advance this physics equations).

(** [reset(x, y)]: the radius, the thresholds and [stars] are kept. *)
Definition reset (this : Marble) (x y : float) : Marble :=
  {| position := {| v_x := x; v_y := y |};
     velocity := {| v_x := 0.05; v_y := 0 |};
     radius := radius this;
     onPath := false;
     currentEquation := None;
     trail := [];
     maxTrailLength := maxTrailLength this;
     pathThreshold := pathThreshold this;
     timeOffPath := 0;
     stars := stars this |}.

(** * EquationParser: the equation objects and the colours

    [compiled] stands for the compiled expression of mathjs, whose
    [evaluate] may throw ([None]); the [evaluate] of an equation object
    catches the exception and returns NaN. physics.js calls [getPoints] on
    implicit equations only: the field is empty for the other types. *)

(** [try { return this.compiled.evaluate({ x: x }); } catch (error) { return NaN; }] *)
Definition guardedEvaluate (compiled : float -> option float) (x : float) : float :=
  match compiled x with
  | Some v => v
  | None => JS.NaN
  end.

(** The equation object of [parseExplicitY]. *)
Definition explicitYEquation (compiled : float -> option float) : Equation :=
  mkEquation explicit_y (fun x => Some (guardedEvaluate compiled x)) (fun _ _ _ _ _ => []).

(** The equation object of [parseExplicitX]. *)
Definition explicitXEquation (compiled : float -> option float) : Equation :=
  mkEquation explicit_x (fun y => Some (guardedEvaluate compiled y)) (fun _ _ _ _ _ => []).

(** [condition.operator]: one of the five operators of [parseCondition],
    or anything else. *)
Inductive Operator :=
| op_gt
| op_lt
| op_ge
| op_le
| op_eq
| op_other.

(** [{ operator, value }] *)
Record Condition := mkCondition {
  operator : Operator;
  cond_value : float
}.

(** [checkCondition(x, condition)] *)
Definition checkCondition (x : float) (condition : Condition) : bool :=
  match operator condition with
  | op_gt => cond_value condition <? x
  | op_lt => x <? cond_value condition
  | op_ge => cond_value condition <=? x
  | op_le => x <=? cond_value condition
  | op_eq => JS.Math_abs (x - cond_value condition) <? 0.01
  | op_other => true
  end.

(** [evaluate(x)] of a piecewise equation. *)
Definition piecewiseEvaluate (compiled : float -> option float) (condition : Condition)
    (x : float) : float :=
  if checkCondition x condition then guardedEvaluate compiled x else JS.NaN.

(** The equation object of [parsePiecewise]. *)
Definition piecewiseEquation (compiled : float -> option float) (condition : Condition)
    : Equation :=
  mkEquation piecewise (fun x => Some (piecewiseEvaluate compiled condition x))
    (fun _ _ _ _ _ => []).

(** The parser's state: the colours, which are assigned in the constructor
    only, and the index of the next one. *)
Record EquationParser := mkEquationParser {
  colors : list String.string;
  colorIndex : nat
}.

(** [constructor()] *)
Definition newEquationParser : EquationParser :=
  {| colors := ["#ef4444"; "#10b981"; "#3b82f6"; "#8b5cf6"; "#f59e0b"; "#ec4899"]%string;
     colorIndex := 0 |}.

(** [getNextColor()]: the colour ([None] is [undefined]) and the parser
    afterwards. *)
Definition getNextColor (this : EquationParser) : option String.string * EquationParser :=
  let color := nth_error (colors this) (colorIndex this) in
  (color,
   {| colors := colors this;
      colorIndex := (colorIndex this + 1) mod length (colors this) |}).

Definition resetColorIndex (this : EquationParser) : EquationParser :=
  {| colors := colors this; colorIndex := 0 |}.

(** * EquationRenderer

    The calls made on the p5 instance are the result of a drawing method. *)

Inductive P5Call :=
| beginShape
| endShape
| noFill
| curveVertex (x y : float)
| vertex (x y : float)
| point (x y : float).

(** [mapToScreen(value, min, max, screenMin, screenMax)] *)
Definition mapToScreen (value min max screenMin screenMax : float) : float :=
  screenMin + (value - min) * (screenMax - screenMin) / (max - min).

(** [drawSmoothCurve(points)] *)
Definition drawSmoothCurve (points : list Vector2) : list P5Call :=
  if (length points <? 2)%nat then []
  else
    [beginShape; noFill] ++
    (if (3 <? length points)%nat then
       match points with
       | [] => []
       | first :: _ =>
           [curveVertex (v_x first) (v_y first)] ++
           map (fun p => curveVertex (v_x p) (v_y p)) points ++
           [curveVertex (v_x (last points first)) (v_y (last points first))]
       end
     else map (fun p => vertex (v_x p) (v_y p)) points) ++
    [endShape].

(** A finished segment is drawn when it has more than one point. *)
Definition drawSegment (currentSegment : list Vector2) : list P5Call :=
  if (1 <? length currentSegment)%nat then drawSmoothCurve currentSegment else [].

(** The loop of [drawContinuousSegments]: a sampled point is
    [{ x, y, valid: true }] ([Some]) or [{ valid: false }] ([None]). *)
Fixpoint segmentsLoop (points : list (option Vector2)) (currentSegment : list Vector2)
    : list P5Call :=
  match points with
  | [] => drawSegment currentSegment
  | Some p :: rest => segmentsLoop rest (currentSegment ++ [p])
  | None :: rest => drawSegment currentSegment ++ segmentsLoop rest []
  end.

(** [drawContinuousSegments(points)] *)
Definition drawContinuousSegments (points : list (option Vector2)) : list P5Call :=
  segmentsLoop points [].

(** [used.has(j)] *)
Definition has (used : list nat) (j : nat) : bool := existsb (Nat.eqb j) used.

(** The distance of [points[j]] to [lastPoint] in [groupPointsIntoCurves]. *)
Definition pointDistance (p lastPoint : Vector2) : float :=
  JS.Math_sqrt (JS.sq (v_x p - v_x lastPoint) + JS.sq (v_y p - v_y lastPoint)).

(** The points with their indices. *)
Definition indexed (points : list Vector2) : list (nat * Vector2) :=
  combine (seq 0 (length points)) points.

(** The inner [for] loop of [groupPointsIntoCurves]: the first index
    that is not used and whose point is within [maxDistance] of
    [lastPoint]. *)
Definition nextPoint (points : list Vector2) (used : list nat) (lastPoint : Vector2)
    (maxDistance : float) : option (nat * Vector2) :=
  find (fun jp => negb (has used (fst jp)) &&
                  (pointDistance (snd jp) lastPoint <=? maxDistance))
    (indexed points).

(** The [while (added)] loop: [lastPoint] is the last point of [curve].
    Every round but the last marks one more index as used, so the number
    of points bounds the rounds ([fuel]). *)
Fixpoint growCurve (fuel : nat) (points : list Vector2) (maxDistance : float)
    (curve : list Vector2) (lastPoint : Vector2) (used : list nat)
    : list Vector2 * list nat :=
  match fuel with
  | O => (curve, used)
  | S fuel' =>
      match nextPoint points used lastPoint maxDistance with
      | Some (j, p) => growCurve fuel' points maxDistance (curve ++ [p]) p (j :: used)
      | None => (curve, used)
      end
  end.

(** The outer [for] loop, over the indices that are left. *)
Fixpoint groupLoop (fuel : nat) (points : list Vector2) (maxDistance : float)
    (rest : list (nat * Vector2)) (used : list nat) : list (list Vector2) :=
  match rest with
  | [] => []
  | (i, p) :: rest' =>
      if has used i then groupLoop fuel points maxDistance rest' used
      else
        let '(curve, used') := growCurve fuel points maxDistance [p] p (i :: used) in
        curve :: groupLoop fuel points maxDistance rest' used'
  end.

(** [groupPointsIntoCurves(points, maxDistance)] *)
Definition groupPointsIntoCurves (points : list Vector2) (maxDistance : float)
    : list (list Vector2) :=
  groupLoop (length points) points maxDistance (indexed points) [].

(** What [drawImplicit] does with one curve. *)
Definition drawCurve (xMin xMax yMin yMax width height : float) (curve : list Vector2)
    : list P5Call :=
  let screen :=
    fun p => (mapToScreen (v_x p) xMin xMax 0 width,
              mapToScreen (- v_y p) (- yMax) (- yMin) 0 height) in
  if (1 <? length curve)%nat then
    [beginShape] ++ map (fun p => vertex (fst (screen p)) (snd (screen p))) curve ++ [endShape]
  else
    match curve with
    | [p] => [point (fst (screen p)) (snd (screen p))]
    | _ => []
    end.

(** [drawImplicit(equation, xMin, xMax, yMin, yMax, width, height)] *)
Definition drawImplicit (equation : Equation) (xMin xMax yMin yMax width height : float)
    : list P5Call :=
  let points := getPoints equation xMin xMax yMin yMax 80 in
  match points with
  | [] => []
  | _ =>
      flat_map (drawCurve xMin xMax yMin yMax width height)
        (groupPointsIntoCurves points 0.5)
  end.

(** * UIManager (ui.js)

    The arguments are the numbers that [parseFloat] reads from the two
    input fields (NaN when a field holds no number). *)

(** [value || fallback] on numbers. *)
Definition orElse (value fallback : float) : float :=
  if JS.truthy value then value else fallback.

(** [validateCoordinateInput(input)]: the border colour it sets. *)
Definition validateCoordinateInput (value : float) : String.string :=
  if JS.isNaN value || (value <? -10) || (10 <? value)
  then "#ef4444"%string else "#e5e7eb"%string.

(** [getStartPosition()] *)
Definition getStartPosition (startX startY : float) : Vector2 :=
  let x := orElse startX (-8) in
  let y := orElse startY 8 in
  {| v_x := JS.Math_max (-10) (JS.Math_min 10 x);
     v_y := JS.Math_max (-10) (JS.Math_min 10 y) |}.

(** * Reference definitions

    What the specification says about the functions above, worded over
    the same data, to be compared with the embedding. *)

(** ** The running minimum of the closest-point loops

    The first element of [l] whose key is least, with its key: a running
    minimum kept with a strict [<], which starts at [best] and [least]. *)
Fixpoint leastFrom {A : Type} (key : A -> float) (l : list A)
    (best : option A) (least : float) : option A * float :=
  match l with
  | [] => (best, least)
  | a :: l' =>
      if key a <? least then leastFrom key l' (Some a) (key a)
      else leastFrom key l' best least
  end.

Definition firstLeast {A : Type} (key : A -> float) (l : list A) : option A * float :=
  leastFrom key l None infinity.

(** ** Central difference *)

(** A half-step sample is unusable: its evaluation raises, or its value
    is not finite. *)
Definition sampleFailure (equation : Equation) (x : float) : bool :=
  match evaluate equation (x - 0.005), evaluate equation (x + 0.005) with
  | Some y1, Some y2 => negb (JS.isFinite y1) || negb (JS.isFinite y2)
  | _, _ => true
  end.

Definition centralDifference (equation : Equation) (x : float) : option float :=
  match evaluate equation (x - 0.005), evaluate equation (x + 0.005) with
  | Some y1, Some y2 => Some ((y2 - y1) / 0.01)
  | _, _ => None
  end.

(** The derivative contract as the specification states it: 0 exactly
    when a sample fails, the central difference otherwise, never NaN. *)
Definition derivative_claim (equation : Equation) (x : float) : Prop :=
  let d := calculateDerivative equation x default_h in
  (d = 0 <-> sampleFailure equation x = true) /\
  (sampleFailure equation x = false -> Some d = centralDifference equation x) /\
  JS.isNaN d = false.

(** ** Implicit tangent *)

Fixpoint consecutivePairs (points : list Vector2) : list (Vector2 * Vector2) :=
  match points with
  | [] => []
  | a :: rest =>
      match rest with
      | [] => []
      | b :: _ => (a, b) :: consecutivePairs rest
      end
  end.

Definition delta_x (pr : Vector2 * Vector2) : float := v_x (snd pr) - v_x (fst pr).
Definition delta_y (pr : Vector2 * Vector2) : float := v_y (snd pr) - v_y (fst pr).

(** The pair has a displacement: [dx !== 0 || dy !== 0]. *)
Definition displaced (pr : Vector2 * Vector2) : bool :=
  JS.strict_neq (delta_x pr) 0 || JS.strict_neq (delta_y pr) 0.

(** The normalized [(dx, dy)] of a pair. *)
Definition unitDelta (pr : Vector2 * Vector2) : Vector2 :=
  let magnitude :=
    JS.Math_sqrt (delta_x pr * delta_x pr + delta_y pr * delta_y pr) in
  {| v_x := delta_x pr / magnitude; v_y := delta_y pr / magnitude |}.

(** The tangent estimate from the pair of consecutive sampled points that
    is closest to the query according to [key]: the first such pair, among
    those with a displacement; the direction is [(1, 0)] when there is
    none, and the result [(speed, 0)] with fewer than two points. *)
Definition tangentFromPairs (key : Vector2 * Vector2 -> float)
    (equation : Equation) (x speed : float) : Vector2 :=
  let points := getPoints equation (x - 0.1) (x + 0.1) (-10) 10 20 in
  if (length points <? 2)%nat then {| v_x := speed; v_y := 0 |}
  else
    let direction :=
      match fst (firstLeast key (filter displaced (consecutivePairs points))) with
      | Some pr => unitDelta pr
      | None => {| v_x := 1; v_y := 0 |}
      end in
    {| v_x := speed * v_x direction; v_y := speed * v_y direction |}.

(** The distance in x from the query to the first, and to the second,
    point of a pair. *)
Definition firstPointKey (x : float) (pr : Vector2 * Vector2) : float :=
  JS.Math_abs (v_x (fst pr) - x).

Definition secondPointKey (x : float) (pr : Vector2 * Vector2) : float :=
  JS.Math_abs (v_x (snd pr) - x).

(** ** Closest point of an explicit curve *)

(** The abscissas that [scanLoop] visits. *)
Fixpoint scanPoints (fuel : nat) (endv x : float) : list float :=
  match fuel with
  | O => []
  | S fuel' =>
      if x <=? endv then x :: scanPoints fuel' endv (x + scan_step) else []
  end.

(** The sample of the curve at [x], when it evaluates to a finite value. *)
Definition sampleAt (equation : Equation) (x : float) : list (float * float) :=
  match evaluate equation x with
  | None => []
  | Some y => if negb (JS.isNaN y) && JS.isFinite y then [(x, y)] else []
  end.

(** The Euclidean distance from the marble to the sample [(x, y)]. *)
Definition sampleDistance (marbleX marbleY : float) (s : float * float) : float :=
  JS.Math_sqrt (JS.sq (fst s - marbleX) + JS.sq (snd s - marbleY)).

(** The loop state of the scan that stands for a running minimum: the
    abscissa of the best sample, or the marble's when there is none. *)
Definition stateOf (marbleX : float) (r : option (float * float) * float) : ScanState :=
  {| closestArg := match fst r with Some s => fst s | None => marbleX end;
     minDistance := snd r |}.

(** The samples of the scan of [findClosestPointExplicitY]. *)
Definition scanSamples (marble : Marble) (equation : Equation) (searchRadius : float)
    : list (float * float) :=
  let marbleX := v_x (position marble) in
  flat_map (sampleAt equation)
    (scanPoints scan_fuel
       (JS.Math_min 10 (marbleX + searchRadius))
       (JS.Math_max (-10) (marbleX - searchRadius))).

(** The closest-point contract as the specification states it: the
    result is the scanned sample nearest to the marble, with its
    distance; there is no result only if the evaluation at the nearest
    abscissa fails. *)
Definition closestPoint_claim (marble : Marble) (equation : Equation)
    (searchRadius : float) : Prop :=
  let marbleX := v_x (position marble) in
  let marbleY := v_y (position marble) in
  let samples := scanSamples marble equation searchRadius in
  match findClosestPointOnPath marble equation searchRadius with
  | Some cp =>
      In (cp_x cp, cp_y cp) samples /\
      cp_distance cp = sampleDistance marbleX marbleY (cp_x cp, cp_y cp) /\
      forall s, In s samples ->
        (sampleDistance marbleX marbleY s <? cp_distance cp) = false
  | None =>
      exists s, fst (firstLeast (sampleDistance marbleX marbleY) samples) = Some s /\
                evaluate equation (fst s) = None
  end.

(** ** Path score *)

(** The 21 positions of the lookahead, 0.25 apart (5.0 / 20), from
    [start]. *)
Definition lookaheadGrid (start : float) : list float :=
  map (fun i => start + JS.of_nat i * 0.25) (seq 0 21).

(** The lookahead samples of a path for a marble at abscissa [mx]:
    - on an explicit-y or piecewise path, the points [(x, eq(x))] at the
      21 abscissas from [mx] on, where [eq(x)] is finite;
    - on an explicit-x path, the points [(eq(y), y)] at the 21 ordinates
      from -10 on, where [eq(y)] is finite and lies in [[mx, mx + 5]];
    - on an implicit path, [getPoints(mx, mx + 5, -10, 10, 20)]. *)
Definition lookahead (equation : Equation) (mx : float) : list Vector2 :=
  match eq_type equation with
  | explicit_y | piecewise =>
      map (fun s => {| v_x := fst s; v_y := snd s |})
        (flat_map (sampleAt equation) (lookaheadGrid mx))
  | explicit_x =>
      map (fun s => {| v_x := snd s; v_y := fst s |})
        (filter (fun s => (mx <=? snd s) && (snd s <=? mx + 5))
           (flat_map (sampleAt equation) (lookaheadGrid (-10))))
  | implicit => getPoints equation mx (mx + 5) (-10) 10 20
  | other_type => []
  end.







(** ** Bounds *)

(** The position lies in [[minX, maxX] x [minY, maxY]], edges included. *)
Definition insideBounds (p : Vector2) (b : Bounds) : bool :=
  (minX b <=? v_x p) && (v_x p <=? maxX b) && (minY b <=? v_y p) && (v_y p <=? maxY b).

Definition checkBounds_claim (marble : Marble) (bounds : Bounds) : Prop :=
  checkBounds marble bounds = true <-> insideBounds (position marble) bounds = true.

(** No coordinate of the position and no edge of the bounds is NaN. *)
Definition nanFree (p : Vector2) (b : Bounds) : bool :=
  negb (JS.isNaN (v_x p) || JS.isNaN (v_y p) ||
        JS.isNaN (minX b) || JS.isNaN (maxX b) || JS.isNaN (minY b) || JS.isNaN (maxY b)).

(** ** Successive ticks *)

(** The marble after [n] calls of [update] with the same engine and the
    same equations. *)
Fixpoint ticks (n : nat) (this : Marble) (physics : PhysicsEngine)
    (equations : list Equation) : Marble :=
  match n with
  | O => this
  | S n' => update (ticks n' this physics equations) physics equations
  end.

(** The positions of the marble before each of its first [n] ticks. *)
Definition visited (n : nat) (this : Marble) (physics : PhysicsEngine)
    (equations : list Equation) : list Vector2 :=
  map (fun k => position (ticks k this physics equations)) (seq 0 n).

(** ** Closest point of a curve [x = f(y)] *)

(** The Euclidean distance from the marble to the sample [(y, x)] of a
    curve [x = f(y)]. *)
Definition sampleDistanceX (marbleX marbleY : float) (s : float * float) : float :=
  JS.Math_sqrt (JS.sq (snd s - marbleX) + JS.sq (fst s - marbleY)).

(** ** Successive colours *)

(** [n] successive calls of [getNextColor]: the colours they return and
    the parser afterwards. *)
Fixpoint nextColors (n : nat) (this : EquationParser)
    : list (option String.string) * EquationParser :=
  match n with
  | O => ([], this)
  | S n' =>
      let '(color, this') := getNextColor this in
      let '(rest, this'') := nextColors n' this' in
      (color :: rest, this'')
  end.

(** ** Curves of grouped points *)

(** Every point of the curve is within [maxDistance] of the one before. *)
Fixpoint chained (maxDistance : float) (curve : list Vector2) : bool :=
  match curve with
  | a :: rest =>
      match rest with
      | b :: _ => (pointDistance b a <=? maxDistance) && chained maxDistance rest
      | [] => true
      end
  | [] => true
  end.

(** The indexed points whose index is not used. *)
Definition unusedOf (used : list nat) (l : list (nat * Vector2)) : list (nat * Vector2) :=
  filter (fun ip => negb (has used (fst ip))) l.

(** The number of [vertex] and [point] calls among the calls on p5. *)
Definition plotted (calls : list P5Call) : nat :=
  length (filter (fun c => match c with vertex _ _ | point _ _ => true | _ => false end)
            calls).

(** * The meaning of binary64 values

    A finite binary64 number is an integer multiple of [2 ^ -1074]:
    [SFval] is that integer, and [rank] extends it to the infinities so
    that the order of floats is the order of their ranks. *)

Local Open Scope Z_scope.

(** [SpecFloat] is stated with the integer operations of [Corelib]; the
    lemmas of [ZArith] are about their copies in [BinInt]. *)
Ltac zfold :=
  change IntDef.Z.add with Z.add in *;
  change IntDef.Z.sub with Z.sub in *;
  change IntDef.Z.mul with Z.mul in *;
  change IntDef.Z.opp with Z.opp in *;
  change IntDef.Z.leb with Z.leb in *;
  change IntDef.Z.ltb with Z.ltb in *;
  change IntDef.Z.eqb with Z.eqb in *;
  change IntDef.Z.compare with Z.compare in *;
  change IntDef.Z.min with Z.min in *;
  change IntDef.Z.max with Z.max in *;
  change IntDef.Z.even with Z.even in *;
  change IntDef.Z.div_eucl with Z.div_eucl in *;
  change IntDef.Z.shiftl with Z.shiftl in *;
  change PosDef.Pos.mul with Pos.mul in *;
  change PosDef.Pos.iter with Pos.iter in *;
  change PosDef.Pos.compare_cont with Pos.compare_cont in *.

Definition SFval (x : spec_float) : Z :=
  match x with
  | S754_finite s m e => cond_Zopp s (Zpos m * 2 ^ (e + 1074))
  | _ => 0
  end.

Definition rank (x : spec_float) : Z :=
  match x with
  | S754_infinity s => cond_Zopp s (2 ^ 2100)
  | _ => SFval x
  end.

Definition is_nanSF (x : spec_float) : bool :=
  match x with S754_nan => true | _ => false end.

(** Zero or finite. *)
Definition SFfin (x : spec_float) : bool :=
  match x with
  | S754_zero _ | S754_finite _ _ _ => true
  | _ => false
  end.

(** Not NaN and not below zero. *)
Definition SFnonneg (x : spec_float) : bool :=
  match x with
  | S754_zero _ | S754_infinity false | S754_finite false _ _ => true
  | _ => false
  end.

(** A zero, an infinity or a finite number of sign [s]. *)
Definition SFsigned (s : bool) (r : spec_float) : Prop :=
  r = S754_zero s \/ r = S754_infinity s \/ exists m e, r = S754_finite s m e.

(** The rank of a primitive float, and its value as a rational. *)
Definition frank (x : float) : Z := rank (Prim2SF x).

Definition float_value (x : float) : Q := Qmake (frank x) (2 ^ 1074)%positive.

(** The location bits of the remainder [rem] of a division by [2 ^ n]. *)
Definition loc_of_rem (rem n : Z) : bool * bool :=
  if rem =? 0 then (false, false)
  else match 2 * rem ?= 2 ^ n with
       | Lt => (false, true)
       | Eq => (true, false)
       | Gt => (true, true)
       end.

(** [mrs] is [M] shifted right by [n] bits, with its location bits. *)
Definition shr_inv (M n : Z) (mrs : shr_record) : Prop :=
  0 <= n /\ shr_m mrs = M / 2 ^ n /\ (shr_r mrs, shr_s mrs) = loc_of_rem (M mod 2 ^ n) n.

(** [M / 2 ^ n] rounded to the nearest integer, ties to even. *)
Definition rnd_ne (M n : Z) : Z :=
  let q := M / 2 ^ n in
  let rem := M mod 2 ^ n in
  if rem =? 0 then q
  else match 2 * rem ?= 2 ^ n with
       | Lt => q
       | Eq => if Z.even q then q else q + 1
       | Gt => q + 1
       end.

(** A positive integer rounded to 53 significant bits, and the rounding
    of a signed integer. *)
Definition RNE (S : Z) : Z :=
  let k := Z.max (Z.log2 S - 52) 0 in rnd_ne S k * 2 ^ k.

Definition Rnd (S : Z) : Z :=
  match S with
  | Z0 => 0
  | Zpos _ => RNE S
  | Zneg _ => - RNE (- S)
  end.

(** What one step of a scan adds at least to the rank of the loop
    variable, between -10 and 10. *)
Definition scan_delta : Z := frank 0.05 - 2 ^ 1025.

(** The least and the greatest rank of [v + 0.01] for [|v| < 0.001]. *)
Definition nudge_lo : Z := RNE (frank 0.01 - frank 0.001 + 1).
Definition nudge_hi : Z := RNE (frank 0.01 + frank 0.001 - 1).

Local Close Scope Z_scope.

(** ** Anti-stall *)

(** A component has magnitude at least 0.001. *)
Definition moving (v : Vector2) : bool :=
  (0.001 <=? JS.Math_abs (v_x v)) || (0.001 <=? JS.Math_abs (v_y v)).

Definition nudge (v : Vector2) : Vector2 :=
  {| v_x := v_x v + 0.01; v_y := v_y v |}.

(** The scenario of the specification: after the tick [|velocity.x|] is
    at least 0.01, or [velocity.x] was raised by exactly 0.01. *)
Definition antiStall_claim (this : Marble) (physics : PhysicsEngine)
    (equations : list Equation) : Prop :=
  let before := velocity (advance this physics equations) in
  let after := velocity (update this physics equations) in
  (0.01 <=? JS.Math_abs (v_x after)) = true \/ v_x after = v_x before + 0.01.

(** The invariant of the anti-stall guard as the specification states it,
    for a marble whose velocity is finite before the tick. *)
Definition stallFree_claim (this : Marble) (physics : PhysicsEngine)
    (equations : list Equation) : Prop :=
  JS.isFinite (v_x (velocity this)) = true ->
  JS.isFinite (v_y (velocity this)) = true ->
  let before := velocity (advance this physics equations) in
  let after := velocity (update this physics equations) in
  stalled after = false /\
  (stalled before = true -> after = nudge before) /\
  (stalled before = false -> after = before) /\
  (stalled before = true ->
   (9 # 1000 < float_value (v_x after))%Q /\ (float_value (v_x after) < 11 # 1000)%Q) /\
  moving after = true.

(** * Concrete inputs *)

(** The line [y = 0]: an explicit curve. *)
Definition flatLine : Equation :=
  mkEquation explicit_y (fun _ => Some 0) (fun _ _ _ _ _ => []).

(** The parabola [y = x^2]. *)
Definition parabola : Equation :=
  mkEquation explicit_y (fun x => Some (x * x)) (fun _ _ _ _ _ => []).

(** The constant [y = 1]. *)
Definition constantOne : Equation :=
  mkEquation explicit_y (fun _ => Some 1) (fun _ _ _ _ _ => []).

(** A step of height 1e308 at [x = 1]: finite everywhere, and too steep
    for the central difference. *)
Definition steepStep : Equation :=
  mkEquation explicit_y (fun x => if x <? 1 then Some 0 else Some 1e308)
    (fun _ _ _ _ _ => []).

(** The piecewise curve [x^2 {x > 5}]: NaN outside its domain. *)
Definition rightBranch : Equation :=
  mkEquation piecewise (fun x => if 5 <? x then Some (x * x) else Some nan)
    (fun _ _ _ _ _ => []).

(** The circle [x^2 + y^2 = 1], as the parser builds it. *)
Definition unitCircle : Equation :=
  implicitEquation (fun x y => x * x + y * y - 1).

(** The marble of the anti-stall scenario, high above the line. *)
Definition slowMarble : Marble :=
  set_velocity (newMarble 0 5) {| v_x := 0.0005; v_y := -0.0003 |}.

(** A marble at rest next to the step. *)
Definition restingMarble : Marble :=
  set_velocity (newMarble 0.998 0) {| v_x := 0; v_y := 0 |}.

Definition world : Bounds := {| minX := -10; maxX := 10; minY := -10; maxY := 10 |}.

Definition farStar : Star :=
  {| star_x := 10; star_y := 0; star_radius := 0.3; star_collected := false |}.

Definition onFlatLine : PathData :=
  {| pd_equation := flatLine;
     pd_closestPoint := {| cp_x := 0; cp_y := 0; cp_distance := 0 |};
     pd_distance := 0 |}.

(** The piecewise curve [x^2 {x > 5}], as the parser builds it. *)
Definition rightBranchParsed : Equation :=
  piecewiseEquation (fun x => Some (x * x)) {| operator := op_gt; cond_value := 5 |}.

(** The curve [x = y^2], as the parser builds it. *)
Definition sidewaysParabola : Equation :=
  explicitXEquation (fun y => Some (y * y)).

(** The line [y = 3x]. *)
Definition steepLine : Equation :=
  mkEquation explicit_y (fun x => Some (3 * x)) (fun _ _ _ _ _ => []).

(** Two points next to each other and one far away. *)
Definition threePoints : list Vector2 :=
  [ {| v_x := 0; v_y := 0 |}; {| v_x := 0.3; v_y := 0 |}; {| v_x := 5; v_y := 5 |} ].

(** * Facts about binary64 arithmetic *)

Local Open Scope Z_scope.

(** ** Digits and validity *)

Lemma digits2_size p : digits2_pos p = Pos.size p.
Proof. induction p; simpl; congruence. Qed.

Lemma digits2_log2 p : Zpos (digits2_pos p) = Z.log2 (Zpos p) + 1.
Proof.
  rewrite digits2_size. destruct p; simpl; try reflexivity; rewrite Pos.add_1_r; reflexivity.
Qed.

Lemma digits2_bounds p :
  2 ^ (Zpos (digits2_pos p) - 1) <= Zpos p < 2 ^ (Zpos (digits2_pos p)).
Proof.
  rewrite digits2_log2.
  replace (Z.log2 (Z.pos p) + 1 - 1) with (Z.log2 (Z.pos p)) by lia.
  replace (Z.log2 (Z.pos p) + 1) with (Z.succ (Z.log2 (Z.pos p))) by lia.
  apply Z.log2_spec. lia.
Qed.

(** What validity says about a finite number. *)
Lemma valid_finite s m e :
  valid_binary (S754_finite s m e) = true ->
  -1074 <= e <= 971 /\ Zpos m < 2 ^ 53 /\ (e = -1074 \/ 2 ^ 52 <= Zpos m).
Proof.
  unfold SpecFloat.valid_binary, bounded, canonical_mantissa, fexp, SpecFloat.emin, prec, emax.
  intros H. apply andb_prop in H. destruct H as [H1 H2].
  apply Z.eqb_eq in H1. apply Z.leb_le in H2.
  pose proof (digits2_bounds m) as [Hlo Hhi].
  set (d := Zpos (digits2_pos m)) in *.
  assert (Hd : d <= 53 /\ (e = -1074 \/ d = 53) /\ -1074 <= e) by lia.
  destruct Hd as (Hd1 & Hd2 & Hd3).
  split; [lia|]. split.
  - eapply Z.lt_le_trans; [exact Hhi|]. apply Z.pow_le_mono_r; lia.
  - destruct Hd2 as [->|Hd2]; [left; reflexivity|right].
    rewrite Hd2 in Hlo. exact Hlo.
Qed.

(** ** The order of floats is the order of their ranks *)

Lemma mag_lt m1 e1 m2 e2 :
  -1074 <= e1 -> Zpos m1 < 2 ^ 53 -> 2 ^ 52 <= Zpos m2 -> e1 < e2 ->
  Zpos m1 * 2 ^ (e1 + 1074) < Zpos m2 * 2 ^ (e2 + 1074).
Proof.
  intros He1 Hm1 Hm2 Hlt.
  assert (H0 : 0 < 2 ^ (e1 + 1074)) by (apply Z.pow_pos_nonneg; lia).
  apply Z.lt_le_trans with (2 ^ 53 * 2 ^ (e1 + 1074)).
  - apply Z.mul_lt_mono_pos_r; assumption.
  - apply Z.le_trans with (2 ^ 52 * 2 ^ (e2 + 1074)).
    + rewrite <- !Z.pow_add_r by lia. apply Z.pow_le_mono_r; lia.
    + apply Z.mul_le_mono_nonneg_r; [|exact Hm2]. apply Z.pow_nonneg; lia.
Qed.

Lemma mag_compare m1 e1 m2 e2 :
  valid_binary (S754_finite false m1 e1) = true ->
  valid_binary (S754_finite false m2 e2) = true ->
  (Zpos m1 * 2 ^ (e1 + 1074) ?= Zpos m2 * 2 ^ (e2 + 1074)) =
  match e1 ?= e2 with
  | Lt => Lt
  | Gt => Gt
  | Eq => Pos.compare_cont Eq m1 m2
  end.
Proof.
  intros V1 V2.
  apply valid_finite in V1. apply valid_finite in V2.
  destruct V1 as (He1 & Hm1 & Hn1). destruct V2 as (He2 & Hm2 & Hn2).
  destruct (Z.compare_spec e1 e2) as [Heq|Hlt|Hgt].
  - subst e2. change (Pos.compare_cont Eq m1 m2) with (Zpos m1 ?= Zpos m2).
    assert (H0 : 0 < 2 ^ (e1 + 1074)) by (apply Z.pow_pos_nonneg; lia).
    destruct (Z.compare_spec (Zpos m1) (Zpos m2)) as [E|L|G].
    + rewrite E. apply Z.compare_refl.
    + apply Z.compare_lt_iff. apply Z.mul_lt_mono_pos_r; assumption.
    + apply Z.compare_gt_iff. apply Z.mul_lt_mono_pos_r; assumption.
  - apply Z.compare_lt_iff. apply mag_lt; try lia.
  - apply Z.compare_gt_iff. apply mag_lt; try lia.
Qed.

Lemma mag_pos m e : 0 < Zpos m * 2 ^ (e + 1074) \/ e + 1074 < 0.
Proof.
  destruct (Z_lt_le_dec (e + 1074) 0); [right; assumption|left].
  apply Z.mul_pos_pos; [lia|apply Z.pow_pos_nonneg; lia].
Qed.

Lemma mag_bound m e :
  valid_binary (S754_finite false m e) = true ->
  0 < Zpos m * 2 ^ (e + 1074) < 2 ^ 2098.
Proof.
  intros V. apply valid_finite in V. destruct V as (He & Hm & _).
  split.
  - apply Z.mul_pos_pos; [lia|apply Z.pow_pos_nonneg; lia].
  - apply Z.lt_le_trans with (2 ^ 53 * 2 ^ (e + 1074)).
    + apply Z.mul_lt_mono_pos_r; [apply Z.pow_pos_nonneg; lia|assumption].
    + rewrite <- Z.pow_add_r by lia. apply Z.pow_le_mono_r; lia.
Qed.

Lemma pow2098_lt : 2 ^ 2098 < 2 ^ 2100.
Proof. apply Z.pow_lt_mono_r; lia. Qed.

(** The comparison of two valid numbers is the comparison of their ranks. *)
Theorem SFcompare_rank x y :
  valid_binary x = true -> valid_binary y = true ->
  is_nanSF x = false -> is_nanSF y = false ->
  SFcompare x y = Some (rank x ?= rank y).
Proof.
  intros Vx Vy Nx Ny.
  destruct x as [sx|sx| |sx mx ex]; try discriminate Nx;
  destruct y as [sy|sy| |sy my ey]; try discriminate Ny;
  cbn [SFcompare rank SFval] in *; f_equal; symmetry;
  pose proof pow2098_lt as P;
  assert (P0 : 0 < 2 ^ 2098) by (apply Z.pow_pos_nonneg; lia);
  try (pose proof (mag_bound mx ex Vx)); try (pose proof (mag_bound my ey Vy));
  set (A := 2 ^ 2098) in *; set (B := 2 ^ 2100) in *; clearbody A B;
  try reflexivity;
  try (destruct sx); try (destruct sy); cbn [cond_Zopp] in *;
  try solve [apply Z.compare_lt_iff; lia | apply Z.compare_gt_iff; lia
            | apply Z.compare_eq_iff; lia].
  - rewrite Z.compare_opp. rewrite (mag_compare my ey mx ex Vy Vx).
    rewrite (Z.compare_antisym ex ey), (Pos.compare_cont_antisym).
    destruct (ex ?= ey); reflexivity.
  - apply (mag_compare mx ex my ey Vx Vy).
Qed.

(** ** Rounding: the shape of the result *)

Lemma shr_1_nonneg mrs : 0 <= shr_m mrs -> 0 <= shr_m (shr_1 mrs).
Proof.
  destruct mrs as [m r s]. cbn [shr_m]. intros H.
  destruct m as [|p|p]; [| |lia]; cbn; [lia|].
  destruct p; cbn; lia.
Qed.

Lemma iter_shr_1_nonneg p : forall mrs,
  0 <= shr_m mrs -> 0 <= shr_m (iter_pos shr_1 p mrs).
Proof.
  induction p as [p IH|p IH|]; intros mrs H; cbn [iter_pos].
  - apply IH, IH, shr_1_nonneg, H.
  - apply IH, IH, H.
  - apply shr_1_nonneg, H.
Qed.

Lemma shr_record_of_loc_m m l : shr_m (shr_record_of_loc m l) = m.
Proof. destruct l as [|[| |]]; reflexivity. Qed.

Lemma shr_fexp_nonneg m e l :
  0 <= m -> 0 <= shr_m (fst (shr_fexp prec emax m e l)).
Proof.
  intros H. unfold shr_fexp, shr.
  destruct (fexp prec emax (Zdigits2 m + e) - e) as [|p|p]; cbn [fst];
    try (rewrite shr_record_of_loc_m; exact H).
  apply iter_shr_1_nonneg. rewrite shr_record_of_loc_m; exact H.
Qed.

Lemma round_nearest_even_nonneg m l : 0 <= m -> 0 <= round_nearest_even m l.
Proof.
  intros H. destruct l as [|[| |]]; cbn [round_nearest_even]; try lia.
  destruct (Z.even m); lia.
Qed.

(** Rounding a mantissa that is not negative gives a zero, an infinity or
    a finite number of the given sign, never NaN. *)
Lemma binary_round_aux_signed s mx ex lx :
  0 <= mx -> SFsigned s (binary_round_aux prec emax s mx ex lx).
Proof.
  intros H. unfold binary_round_aux.
  pose proof (shr_fexp_nonneg mx ex lx H) as H1.
  destruct (shr_fexp prec emax mx ex lx) as [mrs' e'] eqn:E1. cbn [fst] in H1.
  pose proof (shr_fexp_nonneg _ e' loc_Exact
                (round_nearest_even_nonneg _ (loc_of_shr_record mrs') H1)) as H2.
  destruct (shr_fexp prec emax (round_nearest_even (shr_m mrs') (loc_of_shr_record mrs')) e' loc_Exact)
    as [mrs'' e''] eqn:E2. cbn [fst] in H2.
  destruct (shr_m mrs'') as [|m|m]; [left; reflexivity| |lia].
  destruct (e'' <=? emax - prec); right; [right; eauto|left; reflexivity].
Qed.

Lemma binary_normalize_signed m e :
  m <> 0 -> SFsigned (m <? 0) (binary_normalize prec emax m e false).
Proof.
  intros H. destruct m as [|p|p]; [congruence| |]; cbn [binary_normalize];
    unfold binary_round;
    destruct (shl_align p e (fexp prec emax (Z.pos (digits2_pos p) + e))) as [mz ez];
    apply binary_round_aux_signed; lia.
Qed.

(** ** Rounding: the value of the result *)

Lemma iter_xO m d : Zpos (Pos.iter xO m d) = Zpos m * 2 ^ Zpos d.
Proof.
  induction d as [|d IH] using Pos.peano_ind.
  - cbn [Pos.iter]. lia.
  - rewrite Pos.iter_succ, Pos2Z.inj_xO, IH, Pos2Z.inj_succ, Z.pow_succ_r by lia. ring.
Qed.

Lemma shl_align_spec mx ex ez :
  ez <= ex ->
  Zpos (fst (shl_align mx ex ez)) = Zpos mx * 2 ^ (ex - ez) /\
  snd (shl_align mx ex ez) = ez.
Proof.
  intros H. unfold shl_align.
  destruct (ez - ex) as [|d|d] eqn:E; cbn [fst snd].
  - replace (ex - ez) with 0 by lia. split; lia.
  - lia.
  - rewrite iter_xO. replace (ex - ez) with (Zpos d) by lia. split; lia.
Qed.

Lemma shl_align_ge mx ex ez :
  ex <= ez -> shl_align mx ex ez = (mx, ex).
Proof.
  intros H. unfold shl_align. destruct (ez - ex) as [|d|d] eqn:E; try reflexivity. lia.
Qed.

Lemma shr_inv_0 M : shr_inv M 0 (Build_shr_record M false false).
Proof.
  unfold shr_inv. cbn [shr_m shr_r shr_s]. rewrite Z.pow_0_r, Z.div_1_r, Z.mod_1_r.
  repeat split; lia.
Qed.

Lemma shr_1_m mrs :
  0 <= shr_m mrs ->
  shr_m (shr_1 mrs) = shr_m mrs / 2 /\
  shr_r (shr_1 mrs) = Z.odd (shr_m mrs) /\
  shr_s (shr_1 mrs) = shr_r mrs || shr_s mrs.
Proof.
  destruct mrs as [m r s]. cbn [shr_m shr_r shr_s]. intros H.
  destruct m as [|p|p]; [| |lia].
  - cbn. auto.
  - destruct p as [p|p|]; cbn [shr_1 shr_m shr_r shr_s].
    + repeat split. rewrite Pos2Z.inj_xI.
      apply Z.div_unique with (r := 1); lia.
    + repeat split. rewrite Pos2Z.inj_xO.
      apply Z.div_unique with (r := 0); lia.
    + repeat split.
Qed.

(** One shift to the right keeps the invariant. *)
Lemma shr_inv_step M n mrs :
  0 <= M -> shr_inv M n mrs -> shr_inv M (n + 1) (shr_1 mrs).
Proof.
  intros HM (Hn & Hm & Hl).
  assert (P : 0 < 2 ^ n) by (apply Z.pow_pos_nonneg; lia).
  assert (Hq : 0 <= shr_m mrs) by (rewrite Hm; apply Z.div_pos; lia).
  destruct (shr_1_m mrs Hq) as (E1 & E2 & E3).
  pose proof (Z.mod_pos_bound M (2 ^ n) P) as Hrem.
  pose proof (Z.div_mod M (2 ^ n) ltac:(lia)) as HM1.
  set (q := M / 2 ^ n) in *. set (rem := M mod 2 ^ n) in *.
  pose proof (Z.div_mod q 2 ltac:(lia)) as Hq2.
  pose proof (Z.mod_pos_bound q 2 ltac:(lia)) as Hb.
  assert (Hpow : 2 ^ (n + 1) = 2 * 2 ^ n) by (rewrite Z.pow_add_r by lia; lia).
  assert (Hdiv : M / 2 ^ (n + 1) = q / 2).
  { symmetry. apply Z.div_unique with (r := rem + 2 ^ n * (q mod 2)); [nia|nia]. }
  assert (Hmod : M mod 2 ^ (n + 1) = rem + 2 ^ n * (q mod 2)).
  { symmetry. apply Z.mod_unique with (q := q / 2); [nia|nia]. }
  unfold shr_inv. split; [lia|]. split; [rewrite E1, Hm; symmetry; exact Hdiv|].
  rewrite E2, E3, Hmod, Hm. fold q.
  assert (Hs : shr_r mrs || shr_s mrs = negb (rem =? 0)).
  { unfold loc_of_rem in Hl. destruct (rem =? 0).
    - injection Hl as -> ->. reflexivity.
    - destruct (2 * rem ?= 2 ^ n); injection Hl as -> ->; reflexivity. }
  rewrite Hs. unfold loc_of_rem. rewrite Hpow.
  rewrite Zodd_mod.
  destruct (Z.eq_dec (q mod 2) 0) as [E0|E0].
  - rewrite E0. cbn [Z.eqb]. replace (rem + 2 ^ n * 0) with rem by lia.
    destruct (rem =? 0) eqn:R; [reflexivity|].
    apply Z.eqb_neq in R.
    replace (2 * rem ?= 2 * 2 ^ n) with Lt; [reflexivity|].
    symmetry. apply Z.compare_lt_iff. lia.
  - assert (E1' : q mod 2 = 1) by lia. rewrite E1'. cbn [Z.eqb Pos.eqb].
    replace (rem + 2 ^ n * 1 =? 0) with false by (symmetry; apply Z.eqb_neq; lia).
    destruct (rem =? 0) eqn:R.
    + apply Z.eqb_eq in R. rewrite R.
      replace (2 * (0 + 2 ^ n * 1) ?= 2 * 2 ^ n) with Eq; [reflexivity|].
      symmetry. apply Z.compare_eq_iff. lia.
    + apply Z.eqb_neq in R.
      replace (2 * (rem + 2 ^ n * 1) ?= 2 * 2 ^ n) with Gt; [reflexivity|].
      symmetry. apply Z.compare_gt_iff. lia.
Qed.

Lemma shr_inv_iter M p : forall n mrs,
  0 <= M -> shr_inv M n mrs -> shr_inv M (n + Zpos p) (iter_pos shr_1 p mrs).
Proof.
  induction p as [p IH|p IH|]; intros n mrs HM H; cbn [iter_pos].
  - replace (n + Zpos p~1) with (n + 1 + Zpos p + Zpos p) by lia.
    apply IH, IH, shr_inv_step; assumption.
  - replace (n + Zpos p~0) with (n + Zpos p + Zpos p) by lia.
    apply IH, IH; assumption.
  - apply shr_inv_step; assumption.
Qed.

(** The rounding that [SpecFloat] reads off the location bits is [rnd_ne]. *)
Lemma round_shr_inv M n mrs :
  shr_inv M n mrs ->
  round_nearest_even (shr_m mrs) (loc_of_shr_record mrs) = rnd_ne M n.
Proof.
  intros (Hn & Hm & Hl). unfold rnd_ne. rewrite <- Hm.
  unfold loc_of_rem in Hl.
  destruct mrs as [m r s]. cbn [shr_m shr_r shr_s] in *.
  destruct (M mod 2 ^ n =? 0).
  - injection Hl as -> ->. reflexivity.
  - destruct (2 * (M mod 2 ^ n) ?= 2 ^ n); injection Hl as -> ->; reflexivity.
Qed.

Lemma rnd_ne_scale M n j :
  0 <= n -> 0 <= j -> rnd_ne (M * 2 ^ j) (n + j) = rnd_ne M n.
Proof.
  intros Hn Hj. unfold rnd_ne.
  assert (Pj : 0 < 2 ^ j) by (apply Z.pow_pos_nonneg; lia).
  assert (Pn : 0 < 2 ^ n) by (apply Z.pow_pos_nonneg; lia).
  rewrite Z.pow_add_r by lia.
  rewrite Z.div_mul_cancel_r by lia.
  rewrite Z.mul_mod_distr_r by lia.
  set (q := M / 2 ^ n). set (rem := M mod 2 ^ n).
  replace (rem * 2 ^ j =? 0) with (rem =? 0).
  2:{ destruct (Z.eqb_spec rem 0) as [->|N]; symmetry; [apply Z.eqb_eq; lia|apply Z.eqb_neq; nia]. }
  replace (2 * (rem * 2 ^ j) ?= 2 ^ n * 2 ^ j) with (2 * rem ?= 2 ^ n); [reflexivity|].
  destruct (Z.compare_spec (2 * rem) (2 ^ n)) as [E|L|G]; symmetry.
  - apply Z.compare_eq_iff. nia.
  - apply Z.compare_lt_iff. nia.
  - apply Z.compare_gt_iff. nia.
Qed.

Lemma rnd_ne_exact M n : 0 <= n -> M mod 2 ^ n = 0 -> rnd_ne M n * 2 ^ n = M.
Proof.
  intros Hn H. unfold rnd_ne. rewrite H. cbn [Z.eqb].
  assert (Pn : 0 < 2 ^ n) by (apply Z.pow_pos_nonneg; lia).
  pose proof (Z.div_mod M (2 ^ n) ltac:(lia)). lia.
Qed.

Lemma rnd_ne_bounds M n :
  0 <= n -> M / 2 ^ n <= rnd_ne M n <= M / 2 ^ n + 1.
Proof.
  intros Hn. unfold rnd_ne.
  destruct (M mod 2 ^ n =? 0); [lia|].
  destruct (2 * (M mod 2 ^ n) ?= 2 ^ n); try lia.
  destruct (Z.even (M / 2 ^ n)); lia.
Qed.

Lemma rnd_ne_mono M1 M2 n :
  0 <= n -> M1 <= M2 -> rnd_ne M1 n <= rnd_ne M2 n.
Proof.
  intros Hn H.
  assert (Pn : 0 < 2 ^ n) by (apply Z.pow_pos_nonneg; lia).
  pose proof (Z.div_le_mono M1 M2 (2 ^ n) Pn H) as Hq.
  pose proof (rnd_ne_bounds M1 n Hn) as B1.
  pose proof (rnd_ne_bounds M2 n Hn) as B2.
  destruct (Z.eq_dec (M1 / 2 ^ n) (M2 / 2 ^ n)) as [E|N]; [|lia].
  pose proof (Z.div_mod M1 (2 ^ n) ltac:(lia)) as D1.
  pose proof (Z.div_mod M2 (2 ^ n) ltac:(lia)) as D2.
  assert (Hr : M1 mod 2 ^ n <= M2 mod 2 ^ n) by nia.
  pose proof (Z.mod_pos_bound M1 (2 ^ n) Pn) as R1.
  pose proof (Z.mod_pos_bound M2 (2 ^ n) Pn) as R2.
  unfold rnd_ne. rewrite <- E.
  set (q := M1 / 2 ^ n) in *. set (r1 := M1 mod 2 ^ n) in *. set (r2 := M2 mod 2 ^ n) in *.
  destruct (Z.eqb_spec r1 0) as [Z1|Z1]; destruct (Z.eqb_spec r2 0) as [Z2|Z2].
  - lia.
  - destruct (2 * r2 ?= 2 ^ n); try lia. destruct (Z.even q); lia.
  - lia.
  - destruct (Z.compare_spec (2 * r1) (2 ^ n)) as [E1|L1|G1];
    destruct (Z.compare_spec (2 * r2) (2 ^ n)) as [E2|L2|G2];
    try lia; destruct (Z.even q); lia.
Qed.

Lemma Zdigits2_log2 p : Zdigits2 (Zpos p) = Z.log2 (Zpos p) + 1.
Proof. exact (digits2_log2 p). Qed.

Lemma log2_scale p j : 0 <= j -> Z.log2 (Zpos p * 2 ^ j) = Z.log2 (Zpos p) + j.
Proof. intros Hj. rewrite Z.log2_mul_pow2 by lia. lia. Qed.

Lemma fexp_eq d e : fexp prec emax (d + e) = Z.max (d + e - 53) (-1074).
Proof. reflexivity. Qed.

(** No shift is needed: the mantissa is kept. *)
Lemma binary_round_aux_keep s p ex :
  fexp prec emax (Zdigits2 (Zpos p) + ex) <= ex -> ex <= 971 ->
  binary_round_aux prec emax s (Zpos p) ex loc_Exact = S754_finite s p ex.
Proof.
  intros Hf He. unfold binary_round_aux, shr_fexp. zfold.
  assert (Hshr : forall l, shr (shr_record_of_loc (Zpos p) l) ex
                   (fexp prec emax (Zdigits2 (Z.pos p) + ex) - ex) =
                 (shr_record_of_loc (Zpos p) l, ex)).
  { intros l. unfold shr.
    destruct (fexp prec emax (Zdigits2 (Z.pos p) + ex) - ex) eqn:E; try reflexivity. lia. }
  pose proof (Hshr loc_Exact) as H2. cbn [shr_record_of_loc] in H2 |- *.
  rewrite H2. cbn [shr_m loc_of_shr_record round_nearest_even shr_record_of_loc].
  rewrite H2. cbn [shr_m].
  replace (ex <=? emax - prec) with true; [reflexivity|].
  symmetry. apply Z.leb_le. unfold emax, prec. lia.
Qed.

Lemma log2_53 m : 2 ^ 52 <= m < 2 ^ 53 -> Z.log2 m = 52.
Proof. intros H. apply Z.log2_unique; [lia|]. exact H. Qed.

(** A shift is needed: the mantissa is rounded to 53 bits. *)
Lemma binary_round_aux_round s p ex :
  let n := fexp prec emax (Zdigits2 (Zpos p) + ex) - ex in
  -1074 <= ex -> 0 < n -> ex + n + 1 <= 971 ->
  exists m'' e'',
    binary_round_aux prec emax s (Zpos p) ex loc_Exact = S754_finite s m'' e'' /\
    Zpos m'' * 2 ^ (e'' + 1074) = rnd_ne (Zpos p) n * 2 ^ (ex + n + 1074).
Proof.
  intros n Hex Hn Hov.
  pose proof (digits2_bounds p) as Hd.
  assert (En : n = Zpos (digits2_pos p) - 53).
  { unfold n in *. cbn [Zdigits2] in *. rewrite fexp_eq in *. lia. }
  assert (Pn : 0 < 2 ^ n) by (apply Z.pow_pos_nonneg; lia).
  assert (Hq : 2 ^ 52 <= Zpos p / 2 ^ n < 2 ^ 53).
  { split.
    - apply Z.div_le_lower_bound; [lia|]. rewrite <- Z.pow_add_r by lia.
      replace (n + 52) with (Zpos (digits2_pos p) - 1) by lia. apply Hd.
    - apply Z.div_lt_upper_bound; [lia|]. rewrite <- Z.pow_add_r by lia.
      replace (n + 53) with (Zpos (digits2_pos p)) by lia. apply Hd. }
  pose proof (rnd_ne_bounds (Zpos p) n ltac:(lia)) as Hr.
  unfold binary_round_aux, shr_fexp. zfold. fold n.
  unfold shr at 1. destruct n as [|pn|pn] eqn:E; try lia.
  pose proof (shr_inv_iter (Zpos p) pn 0 _ ltac:(lia) (shr_inv_0 (Zpos p))) as Hinv.
  cbn [shr_record_of_loc]. rewrite Z.add_0_l in Hinv.
  rewrite (round_shr_inv _ _ _ Hinv).
  set (m1 := rnd_ne (Zpos p) (Zpos pn)) in *.
  assert (Hm1 : 2 ^ 52 <= m1 <= 2 ^ 53) by lia.
  destruct m1 as [|q|q] eqn:Em1; try lia.
  destruct (Z.eq_dec (Zpos q) (2 ^ 53)) as [Etop|Ntop].
  - (* the rounded mantissa has 54 bits *)
    assert (Hdig : Zdigits2 (Zpos q) = 54).
    { rewrite Zdigits2_log2, Etop, Z.log2_pow2 by lia. reflexivity. }
    rewrite Hdig, fexp_eq.
    replace (Z.max (54 + (ex + Zpos pn) - 53) (-1074) - (ex + Zpos pn)) with 1 by lia.
    cbn [shr iter_pos shr_record_of_loc].
    exists (4503599627370496%positive), (ex + Zpos pn + 1).
    split.
    + assert (Eq : q = 9007199254740992%positive) by (apply Pos2Z.inj; rewrite Etop; reflexivity).
      subst q. cbn [shr_1 shr_m].
      replace (ex + Zpos pn + 1 <=? emax - prec) with true; [reflexivity|].
      symmetry. apply Z.leb_le. unfold emax, prec. lia.
    + rewrite Etop. replace (ex + Zpos pn + 1 + 1074) with (Z.succ (ex + Zpos pn + 1074)) by lia.
      rewrite Z.pow_succ_r by lia.
      change (Zpos 4503599627370496) with (2 ^ 52).
      replace (2 ^ 53) with (2 * 2 ^ 52) by reflexivity. ring.
  - assert (Hdig : Zdigits2 (Zpos q) = 53).
    { rewrite Zdigits2_log2, log2_53 by lia. reflexivity. }
    rewrite Hdig, fexp_eq.
    replace (Z.max (53 + (ex + Zpos pn) - 53) (-1074) - (ex + Zpos pn)) with 0 by lia.
    cbn [shr shr_record_of_loc shr_m].
    exists q, (ex + Zpos pn). split; [|reflexivity].
    replace (ex + Zpos pn <=? emax - prec) with true; [reflexivity|].
    symmetry. apply Z.leb_le. unfold emax, prec. lia.
Qed.

Lemma RNE_shift p e :
  -1074 <= e ->
  Z.max (Z.log2 (Zpos p * 2 ^ (e + 1074)) - 52) 0 =
  fexp prec emax (Zdigits2 (Zpos p) + e) + 1074.
Proof.
  intros He. rewrite log2_scale by lia. rewrite fexp_eq, Zdigits2_log2. lia.
Qed.

Lemma RNE_multiple m k S :
  0 <= k -> S = m * 2 ^ k -> rnd_ne S k * 2 ^ k = S.
Proof.
  intros Hk ->. apply rnd_ne_exact; [exact Hk|]. apply Z.mod_mul.
  apply Z.pow_nonzero; lia.
Qed.

(** [binary_round] of a mantissa at an exponent of at least -1074 is the
    rounding of the value to 53 bits, short of an overflow. *)
Theorem binary_round_val s p e :
  -1074 <= e -> Zpos p * 2 ^ (e + 1074) < 2 ^ 2074 ->
  exists m'' e'',
    binary_round prec emax s p e = S754_finite s m'' e'' /\
    Zpos m'' * 2 ^ (e'' + 1074) = RNE (Zpos p * 2 ^ (e + 1074)).
Proof.
  intros He Hov.
  pose proof (digits2_bounds p) as Hd.
  assert (Hde : Zpos (digits2_pos p) + e <= 1000).
  { assert (H : 2 ^ (Zpos (digits2_pos p) - 1 + (e + 1074)) < 2 ^ 2074).
    { eapply Z.le_lt_trans; [|exact Hov]. rewrite Z.pow_add_r by lia.
      apply Z.mul_le_mono_nonneg_r; [apply Z.pow_nonneg; lia|apply Hd]. }
    apply Z.pow_lt_mono_r_iff in H; lia. }
  unfold RNE. rewrite RNE_shift by exact He.
  unfold binary_round. zfold. cbn [Zdigits2].
  set (f := fexp prec emax (Zpos (digits2_pos p) + e)) in *.
  assert (Ef : f = Z.max (Zpos (digits2_pos p) + e - 53) (-1074)) by reflexivity.
  destruct (Z_lt_le_dec f e) as [Hlt|Hge].
  - destruct (shl_align_spec p e f ltac:(lia)) as [Hm Hz].
    destruct (shl_align p e f) as [mz ez]. cbn [fst snd] in Hm, Hz. subst ez.
    exists mz, f. split.
    + apply binary_round_aux_keep; [|lia].
      rewrite Zdigits2_log2, Hm, log2_scale by lia.
      rewrite fexp_eq. rewrite digits2_log2 in Ef. lia.
    + assert (ES : Zpos p * 2 ^ (e + 1074) = Zpos mz * 2 ^ (f + 1074)).
      { rewrite Hm. rewrite <- Z.mul_assoc, <- Z.pow_add_r by lia. f_equal. f_equal. lia. }
      rewrite (RNE_multiple (Zpos mz) (f + 1074) _ ltac:(lia) ES). symmetry. exact ES.
  - rewrite shl_align_ge by exact Hge.
    destruct (Z.eq_dec f e) as [Efe|Nfe].
    + exists p, e. split.
      * apply binary_round_aux_keep; [cbn [Zdigits2]; fold f; lia|lia].
      * rewrite Efe. symmetry. apply (RNE_multiple (Zpos p)); [lia|reflexivity].
    + destruct (binary_round_aux_round s p e He) as (m'' & e'' & E1 & E2);
        cbn [Zdigits2]; fold f; try lia.
      exists m'', e''. split; [exact E1|].
      cbn [Zdigits2] in E2. fold f in E2. rewrite E2.
      replace (e + (f - e) + 1074) with (f + 1074) by lia.
      f_equal.
      replace (f + 1074) with ((f - e) + (e + 1074)) at 1 by lia.
      symmetry. apply rnd_ne_scale; lia.
Qed.

(** ** Primitive floats *)

Lemma SFcompare_refl x :
  valid_binary x = true -> is_nanSF x = false -> SFcompare x x = Some Eq.
Proof.
  intros V N. rewrite SFcompare_rank by assumption. rewrite Z.compare_refl. reflexivity.
Qed.

Lemma is_nan_spec x : is_nan x = is_nanSF (Prim2SF x).
Proof.
  unfold is_nan. rewrite eqb_spec. unfold SFeqb.
  destruct (is_nanSF (Prim2SF x)) eqn:N.
  - destruct (Prim2SF x); try discriminate. reflexivity.
  - rewrite SFcompare_refl; [reflexivity|apply Prim2SF_valid|exact N].
Qed.

Lemma ltb_frank x y :
  is_nan x = false -> is_nan y = false ->
  (x <? y)%float = (frank x <? frank y).
Proof.
  intros Nx Ny. rewrite is_nan_spec in Nx, Ny.
  rewrite ltb_spec. unfold SFltb, frank.
  rewrite SFcompare_rank by (try apply Prim2SF_valid; assumption).
  unfold Z.ltb. destruct (rank (Prim2SF x) ?= rank (Prim2SF y)); reflexivity.
Qed.

Lemma leb_frank x y :
  is_nan x = false -> is_nan y = false ->
  (x <=? y)%float = (frank x <=? frank y).
Proof.
  intros Nx Ny. rewrite is_nan_spec in Nx, Ny.
  rewrite leb_spec. unfold SFleb, frank.
  rewrite SFcompare_rank by (try apply Prim2SF_valid; assumption).
  unfold Z.leb. destruct (rank (Prim2SF x) ?= rank (Prim2SF y)); reflexivity.
Qed.

Lemma eqb_frank x y :
  is_nan x = false -> is_nan y = false ->
  (x =? y)%float = (frank x =? frank y).
Proof.
  intros Nx Ny. rewrite is_nan_spec in Nx, Ny.
  rewrite eqb_spec. unfold SFeqb, frank.
  rewrite SFcompare_rank by (try apply Prim2SF_valid; assumption).
  rewrite Z.eqb_compare. reflexivity.
Qed.

Lemma ltb_nan_l x y : is_nan x = true -> (x <? y)%float = false.
Proof.
  rewrite is_nan_spec, ltb_spec. unfold SFltb.
  destruct (Prim2SF x); try discriminate. reflexivity.
Qed.

Lemma ltb_nan_r x y : is_nan y = true -> (x <? y)%float = false.
Proof.
  rewrite is_nan_spec, ltb_spec. unfold SFltb.
  destruct (Prim2SF y); try discriminate. destruct (Prim2SF x); reflexivity.
Qed.

Lemma leb_nan_l x y : is_nan x = true -> (x <=? y)%float = false.
Proof.
  rewrite is_nan_spec, leb_spec. unfold SFleb.
  destruct (Prim2SF x); try discriminate. reflexivity.
Qed.

Lemma leb_nan_r x y : is_nan y = true -> (x <=? y)%float = false.
Proof.
  rewrite is_nan_spec, leb_spec. unfold SFleb.
  destruct (Prim2SF y); try discriminate. destruct (Prim2SF x); reflexivity.
Qed.

Lemma ltb_true_not_nan x y :
  (x <? y)%float = true -> is_nan x = false /\ is_nan y = false.
Proof.
  intros H. split.
  - destruct (is_nan x) eqn:N; [|reflexivity]. rewrite ltb_nan_l in H by exact N. discriminate.
  - destruct (is_nan y) eqn:N; [|reflexivity]. rewrite ltb_nan_r in H by exact N. discriminate.
Qed.

Lemma leb_true_not_nan x y :
  (x <=? y)%float = true -> is_nan x = false /\ is_nan y = false.
Proof.
  intros H. split.
  - destruct (is_nan x) eqn:N; [|reflexivity]. rewrite leb_nan_l in H by exact N. discriminate.
  - destruct (is_nan y) eqn:N; [|reflexivity]. rewrite leb_nan_r in H by exact N. discriminate.
Qed.

(** The comparisons of primitive floats, in terms of ranks. *)
Lemma ltb_lt x y : (x <? y)%float = true <-> is_nan x = false /\ is_nan y = false /\ frank x < frank y.
Proof.
  split.
  - intros H. destruct (ltb_true_not_nan x y H) as [Nx Ny].
    rewrite ltb_frank in H by assumption. apply Z.ltb_lt in H. auto.
  - intros (Nx & Ny & H). rewrite ltb_frank by assumption. apply Z.ltb_lt. exact H.
Qed.

Lemma leb_le x y : (x <=? y)%float = true <-> is_nan x = false /\ is_nan y = false /\ frank x <= frank y.
Proof.
  split.
  - intros H. destruct (leb_true_not_nan x y H) as [Nx Ny].
    rewrite leb_frank in H by assumption. apply Z.leb_le in H. auto.
  - intros (Nx & Ny & H). rewrite leb_frank by assumption. apply Z.leb_le. exact H.
Qed.

Lemma is_infinity_spec x :
  is_infinity x = match Prim2SF x with S754_infinity _ => true | _ => false end.
Proof.
  unfold is_infinity. rewrite eqb_spec, abs_spec. unfold SFeqb.
  change (Prim2SF infinity) with (S754_infinity false).
  pose proof (Prim2SF_valid x) as V.
  destruct (Prim2SF x) as [s|s| |s m e]; reflexivity.
Qed.

Lemma is_finite_spec x : is_finite x = SFfin (Prim2SF x).
Proof.
  unfold is_finite. rewrite is_nan_spec, is_infinity_spec.
  destruct (Prim2SF x); reflexivity.
Qed.


(** ** Addition *)

Lemma RNE_valid s m e :
  valid_binary (S754_finite s m e) = true ->
  RNE (Zpos m * 2 ^ (e + 1074)) = Zpos m * 2 ^ (e + 1074).
Proof.
  intros V. pose proof (valid_finite s m e V) as (He & _ & _).
  unfold SpecFloat.valid_binary, bounded, canonical_mantissa in V.
  apply andb_prop in V. destruct V as [V _]. zfold. apply Z.eqb_eq in V.
  unfold RNE. rewrite RNE_shift by lia. cbn [Zdigits2]. rewrite V.
  apply (RNE_multiple (Zpos m)); [lia|reflexivity].
Qed.

Lemma Rnd_valid s m e :
  valid_binary (S754_finite s m e) = true ->
  Rnd (SFval (S754_finite s m e)) = SFval (S754_finite s m e).
Proof.
  intros V. pose proof (mag_bound m e V) as B. pose proof (RNE_valid s m e V) as R.
  cbn [SFval]. destruct s; cbn [cond_Zopp].
  - destruct (Zpos m * 2 ^ (e + 1074)) as [|q|q] eqn:E; try lia.
    cbn [Z.opp Rnd]. rewrite R. reflexivity.
  - destruct (Zpos m * 2 ^ (e + 1074)) as [|q|q] eqn:E; try lia.
    cbn [Rnd]. exact R.
Qed.

Lemma cond_Zopp_mul s a c : cond_Zopp s a * c = cond_Zopp s (a * c).
Proof. destruct s; cbn [cond_Zopp]; ring. Qed.

Lemma binary_normalize_val M e :
  -1074 <= e -> Z.abs (M * 2 ^ (e + 1074)) < 2 ^ 2074 ->
  SFfin (binary_normalize prec emax M e false) = true /\
  rank (binary_normalize prec emax M e false) = Rnd (M * 2 ^ (e + 1074)).
Proof.
  intros He Hov.
  assert (P : 0 < 2 ^ (e + 1074)) by (apply Z.pow_pos_nonneg; lia).
  destruct M as [|p|p]; cbn [binary_normalize].
  - split; reflexivity.
  - destruct (binary_round_val false p e He ltac:(lia)) as (m & e' & E1 & E2).
    rewrite E1. split; [reflexivity|]. cbn [rank SFval cond_Zopp]. rewrite E2.
    destruct (Zpos p * 2 ^ (e + 1074)) eqn:E; try lia. reflexivity.
  - destruct (binary_round_val true p e He) as (m & e' & E1 & E2).
    { replace (Zpos p * 2 ^ (e + 1074)) with (Z.abs (Zneg p * 2 ^ (e + 1074))); [exact Hov|].
      rewrite Z.abs_neq; lia. }
    rewrite E1. split; [reflexivity|]. cbn [rank SFval cond_Zopp]. rewrite E2.
    assert (EN : Zneg p * 2 ^ (e + 1074) = - (Zpos p * 2 ^ (e + 1074))) by lia.
    rewrite EN.
    destruct (Zpos p * 2 ^ (e + 1074)) eqn:E; try lia. reflexivity.
Qed.

Lemma align_val s m e ez :
  ez <= e -> -1074 <= ez ->
  cond_Zopp s (Zpos (fst (shl_align m e ez))) * 2 ^ (ez + 1074) =
  SFval (S754_finite s m e).
Proof.
  intros H1 H2. destruct (shl_align_spec m e ez H1) as [E _]. rewrite E.
  cbn [SFval]. rewrite cond_Zopp_mul. f_equal.
  rewrite <- Z.mul_assoc, <- Z.pow_add_r by lia. f_equal. f_equal. lia.
Qed.

(** The sum of two finite numbers is the rounding of the exact sum. *)
Theorem SFadd_val x y :
  valid_binary x = true -> valid_binary y = true ->
  SFfin x = true -> SFfin y = true ->
  Z.abs (SFval x + SFval y) < 2 ^ 2074 ->
  SFfin (SF64add x y) = true /\ rank (SF64add x y) = Rnd (SFval x + SFval y).
Proof.
  intros Vx Vy Fx Fy Hov. unfold SF64add.
  destruct x as [sx|sx| |sx mx ex]; try discriminate;
  destruct y as [sy|sy| |sy my ey]; try discriminate.
  - cbn [SFadd SFval]. destruct sx, sy; split; reflexivity.
  - cbn [SFadd]. split; [reflexivity|]. rewrite Z.add_0_l.
    rewrite Rnd_valid by exact Vy. reflexivity.
  - cbn [SFadd]. split; [reflexivity|]. change (SFval (S754_zero sy)) with 0.
    rewrite Z.add_0_r, Rnd_valid by exact Vx. reflexivity.
  - pose proof (valid_finite _ _ _ Vx) as (Hex & _ & _).
    pose proof (valid_finite _ _ _ Vy) as (Hey & _ & _).
    cbn [SFadd]. zfold.
    set (ez := Z.min ex ey).
    assert (Hz : - 1074 <= ez) by (unfold ez; lia).
    pose proof (align_val sx mx ex ez ltac:(unfold ez; lia) Hz) as Ax.
    pose proof (align_val sy my ey ez ltac:(unfold ez; lia) Hz) as Ay.
    set (M := cond_Zopp sx (Zpos (fst (shl_align mx ex ez))) +
              cond_Zopp sy (Zpos (fst (shl_align my ey ez)))) in *.
    assert (EM : M * 2 ^ (ez + 1074) =
                 SFval (S754_finite sx mx ex) + SFval (S754_finite sy my ey)).
    { unfold M. rewrite Z.mul_add_distr_r, Ax, Ay. reflexivity. }
    rewrite <- EM in *. apply binary_normalize_val; assumption.
Qed.

Lemma frank_fin x : SFfin (Prim2SF x) = true -> frank x = SFval (Prim2SF x).
Proof. unfold frank. destruct (Prim2SF x); try discriminate; reflexivity. Qed.

(** The same for primitive floats. *)
Theorem add_frank x y :
  is_finite x = true -> is_finite y = true ->
  Z.abs (frank x + frank y) < 2 ^ 2074 ->
  is_finite (x + y) = true /\ frank (x + y) = Rnd (frank x + frank y).
Proof.
  rewrite !is_finite_spec. intros Fx Fy Hov.
  rewrite (frank_fin x Fx), (frank_fin y Fy) in *.
  unfold frank at 1. rewrite add_spec.
  apply SFadd_val; try apply Prim2SF_valid; assumption.
Qed.

Lemma RNE_error S b :
  53 <= b -> 0 < S < 2 ^ b -> Z.abs (RNE S - S) <= 2 ^ (b - 53).
Proof.
  intros Hb HS. unfold RNE.
  assert (HL : Z.log2 S < b) by (apply Z.log2_lt_pow2; lia).
  set (k := Z.max (Z.log2 S - 52) 0).
  assert (Hk : 0 <= k <= b - 53) by (unfold k; lia).
  assert (Pk : 0 < 2 ^ k) by (apply Z.pow_pos_nonneg; lia).
  pose proof (rnd_ne_bounds S k ltac:(lia)) as B.
  pose proof (Z.div_mod S (2 ^ k) ltac:(lia)) as D.
  pose proof (Z.mod_pos_bound S (2 ^ k) Pk) as R.
  assert (Hp : 2 ^ k <= 2 ^ (b - 53)) by (apply Z.pow_le_mono_r; lia).
  nia.
Qed.

(** The rounding error is at most one unit in the last place. *)
Lemma Rnd_error S b :
  53 <= b -> Z.abs S < 2 ^ b -> Z.abs (Rnd S - S) <= 2 ^ (b - 53).
Proof.
  intros Hb HS.
  assert (P : 0 < 2 ^ (b - 53)) by (apply Z.pow_pos_nonneg; lia).
  destruct S as [|p|p]; cbn [Rnd].
  - cbn. lia.
  - apply RNE_error; lia.
  - pose proof (RNE_error (- Zneg p) b Hb ltac:(lia)). lia.
Qed.

Lemma finite_of_rank x :
  is_nan x = false -> Z.abs (frank x) < 2 ^ 2100 -> is_finite x = true.
Proof.
  rewrite is_nan_spec, is_finite_spec. unfold frank.
  destruct (Prim2SF x) as [s|s| |s m e]; try discriminate; try reflexivity.
  intros _ H. cbn [rank] in H. destruct s; cbn [cond_Zopp] in H; lia.
Qed.

Lemma scan_consts :
  frank (-10) = - frank 10 /\
  frank 10 + frank 0.05 < 2 ^ 1078 /\
  0 < frank 0.05 /\ 0 < frank 10 /\ 0 < scan_delta /\
  frank 10 < frank (-10) + 401 * scan_delta.
Proof. vm_compute. repeat split; reflexivity. Qed.

Lemma pow_chain : 2 ^ 1078 < 2 ^ 2074 /\ 2 ^ 2074 < 2 ^ 2100 /\ 0 < 2 ^ 1025.
Proof. vm_compute. repeat split; reflexivity. Qed.

(** Between -10 and 10, adding 0.05 raises the rank by [scan_delta] at least. *)
Lemma scan_step_lower x :
  (-10 <=? x)%float = true -> (x <=? 10)%float = true ->
  is_finite (x + 0.05)%float = true /\ frank x + scan_delta <= frank (x + 0.05)%float.
Proof.
  intros H1 H2. apply leb_le in H1, H2.
  destruct H1 as (_ & Nx & L1). destruct H2 as (_ & _ & L2).
  destruct scan_consts as (C1 & C2 & C3 & C4 & C5 & C6).
  destruct pow_chain as (P1 & P2 & P3).
  unfold scan_delta in *.
  set (F10 := frank 10) in *. set (Fc := frank 0.05) in *.
  set (A := 2 ^ 1078) in *. set (B := 2 ^ 2074) in *. set (C := 2 ^ 2100) in *.
  assert (Fx : is_finite x = true) by (apply finite_of_rank; [exact Nx|fold C; lia]).
  assert (Fcf : is_finite 0.05 = true) by reflexivity.
  destruct (add_frank x 0.05 Fx Fcf) as [F R]; [fold Fc B; lia|].
  split; [exact F|]. rewrite R. fold Fc.
  pose proof (Rnd_error (frank x + Fc) 1078 ltac:(lia) ltac:(fold A; lia)) as E.
  replace (1078 - 53) with 1025 in E by lia. lia.
Qed.

(** Rounding is monotone within a binade. *)
Lemma RNE_mono S1 S2 :
  0 < S1 <= S2 -> Z.log2 S1 = Z.log2 S2 -> RNE S1 <= RNE S2.
Proof.
  intros H L. unfold RNE. rewrite L.
  set (k := Z.max (Z.log2 S2 - 52) 0).
  apply Z.mul_le_mono_nonneg_r; [apply Z.pow_nonneg; lia|].
  apply rnd_ne_mono; [unfold k|]; lia.
Qed.

Lemma is_nan_abs v : is_nan (abs v) = is_nan v.
Proof. rewrite !is_nan_spec, abs_spec. destruct (Prim2SF v); reflexivity. Qed.

Lemma frank_abs v : frank (abs v) = Z.abs (frank v).
Proof.
  unfold frank. rewrite abs_spec.
  destruct (Prim2SF v) as [s|s| |s m e]; cbn [SFabs rank SFval]; try reflexivity.
  - assert (0 < 2 ^ 2100) by (apply Z.pow_pos_nonneg; lia).
    destruct s; cbn [cond_Zopp]; lia.
  - destruct (mag_pos m e) as [P|N].
    + destruct s; cbn [cond_Zopp]; lia.
    + rewrite (Z.pow_neg_r 2 (e + 1074)) by lia. destruct s; cbn [cond_Zopp]; lia.
Qed.

Lemma nudge_consts :
  0 < frank 0.001 /\ frank 0.001 < frank 0.01 /\
  frank 0.01 + frank 0.001 < 2 ^ 2074 /\
  Z.log2 (frank 0.01 - frank 0.001 + 1) = Z.log2 (frank 0.01 + frank 0.001 - 1).
Proof. vm_compute. repeat split; reflexivity. Qed.

(** The range of [v + 0.01] for [|v| < 0.001]. *)
Lemma nudge_range v :
  (abs v <? 0.001)%float = true ->
  is_finite (v + 0.01)%float = true /\
  nudge_lo <= frank (v + 0.01)%float <= nudge_hi.
Proof.
  intros H. apply ltb_lt in H. destruct H as (Nv & _ & Hv).
  rewrite is_nan_abs in Nv. rewrite frank_abs in Hv.
  destruct nudge_consts as (C1 & C2 & C3 & C4).
  destruct pow_chain as (P1 & P2 & P3).
  unfold nudge_lo, nudge_hi.
  set (T := frank 0.001) in *. set (C := frank 0.01) in *.
  set (B := 2 ^ 2074) in *. set (D := 2 ^ 2100) in *.
  assert (Fv : is_finite v = true) by (apply finite_of_rank; [exact Nv|fold D; lia]).
  assert (Fc : is_finite 0.01 = true) by reflexivity.
  destruct (add_frank v 0.01 Fv Fc) as [F R]; [fold C B; lia|].
  split; [exact F|]. rewrite R. fold C.
  assert (HS : C - T + 1 <= frank v + C <= C + T - 1) by lia.
  set (S := frank v + C) in *.
  assert (L1 : Z.log2 (C - T + 1) = Z.log2 S).
  { apply Z.le_antisymm; [apply Z.log2_le_mono; lia|].
    rewrite C4. apply Z.log2_le_mono; lia. }
  assert (L2 : Z.log2 S = Z.log2 (C + T - 1)) by congruence.
  destruct S as [|p|p] eqn:ES; try lia. cbn [Rnd].
  split; apply RNE_mono; try lia; assumption.
Qed.

Lemma nudge_lo_hi :
  frank 0.001 <= nudge_lo /\
  9 * 2 ^ 1074 < 1000 * nudge_lo /\ 1000 * nudge_hi < 11 * 2 ^ 1074.
Proof. vm_compute. repeat split; intro; discriminate. Qed.

(** ** Signs and NaN *)

Lemma leb_zero_spec x : (0 <=? x)%float = SFnonneg (Prim2SF x).
Proof.
  rewrite leb_spec. change (Prim2SF 0) with (S754_zero false).
  destruct (Prim2SF x) as [s|[|]| |[|] m e]; reflexivity.
Qed.

Lemma ltb_zero_nonneg x : (0 <? x)%float = true -> (0 <=? x)%float = true.
Proof.
  rewrite ltb_spec, leb_spec. unfold SFltb, SFleb.
  destruct (SFcompare (Prim2SF 0) (Prim2SF x)) as [[| |]|]; try discriminate. reflexivity.
Qed.

Lemma SFsigned_nonneg r : SFsigned false r -> SFnonneg r = true.
Proof. intros [->|[->|(m & e & ->)]]; reflexivity. Qed.

Lemma SFsigned_not_nan s r : SFsigned s r -> is_nanSF r = false.
Proof. intros [->|[->|(m & e & ->)]]; reflexivity. Qed.

Lemma binary_normalize_not_nan m e :
  is_nanSF (binary_normalize prec emax m e false) = false.
Proof.
  destruct (Z.eq_dec m 0) as [->|N]; [reflexivity|].
  exact (SFsigned_not_nan _ _ (binary_normalize_signed m e N)).
Qed.

Lemma SFadd_nonneg x y :
  SFnonneg x = true -> SFnonneg y = true -> SFnonneg (SF64add x y) = true.
Proof.
  unfold SF64add.
  destruct x as [sx|[|]| |[|] mx ex]; try discriminate;
  destruct y as [sy|[|]| |[|] my ey]; try discriminate; intros _ _;
    try reflexivity; try (destruct sx; try destruct sy; reflexivity).
  cbn [SFadd cond_Zopp]. zfold.
  apply SFsigned_nonneg.
  set (M := Zpos _ + Zpos _).
  replace false with (M <? 0) at 1 by (apply Z.ltb_ge; unfold M; lia).
  apply binary_normalize_signed. unfold M. lia.
Qed.

Lemma add_nonneg a b :
  (0 <=? a)%float = true -> (0 <=? b)%float = true -> (0 <=? a + b)%float = true.
Proof. rewrite !leb_zero_spec, add_spec. apply SFadd_nonneg. Qed.

Lemma SFmul_nonneg x mc ec :
  SFnonneg x = true -> SFnonneg (SF64mul x (S754_finite false mc ec)) = true.
Proof.
  unfold SF64mul.
  destruct x as [sx|[|]| |[|] mx ex]; try discriminate; intros _; try reflexivity.
  cbn [SFmul xorb]. apply SFsigned_nonneg. apply binary_round_aux_signed. zfold. lia.
Qed.

Lemma pos_finite_spec c :
  (0 <? c)%float = true -> is_finite c = true ->
  exists m e, Prim2SF c = S754_finite false m e.
Proof.
  rewrite ltb_spec, is_finite_spec. change (Prim2SF 0) with (S754_zero false).
  destruct (Prim2SF c) as [s|s| |[|] m e]; try discriminate; eauto.
Qed.

Lemma mul_nonneg a c :
  (0 <=? a)%float = true -> (0 <? c)%float = true -> is_finite c = true ->
  (0 <=? a * c)%float = true.
Proof.
  intros Ha Hc Fc. destruct (pos_finite_spec c Hc Fc) as (m & e & E).
  rewrite leb_zero_spec in *. rewrite mul_spec, E. apply SFmul_nonneg, Ha.
Qed.

(** A difference [x - y] with [y < x] is not below zero. *)
Lemma SFsub_pos x y :
  valid_binary x = true -> valid_binary y = true ->
  SFltb y x = true -> SFnonneg (SF64sub x y) = true.
Proof.
  intros Vx Vy. unfold SFltb, SF64sub.
  destruct x as [sx|[|]| |sx mx ex]; destruct y as [sy|[|]| |sy my ey];
    try discriminate; try reflexivity;
    try (destruct sx; discriminate); try (destruct sy; discriminate);
    try (destruct sx; try discriminate; reflexivity);
    try (destruct sy; try discriminate; reflexivity).
  rewrite SFcompare_rank by (try assumption; reflexivity).
  cbn [rank]. intros H.
  assert (L : SFval (S754_finite sy my ey) < SFval (S754_finite sx mx ex)).
  { destruct (SFval (S754_finite sy my ey) ?= SFval (S754_finite sx mx ex)) eqn:E;
      try discriminate H. exact E. }
  pose proof (valid_finite _ _ _ Vx) as (Hex & _ & _).
  pose proof (valid_finite _ _ _ Vy) as (Hey & _ & _).
  cbn [SFsub]. zfold.
  set (ez := Z.min ex ey).
  assert (Hz : - 1074 <= ez) by (unfold ez; lia).
  pose proof (align_val sx mx ex ez ltac:(unfold ez; lia) Hz) as Ax.
  pose proof (align_val sy my ey ez ltac:(unfold ez; lia) Hz) as Ay.
  set (X := cond_Zopp sx (Zpos (fst (shl_align mx ex ez)))) in *.
  set (Y := cond_Zopp sy (Zpos (fst (shl_align my ey ez)))) in *.
  assert (P : 0 < 2 ^ (ez + 1074)) by (apply Z.pow_pos_nonneg; lia).
  assert (HM : 0 < X - Y) by nia.
  apply SFsigned_nonneg.
  replace false with (X - Y <? 0) at 1 by (apply Z.ltb_ge; lia).
  apply binary_normalize_signed. lia.
Qed.

Lemma sub_pos a b : (b <? a)%float = true -> (0 <=? a - b)%float = true.
Proof.
  rewrite ltb_spec, leb_zero_spec, sub_spec.
  apply SFsub_pos; apply Prim2SF_valid.
Qed.

Lemma SFsub_fin_not_nan x y :
  SFfin x = true -> SFfin y = true -> is_nanSF (SF64sub x y) = false.
Proof.
  unfold SF64sub.
  destruct x as [sx|sx| |sx mx ex]; try discriminate;
  destruct y as [sy|sy| |sy my ey]; try discriminate; intros _ _; cbn [SFsub].
  - destruct sx, sy; reflexivity.
  - reflexivity.
  - reflexivity.
  - apply binary_normalize_not_nan.
Qed.

Lemma sub_finite_not_nan a b :
  is_finite a = true -> is_finite b = true -> is_nan (a - b) = false.
Proof.
  rewrite !is_finite_spec, is_nan_spec, sub_spec. apply SFsub_fin_not_nan.
Qed.

Lemma SFdiv_core_nonneg m1 e1 m2 e2 :
  0 <= fst (fst (SFdiv_core_binary prec emax (Zpos m1) e1 (Zpos m2) e2)).
Proof.
  unfold SFdiv_core_binary. zfold.
  set (s := e1 - e2 - _).
  set (m' := match s with Z0 => Zpos m1 | Zpos _ => Z.shiftl (Zpos m1) s | Zneg _ => 0 end).
  assert (Hm : 0 <= m').
  { unfold m'. destruct s; try lia. apply Z.shiftl_nonneg. lia. }
  pose proof (Z.div_pos m' (Zpos m2) Hm ltac:(lia)) as Hq.
  unfold Z.div in Hq.
  destruct (Z.div_eucl m' (Zpos m2)) as [q r]. exact Hq.
Qed.

(** A quotient by a finite number that is not zero is NaN only if the
    dividend is. *)
Lemma SFdiv_not_nan x s m e :
  is_nanSF x = false -> is_nanSF (SF64div x (S754_finite s m e)) = false.
Proof.
  unfold SF64div.
  destruct x as [sx|sx| |sx mx ex]; try discriminate; intros _; try reflexivity.
  cbn [SFdiv].
  pose proof (SFdiv_core_nonneg mx ex m e) as H.
  destruct (SFdiv_core_binary prec emax (Zpos mx) ex (Zpos m) e) as [[mz ez] lz].
  cbn [fst] in H.
  exact (SFsigned_not_nan _ _ (binary_round_aux_signed _ mz ez lz H)).
Qed.

Lemma div_not_nan a c :
  is_nan a = false -> is_finite c = true -> is_zero c = false ->
  is_nan (a / c) = false.
Proof.
  rewrite !is_nan_spec, is_finite_spec, div_spec.
  unfold is_zero. rewrite eqb_spec. change (Prim2SF zero) with (S754_zero false).
  intros Na Fc Zc.
  destruct (Prim2SF c) as [sc|sc| |sc mc ec].
  - destruct sc; discriminate Zc.
  - discriminate Fc.
  - discriminate Fc.
  - apply SFdiv_not_nan, Na.
Qed.

Local Close Scope Z_scope.

(** ** NaN and signs of sums, squares and square roots *)

Lemma nan_sub a b : is_nan a = true \/ is_nan b = true -> is_nan (a - b) = true.
Proof.
  rewrite !is_nan_spec, sub_spec. unfold SF64sub.
  intros [H|H].
  - destruct (Prim2SF a); try discriminate H. reflexivity.
  - destruct (Prim2SF b); try discriminate H. destruct (Prim2SF a); reflexivity.
Qed.

Lemma nan_add a b : is_nan a = true \/ is_nan b = true -> is_nan (a + b) = true.
Proof.
  rewrite !is_nan_spec, add_spec. unfold SF64add.
  intros [H|H].
  - destruct (Prim2SF a); try discriminate H. reflexivity.
  - destruct (Prim2SF b); try discriminate H. destruct (Prim2SF a); reflexivity.
Qed.

Lemma nan_mul a b : is_nan a = true \/ is_nan b = true -> is_nan (a * b) = true.
Proof.
  rewrite !is_nan_spec, mul_spec. unfold SF64mul.
  intros [H|H].
  - destruct (Prim2SF a); try discriminate H. reflexivity.
  - destruct (Prim2SF b); try discriminate H. destruct (Prim2SF a); reflexivity.
Qed.

Lemma nan_sqrt a : is_nan a = true -> is_nan (sqrt a) = true.
Proof.
  rewrite !is_nan_spec, sqrt_spec. unfold SF64sqrt.
  intros H. destruct (Prim2SF a); try discriminate H. reflexivity.
Qed.

Lemma SFsqrt_core_nonneg m e :
  (0 <= fst (fst (SFsqrt_core_binary prec emax (Zpos m) e)))%Z.
Proof.
  unfold SFsqrt_core_binary. zfold.
  set (e' := Z.min _ _). set (s := (e - 2 * e')%Z).
  set (m' := match s with Z0 => Zpos m | Zpos _ => Z.shiftl (Zpos m) s | Zneg _ => 0%Z end).
  assert (Hm : (0 <= m')%Z).
  { unfold m'. destruct s; try lia. apply Z.shiftl_nonneg. lia. }
  pose proof (Z.sqrtrem_spec m' Hm) as H.
  change IntDef.Z.sqrtrem with Z.sqrtrem.
  destruct (Z.sqrtrem m') as [q r]. cbn [fst]. lia.
Qed.

Lemma SFmul_self_signed x : is_nanSF x = false -> SFsigned false (SF64mul x x).
Proof.
  unfold SF64mul. destruct x as [s|s| |s m e]; try discriminate; intros _; cbn [SFmul].
  - left. destruct s; reflexivity.
  - right. left. destruct s; reflexivity.
  - replace (xorb s s) with false by (destruct s; reflexivity).
    apply binary_round_aux_signed. lia.
Qed.

Lemma SFsqrt_signed x : SFsigned false x -> SFsigned false (SF64sqrt x).
Proof.
  unfold SF64sqrt. intros [->|[->|(m & e & ->)]]; cbn [SFsqrt].
  - left. reflexivity.
  - right. left. reflexivity.
  - pose proof (SFsqrt_core_nonneg m e) as H.
    destruct (SFsqrt_core_binary prec emax (Zpos m) e) as [[mz ez] lz].
    cbn [fst] in H. apply binary_round_aux_signed, H.
Qed.




(** * Properties of the physics core *)

(** ** The embedding on concrete inputs *)

Example derivative_parabola : calculateDerivative parabola 0 default_h = 0.
Proof. reflexivity. Qed.

Example velocity_parabola :
  calculatePathVelocity newPhysicsEngine parabola 0 None = {| v_x := 0.12; v_y := 0 |}.
Proof. reflexivity. Qed.

Example closest_on_flatLine :
  findClosestPointOnPath (newMarble 0.5 0.3) flatLine default_searchRadius =
  Some {| cp_x := 0.50000000000000078; cp_y := 0; cp_distance := 0.3 |}.
Proof. vm_compute. reflexivity. Qed.

Example scan_of_flatLine :
  length (scanSamples (newMarble 0 0) flatLine 100) = 400%nat.
Proof. vm_compute. reflexivity. Qed.

Example score_on_flatLine :
  calculatePathScore newPhysicsEngine (newMarble 0 0) onFlatLine [farStar] = 12.
Proof. vm_compute. reflexivity. Qed.

Example tick_on_flatLine :
  let m := update (newMarble 0 0.2) newPhysicsEngine [flatLine] in
  onPath m = true /\ timeOffPath m = 0%nat /\ length (trail m) = 1%nat /\
  velocity m = {| v_x := 0.083299999999999985; v_y := -0.0441 |}.
Proof. vm_compute. repeat split. Qed.

Example tick_next_to_step :
  velocity (update restingMarble newPhysicsEngine [steepStep]) = {| v_x := 0; v_y := nan |}.
Proof. vm_compute. reflexivity. Qed.

Example value_of_half : (float_value 0.5 == 1 # 2)%Q.
Proof. vm_compute. reflexivity. Qed.

(** ** Comparisons *)

Lemma float_neq a b : PrimFloat.Leibniz.eqb a b = false -> a <> b.
Proof.
  intros H E. apply FloatAxioms.Leibniz.eqb_spec in E. congruence.
Qed.

Lemma finite_not_nan x : is_finite x = true -> is_nan x = false.
Proof.
  unfold is_finite. intros H. apply negb_true_iff, orb_false_iff in H. apply H.
Qed.

Lemma ltb_antisym a b :
  is_nan a = false -> is_nan b = false -> (a <? b) = negb (b <=? a).
Proof.
  intros Na Nb. rewrite ltb_frank, leb_frank by assumption. apply Z.ltb_antisym.
Qed.

Lemma leb_refl a : is_nan a = false -> (a <=? a) = true.
Proof. intros Na. rewrite leb_frank by assumption. apply Z.leb_refl. Qed.

(** ** The trail *)

Lemma position_pushTrail this : position (pushTrail this) = position this.
Proof. unfold pushTrail. destruct (_ <? _)%nat; reflexivity. Qed.

Lemma velocity_pushTrail this : velocity (pushTrail this) = velocity this.
Proof. unfold pushTrail. destruct (_ <? _)%nat; reflexivity. Qed.

Lemma onPath_pushTrail this : onPath (pushTrail this) = onPath this.
Proof. unfold pushTrail. destruct (_ <? _)%nat; reflexivity. Qed.

Lemma stars_pushTrail this : stars (pushTrail this) = stars this.
Proof. unfold pushTrail. destruct (_ <? _)%nat; reflexivity. Qed.

Lemma pathThreshold_pushTrail this : pathThreshold (pushTrail this) = pathThreshold this.
Proof. unfold pushTrail. destruct (_ <? _)%nat; reflexivity. Qed.

Lemma maxTrailLength_pushTrail this : maxTrailLength (pushTrail this) = maxTrailLength this.
Proof. unfold pushTrail. destruct (_ <? _)%nat; reflexivity. Qed.

Lemma trail_pushTrail this :
  trail (pushTrail this) =
  let trail' := trail this ++ [ {| v_x := v_x (position this); v_y := v_y (position this) |} ] in
  if (maxTrailLength this <? length trail')%nat then tl trail' else trail'.
Proof. unfold pushTrail. cbv zeta. destruct (_ <? _)%nat; reflexivity. Qed.

Lemma trail_antiStall this : trail (antiStall this) = trail this.
Proof. unfold antiStall. destruct (stalled _); reflexivity. Qed.

Lemma maxTrailLength_antiStall this : maxTrailLength (antiStall this) = maxTrailLength this.
Proof. unfold antiStall. destruct (stalled _); reflexivity. Qed.

Lemma trail_advance this physics equations :
  trail (advance this physics equations) = trail (pushTrail this).
Proof. unfold advance. destruct (selectPath _ _ _); reflexivity. Qed.

Lemma maxTrailLength_advance this physics equations :
  maxTrailLength (advance this physics equations) = maxTrailLength this.
Proof.
  unfold advance. rewrite <- (maxTrailLength_pushTrail this).
  destruct (selectPath _ _ _); reflexivity.
Qed.

(** C9. The trail keeps at most [maxTrailLength] entries: [update] appends
    the current position to the trail and drops the oldest entry when the
    trail is longer than [maxTrailLength] (25 for a new marble), so a
    trail within the bound before [update] is within it afterwards. *)
Theorem update_trail_bounded (this : Marble) (physics : PhysicsEngine)
    (equations : list Equation) :
  (length (trail this) <= maxTrailLength this)%nat ->
  let this' := update this physics equations in
  let pushed := trail this ++ [ {| v_x := v_x (position this); v_y := v_y (position this) |} ] in
  trail this' = (if (maxTrailLength this <? length pushed)%nat then tl pushed else pushed) /\
  maxTrailLength this' = maxTrailLength this /\
  (length (trail this') <= maxTrailLength this')%nat /\
  maxTrailLength (newMarble 0 0) = 25%nat.
Proof.
  intros H this' pushed.
  assert (E : trail this' = if (maxTrailLength this <? length pushed)%nat then tl pushed else pushed).
  { unfold this', update. rewrite trail_antiStall, trail_advance, trail_pushTrail. reflexivity. }
  assert (M : maxTrailLength this' = maxTrailLength this).
  { unfold this', update. rewrite maxTrailLength_antiStall. apply maxTrailLength_advance. }
  repeat split; try assumption.
  rewrite E, M.
  assert (L : length pushed = S (length (trail this))).
  { unfold pushed. rewrite length_app. cbn. lia. }
  destruct (Nat.ltb_spec (maxTrailLength this) (length pushed)) as [Hlt|Hge].
  - destruct pushed as [|p rest]; cbn in *; lia.
  - exact Hge.
Qed.

Lemma update_trail_bounded_witness :
  (length (trail (newMarble 0 0)) <= maxTrailLength (newMarble 0 0))%nat /\
  (length (trail (update (newMarble 0 0) newPhysicsEngine [flatLine])) <= 25)%nat.
Proof.
  split; [cbn; lia|].
  apply (update_trail_bounded (newMarble 0 0) newPhysicsEngine [flatLine]).
  cbn. lia.
Defined.

(** ** Path selection sees the position only *)

Lemma findClosestPointOnPath_pushTrail this equation searchRadius :
  findClosestPointOnPath (pushTrail this) equation searchRadius =
  findClosestPointOnPath this equation searchRadius.
Proof.
  unfold findClosestPointOnPath, findClosestPointExplicitY, findClosestPointExplicitX,
    findClosestPointImplicit.
  rewrite position_pushTrail. reflexivity.
Qed.

Lemma candidatePathsOf_pushTrail this physics equations :
  candidatePathsOf (pushTrail this) physics equations =
  candidatePathsOf this physics equations.
Proof.
  unfold candidatePathsOf. rewrite pathThreshold_pushTrail.
  induction equations as [|equation rest IH]; [reflexivity|].
  cbn [flat_map]. rewrite IH, findClosestPointOnPath_pushTrail. reflexivity.
Qed.

Lemma calculatePathScore_pushTrail physics this pathData l :
  calculatePathScore physics (pushTrail this) pathData l =
  calculatePathScore physics this pathData l.
Proof.
  unfold calculatePathScore, scoreStar. rewrite position_pushTrail. reflexivity.
Qed.

Lemma findBestPathTowardStars_pushTrail physics this candidatePaths l :
  findBestPathTowardStars physics (pushTrail this) candidatePaths l =
  findBestPathTowardStars physics this candidatePaths l.
Proof.
  unfold findBestPathTowardStars.
  destruct candidatePaths as [|c [|c' rest]]; try reflexivity.
  f_equal. generalize (@None PathData, neg_infinity).
  generalize (c :: c' :: rest) as cs.
  induction cs as [|a cs IH]; intros best; [reflexivity|].
  cbn [fold_left]. unfold bestStep at 2 4.
  rewrite calculatePathScore_pushTrail. apply IH.
Qed.

Lemma selectPath_pushTrail this physics equations :
  selectPath (pushTrail this) physics equations = selectPath this physics equations.
Proof.
  unfold selectPath.
  rewrite candidatePathsOf_pushTrail, stars_pushTrail.
  destruct (candidatePathsOf this physics equations); [reflexivity|].
  apply findBestPathTowardStars_pushTrail.
Qed.

(** ** Velocity *)

Lemma velocity_antiStall this :
  velocity (antiStall this) =
  if stalled (velocity this) then nudge (velocity this) else velocity this.
Proof. unfold antiStall. destruct (stalled _); reflexivity. Qed.

Lemma velocity_advance this physics equations :
  velocity (advance this physics equations) =
  match selectPath this physics equations with
  | Some pathData =>
      let snappedX :=
        v_x (position this) +
        (cp_x (pd_closestPoint pathData) - v_x (position this)) * pathSnapStrength physics in
      let pathVel := calculatePathVelocity physics (pd_equation pathData) snappedX None in
      let blendFactor := if onPath this then 0.8 else 0.5 in
      {| v_x := (v_x (velocity this) * (1 - blendFactor) + v_x pathVel * blendFactor)
                * friction physics;
         v_y := (v_y (velocity this) * (1 - blendFactor) + v_y pathVel * blendFactor
                 + gravity physics * 0.3) * friction physics |}
  | None =>
      {| v_x := v_x (velocity this) * 0.995 * friction physics;
         v_y := (v_y (velocity this) + gravity physics) * 0.995 * friction physics |}
  end.
Proof.
  unfold advance. rewrite selectPath_pushTrail.
  destruct (selectPath this physics equations) as [pathData|].
  - cbn. rewrite position_pushTrail, velocity_pushTrail, onPath_pushTrail. reflexivity.
  - cbn. rewrite velocity_pushTrail. reflexivity.
Qed.

(** C6. On a tick in which a path is selected the velocity becomes
    [old * (1 - b) + pathVelocity * b], with [b = 0.8] if the marble was on
    a path and [b = 0.5] otherwise, then [gravity * 0.3] is added to its y
    component; whether or not a path is selected, both components are then
    multiplied by the friction factor, which is 0.98. The anti-stall guard
    acts on the result. *)
Theorem update_velocity_blend (this : Marble) (physics : PhysicsEngine)
    (equations : list Equation) :
  let before := velocity (advance this physics equations) in
  match selectPath this physics equations with
  | Some pathData =>
      let snappedX :=
        v_x (position this) +
        (cp_x (pd_closestPoint pathData) - v_x (position this)) * pathSnapStrength physics in
      let pathVel := calculatePathVelocity physics (pd_equation pathData) snappedX None in
      let b := if onPath this then 0.8 else 0.5 in
      before =
      {| v_x := (v_x (velocity this) * (1 - b) + v_x pathVel * b) * friction physics;
         v_y := (v_y (velocity this) * (1 - b) + v_y pathVel * b + gravity physics * 0.3)
                * friction physics |}
  | None =>
      before =
      {| v_x := v_x (velocity this) * 0.995 * friction physics;
         v_y := (v_y (velocity this) + gravity physics) * 0.995 * friction physics |}
  end /\
  velocity (update this physics equations) =
    (if stalled before then nudge before else before) /\
  friction newPhysicsEngine = 0.98.
Proof.
  intros before. split; [|split; [|reflexivity]].
  - unfold before. rewrite velocity_advance.
    destruct (selectPath this physics equations); reflexivity.
  - unfold update. apply velocity_antiStall.
Qed.

(** C2, as the specification states it, fails: with the engine's gravity
    the slow marble is not stalled after the tick, so [velocity.x] is
    neither at least 0.01 in magnitude nor raised by 0.01. *)
Lemma antiStall_claim_fails :
  ~ antiStall_claim slowMarble newPhysicsEngine [flatLine].
Proof.
  unfold antiStall_claim. vm_compute. intros [H|H]; [discriminate|].
  revert H. apply float_neq. reflexivity.
Qed.

(** C2, amended. For a marble whose velocity is (0.0005, -0.0003), with no
    path within its threshold and the engine's default constants, one tick
    gives the velocity [(0.0005 * 0.995 * 0.98, (-0.0003 - 0.15) * 0.995 * 0.98)]:
    gravity leaves [|velocity.y|] above 0.001, so the anti-stall guard does
    not fire and [velocity.x], below 0.01, is not raised. *)
Theorem update_slow_not_nudged (this : Marble) (equations : list Equation) :
  velocity this = {| v_x := 0.0005; v_y := -0.0003 |} ->
  candidatePathsOf this newPhysicsEngine equations = [] ->
  let before := velocity (advance this newPhysicsEngine equations) in
  let after := velocity (update this newPhysicsEngine equations) in
  after = {| v_x := 0.0005 * 0.995 * 0.98; v_y := (-0.0003 + -0.15) * 0.995 * 0.98 |} /\
  after = before /\
  stalled before = false /\
  (JS.Math_abs (v_x after) <? 0.01) = true /\
  (0.001 <=? JS.Math_abs (v_y after)) = true.
Proof.
  intros Hv Hc before after.
  assert (Hs : selectPath this newPhysicsEngine equations = None).
  { unfold selectPath. rewrite Hc. reflexivity. }
  assert (Hb : before =
               {| v_x := 0.0005 * 0.995 * 0.98; v_y := (-0.0003 + -0.15) * 0.995 * 0.98 |}).
  { unfold before. rewrite velocity_advance, Hs, Hv. reflexivity. }
  assert (Ha : after = before).
  { unfold after, update. rewrite velocity_antiStall. fold before. rewrite Hb. reflexivity. }
  rewrite Ha, Hb. repeat split.
Qed.

Lemma update_slow_not_nudged_witness :
  candidatePathsOf slowMarble newPhysicsEngine [flatLine] = [] /\
  velocity (update slowMarble newPhysicsEngine [flatLine]) =
    {| v_x := 0.0005 * 0.995 * 0.98; v_y := (-0.0003 + -0.15) * 0.995 * 0.98 |}.
Proof.
  split; [vm_compute; reflexivity|].
  apply (update_slow_not_nudged slowMarble [flatLine]); vm_compute; reflexivity.
Defined.

(** ** Bounds *)

(** C8, as the specification states it, fails: after one tick next to the
    steep step the marble's [y] is NaN; it passes the bounds check, and is
    not inside the rectangle. *)
Lemma checkBounds_claim_fails :
  ~ checkBounds_claim (update restingMarble newPhysicsEngine [steepStep]) world.
Proof.
  unfold checkBounds_claim. vm_compute. intros [H _]. specialize (H eq_refl). discriminate.
Qed.

Example position_next_to_step :
  position (update restingMarble newPhysicsEngine [steepStep]) =
    {| v_x := 0.99800000000000022; v_y := nan |} /\
  checkBounds (update restingMarble newPhysicsEngine [steepStep]) world = true.
Proof. vm_compute. split; reflexivity. Qed.

(** C8, amended. When no coordinate of the marble and no edge of the
    bounds is NaN, the bounds check is true exactly when the position lies
    in [[minX, maxX] x [minY, maxY]], edges included: a marble at
    [x = minX], the other inequalities holding, is in bounds, and a marble
    with [x < minX] is out of bounds (whatever the other values are). *)
Theorem checkBounds_inside (marble : Marble) (bounds : Bounds) :
  nanFree (position marble) bounds = true ->
  (checkBounds marble bounds = true <-> insideBounds (position marble) bounds = true) /\
  (v_x (position marble) = minX bounds ->
   (v_x (position marble) <=? maxX bounds) = true ->
   (minY bounds <=? v_y (position marble)) = true ->
   (v_y (position marble) <=? maxY bounds) = true ->
   checkBounds marble bounds = true) /\
  ((v_x (position marble) <? minX bounds) = true -> checkBounds marble bounds = false).
Proof.
  unfold nanFree, JS.isNaN. intros H. apply negb_true_iff in H.
  repeat (apply orb_false_iff in H; destruct H as [H ?]).
  assert (E : checkBounds marble bounds = insideBounds (position marble) bounds).
  { unfold checkBounds, insideBounds.
    rewrite !ltb_antisym by assumption.
    destruct (minX bounds <=? v_x (position marble)),
             (v_x (position marble) <=? maxX bounds),
             (minY bounds <=? v_y (position marble)),
             (v_y (position marble) <=? maxY bounds); reflexivity. }
  split; [rewrite E; reflexivity|]. split.
  - intros Hx I1 I2 I3. rewrite E. unfold insideBounds.
    rewrite I1, I2, I3, <- Hx, leb_refl by assumption. reflexivity.
  - intros Hlt. unfold checkBounds. rewrite Hlt. reflexivity.
Qed.

Lemma checkBounds_inside_witness :
  nanFree (position (newMarble (-10) 0)) world = true /\
  checkBounds (newMarble (-10) 0) world = true.
Proof.
  split; [reflexivity|].
  apply (checkBounds_inside (newMarble (-10) 0) world); reflexivity.
Defined.

(** ** Derivative *)

Lemma half_default_h : default_h / 2 = 0.005.
Proof. reflexivity. Qed.

Lemma unusable_spec a b :
  unusable a b = negb (JS.isFinite a) || negb (JS.isFinite b).
Proof.
  unfold unusable, JS.isFinite, JS.isNaN, is_finite.
  destruct (is_nan a), (is_nan b), (is_infinity a), (is_infinity b); reflexivity.
Qed.

(** C3, as the specification states it, fails: the derivative of a
    constant is 0 although both samples are finite. *)
Lemma derivative_claim_fails : ~ derivative_claim constantOne 0.
Proof.
  unfold derivative_claim. vm_compute. intros [[H _] _]. specialize (H eq_refl). discriminate.
Qed.

(** C3, amended. [calculateDerivative(eq, x)] returns 0 whenever one of the
    samples [eq.evaluate(x - 0.005)], [eq.evaluate(x + 0.005)] raises or is
    not finite, and otherwise returns their central difference
    [(eq.evaluate(x + 0.005) - eq.evaluate(x - 0.005)) / 0.01], which may
    itself be 0; it never returns NaN. *)
Theorem calculateDerivative_spec (equation : Equation) (x : float) :
  let d := calculateDerivative equation x default_h in
  (sampleFailure equation x = true -> d = 0) /\
  (sampleFailure equation x = false -> Some d = centralDifference equation x) /\
  JS.isNaN d = false.
Proof.
  unfold calculateDerivative, sampleFailure, centralDifference.
  rewrite half_default_h. cbv zeta.
  destruct (evaluate equation (x - 0.005)) as [y1|];
    [|repeat split; try reflexivity; discriminate].
  destruct (evaluate equation (x + 0.005)) as [y2|];
    [|repeat split; try reflexivity; discriminate].
  rewrite unusable_spec.
  destruct (negb (JS.isFinite y1) || negb (JS.isFinite y2)) eqn:U.
  - repeat split; try reflexivity; discriminate.
  - apply orb_false_iff in U. destruct U as [U1 U2].
    apply negb_false_iff in U1, U2. unfold JS.isFinite in U1, U2.
    repeat split; try reflexivity; try discriminate.
    unfold JS.isNaN, default_h. apply div_not_nan; try reflexivity.
    apply sub_finite_not_nan; assumption.
Qed.

(** ** Running minimum and maximum *)

Lemma ltb_trans a b c : (a <? b) = true -> (b <? c) = true -> (a <? c) = true.
Proof.
  rewrite !ltb_lt. intros (Na & Nb & H1) (_ & Nc & H2). repeat split; try assumption.
  lia.
Qed.

Lemma leb_ltb_trans a b c : (a <=? b) = true -> (b <? c) = true -> (a <? c) = true.
Proof.
  rewrite leb_le, !ltb_lt. intros (Na & Nb & H1) (_ & Nc & H2).
  repeat split; try assumption. lia.
Qed.

Lemma ltb_not_leb a b : (a <? b) = true -> (b <=? a) = false.
Proof.
  intros H. destruct (b <=? a) eqn:E; [|reflexivity].
  apply ltb_lt in H. apply leb_le in E. lia.
Qed.

Lemma not_ltb_leb a b :
  is_nan a = false -> is_nan b = false -> (a <? b) = false -> (b <=? a) = true.
Proof.
  intros Na Nb H. rewrite ltb_antisym in H by assumption.
  apply negb_false_iff in H. exact H.
Qed.

Lemma ltb_not_leb_false a b : (a <=? b) = true -> (b <? a) = false.
Proof.
  intros H. destruct (b <? a) eqn:E; [|reflexivity].
  apply ltb_lt in E. apply leb_le in H. lia.
Qed.

Lemma ltb_leb a b : (a <? b) = true -> (a <=? b) = true.
Proof.
  rewrite ltb_lt, leb_le. intros (Na & Nb & H). repeat split; try assumption. lia.
Qed.

(** The running minimum either keeps its start, and then no key is below
    it, or ends on the first element of least key. *)
Lemma leastFrom_spec {A : Type} (key : A -> float) (l : list A) :
  forall best least,
  (leastFrom key l best least = (best, least) /\
   forall a, In a l -> (key a <? least) = false) \/
  (exists l1 a l2,
     l = l1 ++ a :: l2 /\
     leastFrom key l best least = (Some a, key a) /\
     (key a <? least) = true /\
     (forall a', In a' l1 -> (key a' <=? key a) = false) /\
     (forall a', In a' l2 -> (key a' <? key a) = false)).
Proof.
  induction l as [|h t IH]; intros best least.
  - left. split; [reflexivity|]. intros a [].
  - cbn [leastFrom]. destruct (key h <? least) eqn:Hh.
    + right. destruct (IH (Some h) (key h)) as [[E Hall]|(l1 & a & l2 & El & E & Ha & H1 & H2)].
      * exists [], h, t. repeat split; try assumption. intros a' [].
      * exists (h :: l1), a, l2. subst t. repeat split; try assumption.
        -- eapply ltb_trans; eassumption.
        -- intros a' [<-|Hin]; [apply ltb_not_leb, Ha|apply H1, Hin].
    + destruct (IH best least) as [[E Hall]|(l1 & a & l2 & El & E & Ha & H1 & H2)].
      * left. split; [exact E|]. intros a [<-|Hin]; [exact Hh|apply Hall, Hin].
      * right. exists (h :: l1), a, l2. subst t. repeat split; try assumption.
        intros a' [<-|Hin]; [|apply H1, Hin].
        destruct (key h <=? key a) eqn:Hle; [|reflexivity].
        rewrite (leb_ltb_trans _ _ _ Hle Ha) in Hh. discriminate.
Qed.

Lemma firstLeast_spec {A : Type} (key : A -> float) (l : list A) :
  match firstLeast key l with
  | (Some a, d) =>
      exists l1 l2,
        l = l1 ++ a :: l2 /\ d = key a /\ (key a <? infinity) = true /\
        (forall a', In a' l1 -> (key a' <=? key a) = false) /\
        (forall a', In a' l2 -> (key a' <? key a) = false)
  | (None, d) => d = infinity /\ forall a, In a l -> (key a <? infinity) = false
  end.
Proof.
  unfold firstLeast.
  destruct (leastFrom_spec key l None infinity)
    as [[R Hall]|(l1 & a & l2 & El & R & Ha & H1 & H2)]; rewrite R.
  - auto.
  - exists l1, l2. auto.
Qed.

(** The running maximum of scores that are not NaN. *)
Lemma fold_best_spec {A : Type} (score : A -> float) (l : list A) :
  (forall a, is_nan (score a) = false) ->
  forall best bestScore,
  (fold_left (fun b a => if snd b <? score a then (Some a, score a) else b) l
     (best, bestScore) = (best, bestScore) /\
   forall a, In a l -> (bestScore <? score a) = false) \/
  (exists l1 a l2,
     l = l1 ++ a :: l2 /\
     fold_left (fun b a => if snd b <? score a then (Some a, score a) else b) l
       (best, bestScore) = (Some a, score a) /\
     (bestScore <? score a) = true /\
     (forall a', In a' l1 -> (score a' <? score a) = true) /\
     (forall a', In a' l2 -> (score a' <=? score a) = true)).
Proof.
  intros Hs. induction l as [|h t IH]; intros best bestScore.
  - left. split; [reflexivity|]. intros a [].
  - cbn [fold_left snd].
    destruct (bestScore <? score h) eqn:Hh.
    + right.
      destruct (IH (Some h) (score h)) as [[E Hall]|(l1 & a & l2 & El & E & Ha & H1 & H2)].
      * exists [], h, t. repeat split; try assumption; [intros a' []|].
        intros a' Hin. apply not_ltb_leb; auto.
      * exists (h :: l1), a, l2. subst t. repeat split; try assumption.
        -- eapply ltb_trans; eassumption.
        -- intros a' [<-|Hin]; [exact Ha|apply H1, Hin].
    + destruct (IH best bestScore) as [[E Hall]|(l1 & a & l2 & El & E & Ha & H1 & H2)].
      * left. split; [exact E|]. intros a [<-|Hin]; [exact Hh|apply Hall, Hin].
      * right. exists (h :: l1), a, l2. subst t. repeat split; try assumption.
        intros a' [<-|Hin]; [|apply H1, Hin].
        apply leb_ltb_trans with bestScore; [|exact Ha].
        apply not_ltb_leb; auto. apply (ltb_true_not_nan _ _ Ha).
Qed.


(** ** Path score *)


(** *** The lookahead samples *)






(** *** The minimum distance to a star *)









(** *** The score *)


(** On an explicit-x path the lookahead does not start at the marble:
    the curve [x = y^2] passes through (1, 1) and (1, -1), next to a
    marble at (1, 1), and no sample is taken there. *)
Example lookahead_of_sidewaysParabola :
  samplePathPoints sidewaysParabola 1 5 20 = [] /\
  lookahead sidewaysParabola 1 = [].
Proof. vm_compute. split; reflexivity. Qed.


(** ** Implicit tangent *)

Lemma implicitDirection_least x : forall rest prev best bestDirection least,
  bestDirection = match best with
                  | Some pr => unitDelta pr
                  | None => {| v_x := 1; v_y := 0 |}
                  end ->
  implicitDirection x prev rest bestDirection least =
  match fst (leastFrom (secondPointKey x)
               (filter displaced (consecutivePairs (prev :: rest))) best least) with
  | Some pr => unitDelta pr
  | None => {| v_x := 1; v_y := 0 |}
  end.
Proof.
  induction rest as [|p rest IH]; intros prev best bestDirection least E.
  - cbn. exact E.
  - cbn [implicitDirection consecutivePairs filter].
    change (JS.strict_neq (v_x p - v_x prev) 0 || JS.strict_neq (v_y p - v_y prev) 0)
      with (displaced (prev, p)).
    destruct (displaced (prev, p)) eqn:D.
    + cbn [leastFrom]. unfold secondPointKey at 1. cbn [snd].
      destruct (JS.Math_abs (v_x p - x) <? least); cbn [andb].
      * apply IH. reflexivity.
      * apply IH. exact E.
    + rewrite andb_false_r. apply IH. exact E.
Qed.

Lemma calculateImplicitVelocity_pairs equation x speed :
  calculateImplicitVelocity equation x speed =
  tangentFromPairs (secondPointKey x) equation x speed.
Proof.
  unfold calculateImplicitVelocity, tangentFromPairs. cbv zeta.
  destruct (getPoints equation (x - 0.1) (x + 0.1) (-10) 10 20) as [|p0 [|p1 rest]];
    try reflexivity.
  change ((length (p0 :: p1 :: rest) <? 2)%nat) with false. cbv iota.
  unfold firstLeast.
  rewrite (implicitDirection_least x (p1 :: rest) p0 None _ JS.Infinity eq_refl).
  reflexivity.
Qed.

(** C5, as the specification states it, fails: for the circle
    [x^2 + y^2 = 1] and the query [x = 0] the pair chosen is the first one
    whose second point is nearest to the query, which leads down to the
    next column of the sampling grid, and not the pair whose first point is
    nearest, which leads up. *)
Lemma implicit_first_point_fails :
  calculateImplicitVelocity unitCircle 0 1 <>
  tangentFromPairs (firstPointKey 0) unitCircle 0 1.
Proof.
  intros H. apply (f_equal v_y) in H. revert H. apply float_neq. vm_compute. reflexivity.
Qed.

Example tangent_of_unitCircle :
  calculateImplicitVelocity unitCircle 0 1 =
    {| v_x := 0.0049999375011718552; v_y := -0.99998750023437011 |} /\
  tangentFromPairs (firstPointKey 0) unitCircle 0 1 = {| v_x := 0; v_y := 1 |}.
Proof. vm_compute. split; reflexivity. Qed.

(** C5, amended. The implicit tangent estimate samples the points of the
    curve around [x] ([getPoints(x - 0.1, x + 0.1, -10, 10, 20)]) and, among
    the pairs of consecutive points with a non-zero displacement, picks the
    first pair whose second point is closest in x to the query; it returns
    the normalized [(dx, dy)] of that pair scaled by [speed] ([(speed, 0)]
    scaled likewise when no pair qualifies), and [(speed, 0)] with fewer
    than two points. [calculatePathVelocity] delegates to it for implicit
    curves, with [pathFollowSpeed] when no speed is given. *)
Theorem calculateImplicitVelocity_spec (this : PhysicsEngine) (equation : Equation)
    (x speed : float) :
  calculateImplicitVelocity equation x speed =
    tangentFromPairs (secondPointKey x) equation x speed /\
  ((length (getPoints equation (x - 0.1) (x + 0.1) (-10) 10 20) < 2)%nat ->
   calculateImplicitVelocity equation x speed = {| v_x := speed; v_y := 0 |}) /\
  (eq_type equation = implicit ->
   calculatePathVelocity this equation x None =
     tangentFromPairs (secondPointKey x) equation x (pathFollowSpeed this)) /\
  (let pairs :=
     filter displaced
       (consecutivePairs (getPoints equation (x - 0.1) (x + 0.1) (-10) 10 20)) in
   match firstLeast (secondPointKey x) pairs with
   | (Some pr, d) =>
       exists before after,
         pairs = before ++ pr :: after /\ d = secondPointKey x pr /\
         (forall pr', In pr' before -> (secondPointKey x pr' <=? d) = false) /\
         (forall pr', In pr' after -> (secondPointKey x pr' <? d) = false)
   | (None, _) => forall pr, In pr pairs -> (secondPointKey x pr <? infinity) = false
   end).
Proof.
  split; [apply calculateImplicitVelocity_pairs|]. split; [|split].
  - intros H. rewrite calculateImplicitVelocity_pairs. unfold tangentFromPairs. cbv zeta.
    apply Nat.ltb_lt in H. rewrite H. reflexivity.
  - intros H. unfold calculatePathVelocity. rewrite H.
    apply calculateImplicitVelocity_pairs.
  - intros pairs. pose proof (firstLeast_spec (secondPointKey x) pairs) as H.
    destruct (firstLeast (secondPointKey x) pairs) as [[pr|] d].
    + destruct H as (l1 & l2 & El & Ed & _ & H1 & H2).
      exists l1, l2. rewrite Ed. auto.
    + apply H.
Qed.

(** ** Choosing the best path *)

(** The score is never NaN and never below zero. *)
Section ScoreSign.

Variables (this : PhysicsEngine) (marble : Marble) (pathData : PathData).

Lemma scoreStar_nonneg samplePoints score star :
  (0 <=? score) = true ->
  (0 <=? scoreStar this marble pathData samplePoints score star) = true.
Proof.
  intros H. unfold scoreStar. cbv zeta.
  set (d := closestApproach samplePoints star).
  set (dot := _ + _).
  assert (H1 : (0 <=? (if d <? 2.0 then score + (2.0 - d) * 100 else score)) = true).
  { destruct (d <? 2.0) eqn:Hd; [|exact H].
    apply add_nonneg; [exact H|].
    apply mul_nonneg; [apply sub_pos, Hd|reflexivity|reflexivity]. }
  destruct (0 <? dot) eqn:Hdot; [|exact H1].
  apply add_nonneg; [exact H1|].
  apply mul_nonneg; [apply ltb_zero_nonneg, Hdot|reflexivity|reflexivity].
Qed.

Lemma fold_scoreStar_nonneg samplePoints l : forall score,
  (0 <=? score) = true ->
  (0 <=? fold_left (scoreStar this marble pathData samplePoints) l score) = true.
Proof.
  induction l as [|star l' IH]; intros score H0; [exact H0|].
  cbn [fold_left]. apply IH, scoreStar_nonneg, H0.
Qed.

Lemma calculatePathScore_nonneg l :
  (0 <=? calculatePathScore this marble pathData l) = true.
Proof.
  unfold calculatePathScore.
  destruct (filter (fun star => negb (star_collected star)) l) as [|s rest];
    [reflexivity|].
  apply fold_scoreStar_nonneg. reflexivity.
Qed.

End ScoreSign.

Lemma neg_infinity_below s : (0 <=? s) = true -> (neg_infinity <? s) = true.
Proof.
  intros H. apply leb_le in H. destruct H as (_ & Ns & H).
  apply ltb_lt. split; [reflexivity|split; [exact Ns|]].
  change (frank 0) with 0%Z in H.
  change (frank neg_infinity) with (- 2 ^ 2100)%Z.
  assert (0 < 2 ^ 2100)%Z by (apply Z.pow_pos_nonneg; lia). lia.
Qed.

(** C4. [findBestPathTowardStars] returns no path for an empty candidate
    list and the candidate itself for a single one, whatever its score;
    with two candidates or more it returns a candidate of maximal score,
    and every candidate before it in the list has a strictly smaller score:
    among candidates of equal score the first wins. *)
Theorem findBestPathTowardStars_spec (this : PhysicsEngine) (marble : Marble)
    (candidatePaths : list PathData) (l : list Star) :
  let score := fun c => calculatePathScore this marble c l in
  match candidatePaths with
  | [] => findBestPathTowardStars this marble candidatePaths l = None
  | [c] => findBestPathTowardStars this marble candidatePaths l = Some c
  | _ =>
      exists before c after,
        candidatePaths = before ++ c :: after /\
        findBestPathTowardStars this marble candidatePaths l = Some c /\
        (forall c', In c' candidatePaths -> (score c' <=? score c) = true) /\
        (forall c', In c' before -> (score c' <? score c) = true)
  end.
Proof.
  intros score.
  destruct candidatePaths as [|c0 [|c1 rest]]; try reflexivity.
  set (cs := c0 :: c1 :: rest).
  assert (Hs : forall a, is_nan (score a) = false).
  { intros a. apply (leb_true_not_nan 0 (score a)), calculatePathScore_nonneg. }
  change (findBestPathTowardStars this marble cs l) with
    (fst (fold_left (fun b a => if snd b <? score a then (Some a, score a) else b) cs
            (None, neg_infinity))).
  destruct (fold_best_spec score cs Hs None neg_infinity)
    as [[_ Hall]|(l1 & a & l2 & El & E & Ha & H1 & H2)].
  - exfalso. specialize (Hall c0 (or_introl eq_refl)).
    rewrite neg_infinity_below in Hall by apply calculatePathScore_nonneg. discriminate.
  - exists l1, a, l2. rewrite E. repeat split; try assumption.
    intros c'. rewrite El. intros Hin. apply in_app_or in Hin.
    destruct Hin as [Hin|[<-|Hin]].
    + apply ltb_leb, H1, Hin.
    + apply leb_refl, Hs.
    + apply H2, Hin.
Qed.

(** ** The closest-point scan *)

Lemma scanLoop_fold body endv : forall fuel x st,
  scanLoop fuel body endv x st =
  fold_left (fun st x => body x st) (scanPoints fuel endv x) st.
Proof.
  induction fuel as [|fuel IH]; intros x st; [reflexivity|].
  cbn [scanLoop scanPoints]. destruct (x <=? endv); [|reflexivity].
  cbn [fold_left]. apply IH.
Qed.

(** The scan of an equation from a marble at [(marbleX, marbleY)] is a
    running minimum over the samples of the curve. *)
Section Scan.

Variables (equation : Equation) (marbleX marbleY : float).

Lemma fold_scanBodyY : forall xs best least,
  fold_left (fun st x => scanBodyY equation marbleX marbleY x st) xs
    (stateOf marbleX (best, least)) =
  stateOf marbleX
    (leastFrom (sampleDistance marbleX marbleY) (flat_map (sampleAt equation) xs) best least).
Proof.
  induction xs as [|x xs IH]; intros best least; [reflexivity|].
  cbn [fold_left flat_map]. unfold scanBodyY at 2, sampleAt at 1.
  destruct (evaluate equation x) as [y|]; [|apply IH].
  destruct (negb (JS.isNaN y) && JS.isFinite y); [|apply IH].
  cbn [app leastFrom]. unfold sampleDistance at 1. cbn [fst snd stateOf minDistance].
  destruct (JS.Math_sqrt (JS.sq (x - marbleX) + JS.sq (y - marbleY)) <? least).
  - apply (IH (Some (x, y))).
  - apply IH.
Qed.

Lemma in_samples xs x y :
  In (x, y) (flat_map (sampleAt equation) xs) ->
  In x xs /\ evaluate equation x = Some y.
Proof.
  intros H. apply in_flat_map in H. destruct H as (x' & Hin & H).
  unfold sampleAt in H. destruct (evaluate equation x') as [y'|] eqn:E; [|destruct H].
  destruct (negb (JS.isNaN y') && JS.isFinite y'); [|destruct H].
  destruct H as [H|[]]. injection H as <- <-. auto.
Qed.

End Scan.

(** The scan ends by its own test: more fuel does not change it. *)
Lemma scanPoints_step endv : forall fuel extra x k,
  (endv <=? 10) = true -> (-10 <=? x) = true ->
  (frank (-10) + Z.of_nat k * scan_delta <= frank x)%Z ->
  (401 <= k + fuel)%nat ->
  scanPoints (fuel + extra) endv x = scanPoints fuel endv x.
Proof.
  destruct scan_consts as (C1 & C2 & C3 & C4 & C5 & C6).
  induction fuel as [|fuel IH]; intros extra x k He Hx Hk Hf.
  - cbn [scanPoints Nat.add]. destruct extra as [|extra]; [reflexivity|].
    cbn [scanPoints]. destruct (x <=? endv) eqn:G; [|reflexivity].
    exfalso. apply leb_le in G, He.
    destruct G as (_ & _ & G). destruct He as (_ & _ & He).
    revert C1 C5 C6 Hk G He.
    generalize (frank (-10)), (frank 10), (frank x), (frank endv), scan_delta.
    intros; nia.
  - cbn [scanPoints Nat.add]. destruct (x <=? endv) eqn:G; [|reflexivity].
    f_equal.
    assert (Hx10 : (x <=? 10) = true).
    { apply leb_le in G, He. apply leb_le.
      destruct G as (? & _ & G). destruct He as (_ & ? & He). repeat split; auto. lia. }
    destruct (scan_step_lower x Hx Hx10) as [F L].
    apply (IH extra (x + scan_step) (S k) He).
    + apply leb_le in Hx. destruct Hx as (_ & _ & Hx).
      apply leb_le. split; [reflexivity|]. split.
      * apply finite_not_nan, F.
      * unfold scan_step. lia.
    + unfold scan_step. rewrite Nat2Z.inj_succ. lia.
    + lia.
Qed.

Lemma Math_max_lower a :
  is_nan (JS.Math_max (-10) a) = true \/ (-10 <=? JS.Math_max (-10) a) = true.
Proof.
  unfold JS.Math_max. destruct (is_nan (-10) || is_nan a) eqn:N; [left; reflexivity|right].
  apply orb_false_iff in N. destruct N as [N1 N2].
  destruct (-10 <? a) eqn:L1; [apply ltb_leb, L1|].
  destruct (a <? -10) eqn:L2; [reflexivity|].
  change (get_sign (-10)) with true. cbv iota.
  apply not_ltb_leb in L2; assumption.
Qed.

Lemma Math_min_upper b :
  is_nan (JS.Math_min 10 b) = true \/ (JS.Math_min 10 b <=? 10) = true.
Proof.
  unfold JS.Math_min. destruct (is_nan 10 || is_nan b) eqn:N; [left; reflexivity|right].
  apply orb_false_iff in N. destruct N as [N1 N2].
  destruct (10 <? b) eqn:L1; [reflexivity|].
  destruct (b <? 10) eqn:L2; [apply ltb_leb, L2|].
  change (get_sign 10) with false. cbv iota.
  apply not_ltb_leb in L1; assumption.
Qed.

Lemma scanPoints_nan_end fuel endv x :
  is_nan endv = true -> scanPoints fuel endv x = [].
Proof.
  intros N. destruct fuel; [reflexivity|]. cbn [scanPoints].
  rewrite leb_nan_r by exact N. reflexivity.
Qed.

Lemma scanPoints_nan_start fuel endv x :
  is_nan x = true -> scanPoints fuel endv x = [].
Proof.
  intros N. destruct fuel; [reflexivity|]. cbn [scanPoints].
  rewrite leb_nan_l by exact N. reflexivity.
Qed.

Lemma scanPoints_range endv : forall fuel x0 x,
  (endv <=? 10) = true -> (-10 <=? x0) = true ->
  In x (scanPoints fuel endv x0) ->
  (x0 <=? x) = true /\ (x <=? endv) = true.
Proof.
  destruct scan_consts as (C1 & C2 & C3 & C4 & C5 & C6).
  induction fuel as [|fuel IH]; intros x0 x He Hx Hin; [destruct Hin|].
  cbn [scanPoints] in Hin. destruct (x0 <=? endv) eqn:G; [|destruct Hin].
  destruct Hin as [<-|Hin].
  - split; [apply leb_refl, (leb_true_not_nan _ _ G)|exact G].
  - assert (Hx10 : (x0 <=? 10) = true).
    { apply leb_le in G, He. apply leb_le.
      destruct G as (? & _ & G). destruct He as (_ & ? & He). repeat split; auto. lia. }
    destruct (scan_step_lower x0 Hx Hx10) as [F L]. fold scan_step in F, L.
    assert (Hx' : (-10 <=? x0 + scan_step) = true).
    { apply leb_le in Hx. destruct Hx as (_ & _ & Hx).
      apply leb_le. split; [reflexivity|]. split; [apply finite_not_nan, F|lia]. }
    destruct (IH _ _ He Hx' Hin) as [H1 H2]. split; [|exact H2].
    apply leb_le in H1. destruct H1 as (_ & Nx & H1).
    apply leb_le. split; [apply (leb_true_not_nan _ _ G)|]. split; [exact Nx|lia].
Qed.

Lemma scanPoints_window a b x :
  In x (scanPoints scan_fuel (JS.Math_min 10 b) (JS.Math_max (-10) a)) ->
  (JS.Math_max (-10) a <=? x) = true /\ (x <=? JS.Math_min 10 b) = true.
Proof.
  intros Hin.
  destruct (Math_min_upper b) as [N|He];
    [rewrite scanPoints_nan_end in Hin by exact N; destruct Hin|].
  destruct (Math_max_lower a) as [N|Hx];
    [rewrite scanPoints_nan_start in Hin by exact N; destruct Hin|].
  exact (scanPoints_range _ _ _ _ He Hx Hin).
Qed.

Lemma scanPoints_fuel a b fuel :
  (scan_fuel <= fuel)%nat ->
  scanPoints fuel (JS.Math_min 10 b) (JS.Math_max (-10) a) =
  scanPoints scan_fuel (JS.Math_min 10 b) (JS.Math_max (-10) a).
Proof.
  intros Hf.
  destruct (Math_min_upper b) as [N|He]; [rewrite !scanPoints_nan_end by exact N; reflexivity|].
  destruct (Math_max_lower a) as [N|Hx]; [rewrite !scanPoints_nan_start by exact N; reflexivity|].
  replace fuel with (scan_fuel + (fuel - scan_fuel))%nat by lia.
  apply (scanPoints_step _ scan_fuel (fuel - scan_fuel) _ 0 He Hx).
  - apply leb_le in Hx. destruct Hx as (_ & _ & Hx). cbn [Z.of_nat]. lia.
  - unfold scan_fuel. lia.
Qed.

Lemma scanPoints_length_fuel endv : forall fuel x,
  (length (scanPoints fuel endv x) <= fuel)%nat.
Proof.
  induction fuel as [|fuel IH]; intros x; [apply Nat.le_refl|].
  cbn [scanPoints]. destruct (x <=? endv); cbn [length]; [|lia].
  specialize (IH (x + scan_step)). lia.
Qed.

Lemma scanPoints_length a b :
  (length (scanPoints scan_fuel (JS.Math_min 10 b) (JS.Math_max (-10) a)) <= 401)%nat.
Proof.
  destruct (Math_min_upper b) as [N|He];
    [rewrite scanPoints_nan_end by exact N; cbn; lia|].
  destruct (Math_max_lower a) as [N|Hx];
    [rewrite scanPoints_nan_start by exact N; cbn; lia|].
  change scan_fuel with (401 + 111)%nat.
  rewrite (scanPoints_step _ 401 111 _ 0 He Hx).
  - apply scanPoints_length_fuel.
  - apply leb_le in Hx. destruct Hx as (_ & _ & Hx). cbn [Z.of_nat]. lia.
  - lia.
Qed.

Lemma findClosestPointExplicitY_least marble equation searchRadius :
  let marbleX := v_x (position marble) in
  let marbleY := v_y (position marble) in
  findClosestPointExplicitY marble equation searchRadius =
  let st := stateOf marbleX
              (firstLeast (sampleDistance marbleX marbleY)
                 (scanSamples marble equation searchRadius)) in
  match evaluate equation (closestArg st) with
  | None => None
  | Some closestY =>
      Some {| cp_x := closestArg st; cp_y := closestY; cp_distance := minDistance st |}
  end.
Proof.
  intros marbleX marbleY. unfold findClosestPointExplicitY. cbv zeta.
  rewrite scanLoop_fold. fold marbleX marbleY.
  change (mkScanState marbleX JS.Infinity) with (stateOf marbleX (None, infinity)).
  rewrite fold_scanBodyY. reflexivity.
Qed.

(** C7, as the specification states it, fails: for a marble at the origin
    and the piecewise curve [x^2 {x > 5}] no scanned abscissa has a finite
    value, and the query returns the marble's own x with the value NaN and
    the distance [Infinity]. *)
Lemma closestPoint_claim_fails : ~ closestPoint_claim (newMarble 0 0) rightBranch 2.
Proof.
  unfold closestPoint_claim. vm_compute. intros [H _]. exact H.
Qed.

Example closest_on_rightBranch :
  findClosestPointOnPath (newMarble 0 0) rightBranch 2 =
    Some {| cp_x := 0; cp_y := nan; cp_distance := infinity |} /\
  scanSamples (newMarble 0 0) rightBranch 2 = [] /\
  length (scanPoints scan_fuel (JS.Math_min 10 (0 + 2)) (JS.Math_max (-10) (0 - 2))) = 80%nat.
Proof. vm_compute. repeat split. Qed.

(** C7, amended. For an explicit-y or piecewise equation the closest-point
    query scans [x] from [max(-10, mx - r)] while [x <= min(10, mx + r)] in
    steps of 0.05 (the scan always ends: at most 401 abscissas), keeps the
    samples [(x, eq(x))] with [eq(x)] finite, and when a sample is at a
    distance below [Infinity] returns the first sample of least Euclidean
    distance to the marble, with that distance. When no sample qualifies
    it returns the marble's own [x] with [eq(x)] and the distance
    [Infinity]; there is no result only when that evaluation raises. *)
Theorem findClosestPointOnPath_explicit (marble : Marble) (equation : Equation)
    (searchRadius : float) :
  eq_type equation = explicit_y \/ eq_type equation = piecewise ->
  let marbleX := v_x (position marble) in
  let marbleY := v_y (position marble) in
  let startX := JS.Math_max (-10) (marbleX - searchRadius) in
  let endX := JS.Math_min 10 (marbleX + searchRadius) in
  let samples := flat_map (sampleAt equation) (scanPoints scan_fuel endX startX) in
  let dist := sampleDistance marbleX marbleY in
  (forall fuel, (scan_fuel <= fuel)%nat ->
     scanPoints fuel endX startX = scanPoints scan_fuel endX startX) /\
  (length (scanPoints scan_fuel endX startX) <= 401)%nat /\
  (forall x y, In (x, y) samples ->
     (startX <=? x) = true /\ (x <=? endX) = true /\
     evaluate equation x = Some y /\ JS.isFinite y = true) /\
  match findClosestPointOnPath marble equation searchRadius with
  | Some cp =>
      evaluate equation (cp_x cp) = Some (cp_y cp) /\
      ((exists l1 l2,
          samples = l1 ++ (cp_x cp, cp_y cp) :: l2 /\
          cp_distance cp = dist (cp_x cp, cp_y cp) /\
          (cp_distance cp <? infinity) = true /\
          (forall s, In s l1 -> (dist s <=? cp_distance cp) = false) /\
          (forall s, In s l2 -> (dist s <? cp_distance cp) = false)) \/
       (cp_x cp = marbleX /\ cp_distance cp = infinity /\
        forall s, In s samples -> (dist s <? infinity) = false))
  | None =>
      evaluate equation marbleX = None /\
      forall s, In s samples -> (dist s <? infinity) = false
  end.
Proof.
  intros Ht marbleX marbleY startX endX samples dist.
  split; [intros fuel Hf; apply scanPoints_fuel, Hf|].
  split; [apply scanPoints_length|]. split.
  { intros x y H. unfold samples in H. apply in_flat_map in H.
    destruct H as (x' & Hin & H). unfold sampleAt in H.
    destruct (evaluate equation x') as [y'|] eqn:E; [|destruct H].
    destruct (negb (JS.isNaN y') && JS.isFinite y') eqn:U; [|destruct H].
    destruct H as [H|[]]. injection H as <- <-.
    apply andb_prop in U. destruct U as [_ U].
    destruct (scanPoints_window _ _ _ Hin) as [W1 W2].
    repeat split; assumption. }
  assert (E : findClosestPointOnPath marble equation searchRadius =
              findClosestPointExplicitY marble equation searchRadius).
  { unfold findClosestPointOnPath. destruct Ht as [-> | ->]; reflexivity. }
  rewrite E, findClosestPointExplicitY_least. cbv zeta.
  fold marbleX marbleY. unfold scanSamples. fold marbleX endX startX samples dist.
  unfold firstLeast.
  destruct (leastFrom_spec dist samples None infinity)
    as [[R Hall]|(l1 & s & l2 & El & R & Hs & H1 & H2)]; rewrite R.
  - cbn [stateOf fst snd closestArg minDistance].
    destruct (evaluate equation marbleX) as [y|] eqn:Ey.
    + split; [exact Ey|]. right. auto.
    + auto.
  - destruct s as [x y].
    assert (Hin : In (x, y) samples) by (rewrite El; apply in_elt).
    destruct (in_samples _ _ _ _ Hin) as [_ Ey].
    cbn [stateOf fst snd closestArg minDistance]. rewrite Ey.
    cbn [cp_x cp_y cp_distance].
    split; [exact Ey|]. left. exists l1, l2. auto.
Qed.

Lemma findClosestPointOnPath_explicit_witness :
  eq_type flatLine = explicit_y /\
  forall fuel, (scan_fuel <= fuel)%nat ->
    scanPoints fuel (JS.Math_min 10 (0.5 + 2)) (JS.Math_max (-10) (0.5 - 2)) =
    scanPoints scan_fuel (JS.Math_min 10 (0.5 + 2)) (JS.Math_max (-10) (0.5 - 2)).
Proof.
  split; [reflexivity|].
  exact (proj1 (findClosestPointOnPath_explicit (newMarble 0.5 0.3) flatLine 2
                  (or_introl eq_refl))).
Defined.

(** ** The anti-stall guard *)

Lemma nudge_not_stalled v :
  (JS.Math_abs v <? 0.001) = true ->
  (0.001 <=? JS.Math_abs (v + 0.01)) = true /\
  (9 # 1000 < float_value (v + 0.01))%Q /\ (float_value (v + 0.01) < 11 # 1000)%Q.
Proof.
  unfold JS.Math_abs. intros H.
  destruct (nudge_range v H) as (F & Hlo & Hhi).
  destruct nudge_lo_hi as (C1 & C2 & C3).
  assert (N : is_nan (v + 0.01) = false) by apply finite_not_nan, F.
  split; [|split].
  - apply leb_le. split; [reflexivity|]. split; [rewrite is_nan_abs; exact N|].
    rewrite frank_abs.
    revert C1 Hlo. generalize (frank 0.001), nudge_lo, (frank (v + 0.01)). intros; lia.
  - unfold float_value, Qlt. cbn [Qnum Qden]. rewrite Pos2Z.inj_pow.
    revert C2 Hlo. generalize (2 ^ 1074)%Z, nudge_lo, (frank (v + 0.01)). intros; lia.
  - unfold float_value, Qlt. cbn [Qnum Qden]. rewrite Pos2Z.inj_pow.
    revert C3 Hhi. generalize (2 ^ 1074)%Z, nudge_hi, (frank (v + 0.01)). intros; lia.
Qed.

Lemma not_stalled_moving v :
  is_nan (v_x v) = false -> is_nan (v_y v) = false ->
  stalled v = false -> moving v = true.
Proof.
  unfold stalled, moving, JS.Math_abs. intros Nx Ny H.
  apply andb_false_iff in H. apply orb_true_iff.
  destruct H as [H|H]; [left|right];
    apply not_ltb_leb in H; try assumption; try reflexivity;
    rewrite is_nan_abs; assumption.
Qed.

(** C10, as the specification states it, fails: next to a step too steep
    for the central difference a marble at rest gets the velocity
    [(0, NaN)], and neither component has magnitude at least 0.001. *)
Lemma stallFree_claim_fails :
  ~ stallFree_claim restingMarble newPhysicsEngine [steepStep].
Proof.
  unfold stallFree_claim. intros H. specialize (H eq_refl eq_refl).
  destruct H as (_ & _ & _ & _ & H). vm_compute in H. discriminate.
Qed.

(** C10, amended. At the end of every tick the two velocity components
    are never both below 0.001 in magnitude: the anti-stall nudge adds 0.01
    to [velocity.x] exactly when both components are below 0.001 after
    friction, which leaves [velocity.x] in (0.009, 0.011). So a component
    has magnitude at least 0.001 whenever the velocity is not NaN; it can
    be NaN after a tick that started from a finite velocity. *)
Theorem update_stallFree (this : Marble) (physics : PhysicsEngine)
    (equations : list Equation) :
  let before := velocity (advance this physics equations) in
  let after := velocity (update this physics equations) in
  stalled after = false /\
  (stalled before = true -> after = nudge before) /\
  (stalled before = false -> after = before) /\
  (stalled before = true ->
   (9 # 1000 < float_value (v_x after))%Q /\ (float_value (v_x after) < 11 # 1000)%Q) /\
  (JS.isNaN (v_x after) = false -> JS.isNaN (v_y after) = false -> moving after = true).
Proof.
  intros before after.
  assert (E : after = if stalled before then nudge before else before).
  { unfold after, update. apply velocity_antiStall. }
  destruct (stalled before) eqn:S.
  - assert (Hx : (JS.Math_abs (v_x before) <? 0.001) = true).
    { unfold stalled in S. apply andb_prop in S. apply S. }
    destruct (nudge_not_stalled _ Hx) as (M & Q1 & Q2).
    rewrite E. cbn [nudge v_x v_y].
    assert (Hs : stalled (nudge before) = false).
    { unfold stalled, nudge. cbn [v_x v_y].
      rewrite (ltb_not_leb_false _ _ M). reflexivity. }
    repeat split; try assumption; try discriminate.
    intros _ _. unfold moving, nudge. cbn [v_x v_y]. rewrite M. reflexivity.
  - rewrite E. repeat split; try assumption; try discriminate.
    intros Nx Ny. apply not_stalled_moving; assumption.
Qed.

(** * Further properties of the engine *)

(** ** The closest point of an implicit curve *)

Lemma closestOfPoints_least marbleX marbleY : forall points closestPoint least,
  closestOfPoints marbleX marbleY points closestPoint least =
  let r := leastFrom (distanceTo marbleX marbleY) points (Some closestPoint) least in
  (match fst r with Some c => c | None => closestPoint end, snd r).
Proof.
  induction points as [|p rest IH]; intros closestPoint least; [reflexivity|].
  cbn [closestOfPoints leastFrom].
  destruct (distanceTo marbleX marbleY p <? least).
  - rewrite IH. cbv zeta.
    destruct (leastFrom_spec (distanceTo marbleX marbleY) rest (Some p)
                (distanceTo marbleX marbleY p))
      as [[E _]|(l1 & a & l2 & _ & E & _)]; rewrite E; reflexivity.
  - apply IH.
Qed.

Lemma closestOfPoints_member marbleX marbleY points closestPoint least :
  In (fst (closestOfPoints marbleX marbleY points closestPoint least))
     (closestPoint :: points).
Proof.
  rewrite closestOfPoints_least. cbv zeta.
  destruct (leastFrom_spec (distanceTo marbleX marbleY) points (Some closestPoint) least)
    as [[E _]|(l1 & a & l2 & El & E & _)]; rewrite E; cbn [fst].
  - left. reflexivity.
  - right. rewrite El. apply in_elt.
Qed.

(** X1. [findClosestPointImplicit] returns [null] exactly when
    [getPoints] finds no point in the square of half-width [searchRadius]
    around the marble. Otherwise it returns one of these points with its
    Euclidean distance to the marble: no point after it in the array is
    strictly closer, and every point before it is strictly farther or at a
    NaN distance. [findClosestPointOnPath] delegates to it for implicit
    equations. *)
Theorem findClosestPointImplicit_spec (marble : Marble) (equation : Equation)
    (searchRadius : float) :
  let marbleX := v_x (position marble) in
  let marbleY := v_y (position marble) in
  let points := getPoints equation (marbleX - searchRadius) (marbleX + searchRadius)
                  (marbleY - searchRadius) (marbleY + searchRadius) 50 in
  let dist := distanceTo marbleX marbleY in
  match findClosestPointImplicit marble equation searchRadius with
  | None => points = []
  | Some cp =>
      exists before c after,
        points = before ++ c :: after /\
        cp = {| cp_x := v_x c; cp_y := v_y c; cp_distance := dist c |} /\
        (forall p, In p before -> (dist p <=? dist c) = false) /\
        (forall p, In p after -> (dist p <? dist c) = false)
  end /\
  (eq_type equation = implicit ->
   findClosestPointOnPath marble equation searchRadius =
   findClosestPointImplicit marble equation searchRadius).
Proof.
  intros marbleX marbleY points dist. split.
  - unfold findClosestPointImplicit. fold marbleX marbleY. fold points.
    destruct points as [|p0 rest]; [reflexivity|].
    rewrite closestOfPoints_least. cbv zeta. fold dist.
    destruct (leastFrom_spec dist rest (Some p0) (dist p0))
      as [[E Hall]|(l1 & a & l2 & El & E & Ha & H1 & H2)]; rewrite E; cbn [fst snd].
    + exists [], p0, rest. repeat split; [intros p []|exact Hall].
    + exists (p0 :: l1), a, l2. rewrite El. repeat split; [|exact H2].
      intros p [<-|Hin]; [apply ltb_not_leb, Ha|apply H1, Hin].
  - intros Ht. unfold findClosestPointOnPath. rewrite Ht. reflexivity.
Qed.

(** ** The closest point of a curve [x = f(y)] *)

Lemma fold_scanBodyX equation marbleX marbleY : forall ys best least,
  fold_left (fun st y => scanBodyX equation marbleX marbleY y st) ys
    (stateOf marbleY (best, least)) =
  stateOf marbleY
    (leastFrom (sampleDistanceX marbleX marbleY) (flat_map (sampleAt equation) ys) best least).
Proof.
  induction ys as [|y ys IH]; intros best least; [reflexivity|].
  cbn [fold_left flat_map]. unfold scanBodyX at 2, sampleAt at 1.
  destruct (evaluate equation y) as [x|]; [|apply IH].
  destruct (negb (JS.isNaN x) && JS.isFinite x); [|apply IH].
  cbn [app leastFrom]. unfold sampleDistanceX at 1. cbn [fst snd stateOf minDistance].
  destruct (JS.Math_sqrt (JS.sq (x - marbleX) + JS.sq (y - marbleY)) <? least).
  - apply (IH (Some (y, x))).
  - apply IH.
Qed.

(** X2. [findClosestPointExplicitX] scans [y] from [max(-10, my - r)]
    while [y <= min(10, my + r)] in steps of 0.05; the scan always ends
    (more iterations than 512 are never needed). It keeps the samples
    [(f(y), y)] with [f(y)] finite and returns the first sample of least
    Euclidean distance to the marble, with that distance; when no sample
    is at a distance below [Infinity] it returns [(f(my), my)] for the
    marble's own [y] and the distance [Infinity]. The result is [null]
    only when the evaluation at the marble's [y] raises.
    [findClosestPointOnPath] delegates to it for explicit-x equations. *)
Theorem findClosestPointExplicitX_spec (marble : Marble) (equation : Equation)
    (searchRadius : float) :
  let marbleX := v_x (position marble) in
  let marbleY := v_y (position marble) in
  let startY := JS.Math_max (-10) (marbleY - searchRadius) in
  let endY := JS.Math_min 10 (marbleY + searchRadius) in
  let samples := flat_map (sampleAt equation) (scanPoints scan_fuel endY startY) in
  let dist := sampleDistanceX marbleX marbleY in
  (forall fuel, (scan_fuel <= fuel)%nat ->
     scanLoop fuel (scanBodyX equation marbleX marbleY) endY startY
       (mkScanState marbleY JS.Infinity) =
     scanLoop scan_fuel (scanBodyX equation marbleX marbleY) endY startY
       (mkScanState marbleY JS.Infinity)) /\
  (forall y x, In (y, x) samples ->
     (startY <=? y) = true /\ (y <=? endY) = true /\
     evaluate equation y = Some x /\ JS.isFinite x = true) /\
  match findClosestPointExplicitX marble equation searchRadius with
  | Some cp =>
      evaluate equation (cp_y cp) = Some (cp_x cp) /\
      ((exists l1 l2,
          samples = l1 ++ (cp_y cp, cp_x cp) :: l2 /\
          cp_distance cp = dist (cp_y cp, cp_x cp) /\
          (cp_distance cp <? infinity) = true /\
          (forall s, In s l1 -> (dist s <=? cp_distance cp) = false) /\
          (forall s, In s l2 -> (dist s <? cp_distance cp) = false)) \/
       (cp_y cp = marbleY /\ cp_distance cp = infinity /\
        forall s, In s samples -> (dist s <? infinity) = false))
  | None =>
      evaluate equation marbleY = None /\
      forall s, In s samples -> (dist s <? infinity) = false
  end /\
  (eq_type equation = explicit_x ->
   findClosestPointOnPath marble equation searchRadius =
   findClosestPointExplicitX marble equation searchRadius).
Proof.
  intros marbleX marbleY startY endY samples dist.
  split; [intros fuel Hf; rewrite !scanLoop_fold; unfold endY, startY;
          rewrite (scanPoints_fuel _ _ fuel Hf); reflexivity|].
  split.
  { intros y x H. unfold samples in H. apply in_flat_map in H.
    destruct H as (y' & Hin & H). unfold sampleAt in H.
    destruct (evaluate equation y') as [x'|] eqn:E; [|destruct H].
    destruct (negb (JS.isNaN x') && JS.isFinite x') eqn:U; [|destruct H].
    destruct H as [H|[]]. injection H as <- <-.
    apply andb_prop in U. destruct U as [_ U].
    destruct (scanPoints_window _ _ _ Hin) as [W1 W2].
    repeat split; assumption. }
  split; [|intros Ht; unfold findClosestPointOnPath; rewrite Ht; reflexivity].
  unfold findClosestPointExplicitX. cbv zeta.
  rewrite scanLoop_fold. fold marbleX marbleY endY startY.
  change (mkScanState marbleY JS.Infinity) with (stateOf marbleY (None, infinity)).
  rewrite fold_scanBodyX. fold samples dist.
  destruct (leastFrom_spec dist samples None infinity)
    as [[R Hall]|(l1 & s & l2 & El & R & Hs & H1 & H2)]; rewrite R.
  - cbn [stateOf fst snd closestArg minDistance].
    destruct (evaluate equation marbleY) as [x|] eqn:Ex.
    + split; [exact Ex|]. right. auto.
    + auto.
  - destruct s as [y x].
    assert (Hin : In (y, x) samples) by (rewrite El; apply in_elt).
    destruct (in_samples _ _ _ _ Hin) as [_ Ex].
    cbn [stateOf fst snd closestArg minDistance]. rewrite Ex.
    cbn [cp_x cp_y cp_distance].
    split; [exact Ex|]. left. exists l1, l2. auto.
Qed.

(** ** The path state of a marble *)

Lemma findBestPathTowardStars_member this marble candidatePaths l :
  candidatePaths <> [] ->
  exists c, In c candidatePaths /\
    findBestPathTowardStars this marble candidatePaths l = Some c.
Proof.
  intros Hne. destruct candidatePaths as [|c0 [|c1 rest]]; [congruence| |].
  - exists c0. split; [left|]; reflexivity.
  - set (cs := c0 :: c1 :: rest).
    set (score := fun c => calculatePathScore this marble c l).
    assert (Hs : forall a, is_nan (score a) = false).
    { intros a. apply (leb_true_not_nan 0 (score a)), calculatePathScore_nonneg. }
    change (findBestPathTowardStars this marble cs l) with
      (fst (fold_left (fun b a => if snd b <? score a then (Some a, score a) else b) cs
              (None, neg_infinity))).
    destruct (fold_best_spec score cs Hs None neg_infinity)
      as [[_ Hall]|(l1 & a & l2 & El & E & _)].
    + exfalso. specialize (Hall c0 (or_introl eq_refl)).
      rewrite neg_infinity_below in Hall by apply calculatePathScore_nonneg. discriminate.
    + exists a. rewrite E, El. split; [apply in_elt|reflexivity].
Qed.

Lemma in_candidatePathsOf this physics equations pathData :
  In pathData (candidatePathsOf this physics equations) <->
  exists equation closestPoint,
    In equation equations /\
    findClosestPointOnPath this equation default_searchRadius = Some closestPoint /\
    (cp_distance closestPoint <? pathThreshold this) = true /\
    pathData = {| pd_equation := equation;
                  pd_closestPoint := closestPoint;
                  pd_distance := cp_distance closestPoint |}.
Proof.
  unfold candidatePathsOf. rewrite in_flat_map. split.
  - intros (equation & Hin & H).
    destruct (findClosestPointOnPath this equation default_searchRadius) as [cp|] eqn:E;
      [|destruct H].
    destruct (cp_distance cp <? pathThreshold this) eqn:D; [|destruct H].
    destruct H as [<-|[]]. exists equation, cp. auto.
  - intros (equation & cp & Hin & E & D & ->). exists equation. split; [exact Hin|].
    rewrite E, D. left. reflexivity.
Qed.

Lemma selectPath_some this physics equations pathData :
  selectPath this physics equations = Some pathData ->
  In (pd_equation pathData) equations.
Proof.
  unfold selectPath. intros S.
  destruct (candidatePathsOf this physics equations) as [|c cs] eqn:C; [discriminate S|].
  destruct (findBestPathTowardStars_member physics this (c :: cs)
              (match stars this with Some l => l | None => [] end))
    as (c' & Hin & E); [discriminate|].
  rewrite E in S. injection S as <-.
  rewrite <- C in Hin. apply in_candidatePathsOf in Hin.
  destruct Hin as (equation & cp & Hin & _ & _ & ->). exact Hin.
Qed.

Lemma path_state_advance this physics equations :
  let this' := advance this physics equations in
  match selectPath this physics equations with
  | Some pathData =>
      onPath this' = true /\ currentEquation this' = Some (pd_equation pathData) /\
      timeOffPath this' = 0%nat
  | None =>
      onPath this' = false /\ currentEquation this' = None /\
      timeOffPath this' = S (timeOffPath this)
  end.
Proof.
  unfold advance. rewrite selectPath_pushTrail.
  destruct (selectPath this physics equations) as [pathData|]; cbn.
  - auto.
  - repeat split. unfold pushTrail. destruct (_ <? _)%nat; reflexivity.
Qed.

Lemma path_state_antiStall this :
  onPath (antiStall this) = onPath this /\
  currentEquation (antiStall this) = currentEquation this /\
  timeOffPath (antiStall this) = timeOffPath this.
Proof. unfold antiStall. destruct (stalled _); auto. Qed.

(** X3. After [update] the marble is on a path exactly when some equation
    of the list has a closest point nearer than [pathThreshold]: then
    [onPath] is true, [timeOffPath] is 0 and [currentEquation] is an
    equation of the list whose closest point to the marble (as it was
    before the tick) is nearer than [pathThreshold]. Otherwise [onPath] is
    false, [currentEquation] is [null], [timeOffPath] is one more than
    before, and no equation of the list has a closest point nearer than
    [pathThreshold]. *)
Theorem update_path_state (this : Marble) (physics : PhysicsEngine)
    (equations : list Equation) :
  let this' := update this physics equations in
  match selectPath this physics equations with
  | Some pathData =>
      onPath this' = true /\
      currentEquation this' = Some (pd_equation pathData) /\
      timeOffPath this' = 0%nat /\
      In (pd_equation pathData) equations /\
      findClosestPointOnPath this (pd_equation pathData) default_searchRadius =
        Some (pd_closestPoint pathData) /\
      (cp_distance (pd_closestPoint pathData) <? pathThreshold this) = true
  | None =>
      onPath this' = false /\
      currentEquation this' = None /\
      timeOffPath this' = S (timeOffPath this) /\
      forall equation closestPoint,
        In equation equations ->
        findClosestPointOnPath this equation default_searchRadius = Some closestPoint ->
        (cp_distance closestPoint <? pathThreshold this) = false
  end.
Proof.
  intros this'. unfold this', update.
  destruct (path_state_antiStall (advance this physics equations)) as (-> & -> & ->).
  pose proof (path_state_advance this physics equations) as H. cbv zeta in H.
  destruct (selectPath this physics equations) as [pathData|] eqn:S.
  - destruct H as (-> & -> & ->). repeat split.
    all: unfold selectPath in S;
      destruct (candidatePathsOf this physics equations) as [|c cs] eqn:C; [discriminate S|];
      destruct (findBestPathTowardStars_member physics this (c :: cs)
                  (match stars this with Some l => l | None => [] end))
        as (c' & Hin & E); [discriminate|];
      rewrite E in S; injection S as <-;
      rewrite <- C in Hin; apply in_candidatePathsOf in Hin;
      destruct Hin as (equation & cp & Hin & F & D & ->); assumption.
  - destruct H as (-> & -> & ->). repeat split.
    intros equation cp Hin F.
    destruct (cp_distance cp <? pathThreshold this) eqn:D; [|reflexivity].
    exfalso. unfold selectPath in S.
    assert (Hc : In {| pd_equation := equation; pd_closestPoint := cp;
                       pd_distance := cp_distance cp |}
                    (candidatePathsOf this physics equations)).
    { apply in_candidatePathsOf. exists equation, cp. auto. }
    destruct (candidatePathsOf this physics equations) as [|c cs]; [destruct Hc|].
    destruct (findBestPathTowardStars_member physics this (c :: cs)
                (match stars this with Some l => l | None => [] end))
      as (c' & _ & E); [discriminate|].
    rewrite E in S. discriminate S.
Qed.

(** ** What a tick keeps, and [reset] *)

Lemma update_frame this physics equations :
  let this' := update this physics equations in
  radius this' = radius this /\
  maxTrailLength this' = maxTrailLength this /\
  pathThreshold this' = pathThreshold this /\
  stars this' = stars this.
Proof.
  unfold update, antiStall, advance.
  destruct (selectPath _ _ _); destruct (stalled _); cbn;
    unfold pushTrail; destruct (_ <? _)%nat; auto.
Qed.

Lemma ticks_frame n this physics equations :
  let this' := ticks n this physics equations in
  radius this' = radius this /\
  maxTrailLength this' = maxTrailLength this /\
  pathThreshold this' = pathThreshold this /\
  stars this' = stars this.
Proof.
  induction n as [|n IH]; [cbn; auto|].
  cbn [ticks]. cbv zeta in *.
  destruct (update_frame (ticks n this physics equations) physics equations)
    as (-> & -> & -> & ->).
  exact IH.
Qed.

(** X4. [update] never changes the radius, [maxTrailLength],
    [pathThreshold] or the stars of a marble, so [reset(x, y)] after any
    number of ticks gives the marble that [reset(x, y)] gives at once; for
    a marble made by the constructor that is the marble the constructor
    makes at [(x, y)]. *)
Theorem reset_ticks (n : nat) (this : Marble) (physics : PhysicsEngine)
    (equations : list Equation) (x y a b : float) :
  reset (ticks n this physics equations) x y = reset this x y /\
  reset (newMarble a b) x y = newMarble x y /\
  reset (ticks n (newMarble a b) physics equations) x y = newMarble x y.
Proof.
  assert (R : forall m, reset (ticks n m physics equations) x y = reset m x y).
  { intros m. unfold reset.
    destruct (ticks_frame n m physics equations) as (-> & -> & -> & ->). reflexivity. }
  split; [apply R|]. split; [reflexivity|]. rewrite R. reflexivity.
Qed.

(** ** The trail over successive ticks *)

Lemma trail_update this physics equations :
  trail (update this physics equations) = trail (pushTrail this).
Proof. unfold update. rewrite trail_antiStall. apply trail_advance. Qed.

Lemma visited_length n this physics equations :
  length (visited n this physics equations) = n.
Proof. unfold visited. rewrite length_map, length_seq. reflexivity. Qed.

Lemma visited_succ n this physics equations :
  visited (S n) this physics equations =
  visited n this physics equations ++ [position (ticks n this physics equations)].
Proof. unfold visited. rewrite seq_S, map_app. reflexivity. Qed.

Lemma tl_skipn {A : Type} (k : nat) (l : list A) : tl (skipn k l) = skipn (S k) l.
Proof.
  revert l. induction k as [|k IH]; intros [|a l]; try reflexivity.
  cbn [skipn]. rewrite IH. destruct l; reflexivity.
Qed.

(** X5. For a marble whose trail is empty, the trail after [n] ticks
    holds the positions the marble had before each of the last
    [maxTrailLength] ticks (all [n] of them when [n] is smaller), oldest
    first: its length is [min(n, maxTrailLength)]. *)
Theorem ticks_trail (n : nat) (this : Marble) (physics : PhysicsEngine)
    (equations : list Equation) :
  trail this = [] ->
  trail (ticks n this physics equations) =
    skipn (n - maxTrailLength this) (visited n this physics equations) /\
  length (trail (ticks n this physics equations)) = Nat.min n (maxTrailLength this).
Proof.
  intros H0.
  assert (T : trail (ticks n this physics equations) =
              skipn (n - maxTrailLength this) (visited n this physics equations)).
  { induction n as [|n IH]; [exact H0|].
    cbn [ticks]. rewrite trail_update, trail_pushTrail. cbv zeta.
    destruct (ticks_frame n this physics equations) as (_ & -> & _).
    rewrite IH.
    replace {| v_x := v_x (position (ticks n this physics equations));
               v_y := v_y (position (ticks n this physics equations)) |}
      with (position (ticks n this physics equations))
      by (destruct (position (ticks n this physics equations)); reflexivity).
    rewrite visited_succ.
    assert (L := visited_length n this physics equations).
    assert (E : skipn (n - maxTrailLength this) (visited n this physics equations) ++
                  [position (ticks n this physics equations)] =
                skipn (n - maxTrailLength this)
                  (visited n this physics equations ++
                     [position (ticks n this physics equations)])).
    { rewrite skipn_app.
      replace (n - maxTrailLength this - length (visited n this physics equations))%nat
        with 0%nat by lia. reflexivity. }
    rewrite E.
    set (l := visited n this physics equations ++ _).
    assert (Ll : length l = S n) by (unfold l; rewrite length_app, L; cbn; lia).
    rewrite length_skipn, Ll.
    destruct (Nat.ltb_spec (maxTrailLength this) (S n - (n - maxTrailLength this)))
      as [Hlt|Hge].
    - rewrite tl_skipn. f_equal. lia.
    - f_equal. lia. }
  split; [exact T|].
  rewrite T, length_skipn, visited_length. lia.
Qed.

Lemma ticks_trail_witness :
  trail (newMarble 0 0) = [] /\
  length (trail (ticks 30 (newMarble 0 0) newPhysicsEngine [flatLine])) = 25%nat.
Proof.
  split; [reflexivity|].
  exact (proj2 (ticks_trail 30 (newMarble 0 0) newPhysicsEngine [flatLine] eq_refl)).
Defined.

(** ** Position *)

Lemma position_antiStall this : position (antiStall this) = position this.
Proof. unfold antiStall. destruct (stalled _); reflexivity. Qed.

Lemma position_update this physics equations :
  position (update this physics equations) =
  let v := velocity (advance this physics equations) in
  let p :=
    match selectPath this physics equations with
    | Some pathData =>
        let bestPoint := pd_closestPoint pathData in
        {| v_x := v_x (position this) +
                  (cp_x bestPoint - v_x (position this)) * pathSnapStrength physics;
           v_y := v_y (position this) +
                  (cp_y bestPoint - v_y (position this)) * pathSnapStrength physics |}
    | None => position this
    end in
  {| v_x := v_x p + v_x v * 1; v_y := v_y p + v_y v * 1 |}.
Proof.
  unfold update. rewrite position_antiStall. unfold advance.
  rewrite selectPath_pushTrail.
  destruct (selectPath this physics equations) as [pathData|]; cbn.
  - rewrite position_pushTrail. reflexivity.
  - rewrite position_pushTrail. reflexivity.
Qed.

(** X6. In a tick the position first moves toward the closest point of
    the selected path by the fraction [pathSnapStrength] (0.3) of the
    gap, in both coordinates, or stays when no path is selected; then the
    velocity of the tick, after friction and before the anti-stall nudge,
    is added to it. The nudge of a tick moves the marble in the next tick
    only. *)
Theorem update_position (this : Marble) (physics : PhysicsEngine)
    (equations : list Equation) :
  let v := velocity (advance this physics equations) in
  let p :=
    match selectPath this physics equations with
    | Some pathData =>
        let bestPoint := pd_closestPoint pathData in
        {| v_x := v_x (position this) +
                  (cp_x bestPoint - v_x (position this)) * pathSnapStrength physics;
           v_y := v_y (position this) +
                  (cp_y bestPoint - v_y (position this)) * pathSnapStrength physics |}
    | None => position this
    end in
  position (update this physics equations) =
    {| v_x := v_x p + v_x v * 1; v_y := v_y p + v_y v * 1 |} /\
  pathSnapStrength newPhysicsEngine = 0.3.
Proof.
  intros v p. split; [apply position_update|reflexivity].
Qed.

(** ** The score without stars *)

Lemma calculatePathScore_collected this marble pathData l :
  filter (fun star => negb (star_collected star)) l = [] ->
  calculatePathScore this marble pathData l = 0.
Proof. intros H. unfold calculatePathScore. rewrite H. reflexivity. Qed.

(** X7. The score of a candidate path is never NaN and never negative,
    whatever the marble, the path and the stars; it is 0 when every star
    is collected (or there is none). *)
Theorem calculatePathScore_sign (this : PhysicsEngine) (marble : Marble)
    (pathData : PathData) (l : list Star) :
  let score := calculatePathScore this marble pathData l in
  (0 <=? score) = true /\
  JS.isNaN score = false /\
  ((forall star, In star l -> star_collected star = true) -> score = 0).
Proof.
  intros score. split; [apply calculatePathScore_nonneg|]. split.
  - apply (leb_true_not_nan 0 score), calculatePathScore_nonneg.
  - intros H. apply calculatePathScore_collected.
    induction l as [|s l IH]; [reflexivity|].
    cbn [filter]. rewrite (H s (or_introl eq_refl)). cbn [negb].
    apply IH. intros star Hin. apply H. right. exact Hin.
Qed.

Lemma fold_bestStep_zero this marble l : forall cs best,
  (forall c, calculatePathScore this marble c l = 0) ->
  fold_left (bestStep this marble l) cs (Some best, 0) = (Some best, 0).
Proof.
  induction cs as [|c cs IH]; intros best H; [reflexivity|].
  cbn [fold_left]. unfold bestStep at 2. rewrite H. cbn [snd].
  change (0 <? 0) with false. cbv iota. apply IH, H.
Qed.

(** X8. When the marble has no uncollected star (its [stars] property is
    undefined, empty, or holds collected stars only), [update] selects the
    first candidate path: the first equation of the list whose closest
    point is nearer than [pathThreshold]. *)
Theorem selectPath_without_stars (this : Marble) (physics : PhysicsEngine)
    (equations : list Equation) :
  filter (fun star => negb (star_collected star))
    (match stars this with Some l => l | None => [] end) = [] ->
  selectPath this physics equations = hd_error (candidatePathsOf this physics equations).
Proof.
  intros H. unfold selectPath.
  set (l := match stars this with Some l => l | None => [] end) in *.
  destruct (candidatePathsOf this physics equations) as [|c0 [|c1 rest]]; try reflexivity.
  unfold findBestPathTowardStars. cbn [fold_left hd_error].
  unfold bestStep at 2 3.
  rewrite !(calculatePathScore_collected physics this _ l H). cbn [snd].
  change (neg_infinity <? 0) with true. cbv iota. cbn [snd].
  change (0 <? 0) with false. cbv iota.
  rewrite fold_bestStep_zero; [reflexivity|].
  intros c. apply calculatePathScore_collected, H.
Qed.

Lemma selectPath_without_stars_witness :
  selectPath (newMarble 0 0) newPhysicsEngine [flatLine; parabola] =
  hd_error (candidatePathsOf (newMarble 0 0) newPhysicsEngine [flatLine; parabola]).
Proof.
  apply (selectPath_without_stars (newMarble 0 0) newPhysicsEngine [flatLine; parabola]).
  reflexivity.
Defined.

(** ** NaN and zero in the arithmetic *)

Lemma sub_diag c : is_finite c = true -> c - c = 0.
Proof.
  rewrite is_finite_spec. intros F. apply Prim2SF_inj. rewrite sub_spec.
  change (Prim2SF 0) with (S754_zero false). unfold SF64sub.
  destruct (Prim2SF c) as [s|s| |s m e]; try discriminate F.
  - destruct s; reflexivity.
  - cbn [SFsub]. zfold. rewrite Z.sub_diag. reflexivity.
Qed.

Lemma frank_finite x : is_finite x = true -> (Z.abs (frank x) < 2 ^ 2100)%Z.
Proof.
  rewrite is_finite_spec. unfold frank. intros F.
  pose proof (Prim2SF_valid x) as V.
  assert (P : (0 < 2 ^ 2100)%Z) by (apply Z.pow_pos_nonneg; lia).
  destruct (Prim2SF x) as [s|s| |s m e]; try discriminate F.
  - cbn [rank SFval]. rewrite Z.abs_0. exact P.
  - change (valid_binary (S754_finite false m e) = true) in V.
    apply mag_bound in V. pose proof pow2098_lt as L.
    cbn [rank SFval]. revert V L. generalize (2 ^ 2098)%Z, (2 ^ 2100)%Z.
    generalize (Z.pos m * 2 ^ (e + 1074))%Z. intros v a b V L.
    destruct s; cbn [cond_Zopp]; lia.
Qed.

(** ** NaN never goes away *)

Lemma nan_update this physics equations :
  let this' := update this physics equations in
  (is_nan (v_x (velocity this)) = true ->
   is_nan (v_x (velocity this')) = true /\ is_nan (v_x (position this')) = true) /\
  (is_nan (v_y (velocity this)) = true ->
   is_nan (v_y (velocity this')) = true /\ is_nan (v_y (position this')) = true) /\
  (is_nan (v_x (position this)) = true -> is_nan (v_x (position this')) = true) /\
  (is_nan (v_y (position this)) = true -> is_nan (v_y (position this')) = true).
Proof.
  intros this'.
  assert (VX : is_nan (v_x (velocity this)) = true ->
               is_nan (v_x (velocity (advance this physics equations))) = true).
  { intros N. rewrite velocity_advance.
    destruct (selectPath this physics equations); cbn [v_x].
    - apply nan_mul. left. apply nan_add. left. apply nan_mul. auto.
    - apply nan_mul. left. apply nan_mul. auto. }
  assert (VY : is_nan (v_y (velocity this)) = true ->
               is_nan (v_y (velocity (advance this physics equations))) = true).
  { intros N. rewrite velocity_advance.
    destruct (selectPath this physics equations); cbn [v_y].
    - apply nan_mul. left. apply nan_add. left. apply nan_add. left. apply nan_mul. auto.
    - apply nan_mul. left. apply nan_mul. left. apply nan_add. auto. }
  assert (V : velocity this' =
              if stalled (velocity (advance this physics equations))
              then nudge (velocity (advance this physics equations))
              else velocity (advance this physics equations)).
  { unfold this', update. apply velocity_antiStall. }
  assert (P := position_update this physics equations). fold this' in P. cbv zeta in P.
  split; [intros H; split|split; [intros H; split|split; intros H]].
  - rewrite V. destruct (stalled _); [|apply VX, H].
    cbn [nudge v_x]. apply nan_add. left. apply VX, H.
  - rewrite P. cbn [v_x]. apply nan_add. right. apply nan_mul. left. apply VX, H.
  - rewrite V. destruct (stalled _); apply VY, H.
  - rewrite P. cbn [v_y]. apply nan_add. right. apply nan_mul. left. apply VY, H.
  - rewrite P. cbn [v_x]. apply nan_add. left.
    destruct (selectPath this physics equations); [|exact H].
    cbn [v_x]. apply nan_add. auto.
  - rewrite P. cbn [v_y]. apply nan_add. left.
    destruct (selectPath this physics equations); [|exact H].
    cbn [v_y]. apply nan_add. auto.
Qed.

Lemma nan_ticks n this physics equations :
  let this' := ticks n this physics equations in
  (is_nan (v_x (velocity this)) = true -> is_nan (v_x (velocity this')) = true) /\
  (is_nan (v_y (velocity this)) = true -> is_nan (v_y (velocity this')) = true) /\
  (is_nan (v_x (position this)) = true -> is_nan (v_x (position this')) = true) /\
  (is_nan (v_y (position this)) = true -> is_nan (v_y (position this')) = true).
Proof.
  induction n as [|n IH]; [cbn [ticks]; auto|].
  cbn [ticks]. cbv zeta in *. destruct IH as (I1 & I2 & I3 & I4).
  destruct (nan_update (ticks n this physics equations) physics equations)
    as (U1 & U2 & U3 & U4).
  repeat split; intros H.
  - apply U1, I1, H.
  - apply U2, I2, H.
  - apply U3, I3, H.
  - apply U4, I4, H.
Qed.

(** X9. A NaN coordinate never recovers: if a component of the velocity
    is NaN, it is NaN after any number of ticks, and the same component of
    the position is NaN from the next tick on; if a component of the
    position is NaN, it is NaN after any number of ticks. This holds for
    every engine and every list of equations. *)
Theorem ticks_nan (n : nat) (this : Marble) (physics : PhysicsEngine)
    (equations : list Equation) :
  let this' := ticks n this physics equations in
  let next := ticks (S n) this physics equations in
  (is_nan (v_x (velocity this)) = true ->
   is_nan (v_x (velocity this')) = true /\ is_nan (v_x (position next)) = true) /\
  (is_nan (v_y (velocity this)) = true ->
   is_nan (v_y (velocity this')) = true /\ is_nan (v_y (position next)) = true) /\
  (is_nan (v_x (position this)) = true -> is_nan (v_x (position this')) = true) /\
  (is_nan (v_y (position this)) = true -> is_nan (v_y (position this')) = true).
Proof.
  intros this' next.
  destruct (nan_ticks n this physics equations) as (A1 & A2 & A3 & A4).
  fold this' in A1, A2, A3, A4.
  destruct (nan_update this' physics equations) as (U1 & U2 & _).
  split; [intros H; split; [apply A1, H|apply U1, A1, H]|].
  split; [intros H; split; [apply A2, H|apply U2, A2, H]|].
  split; assumption.
Qed.

(** ** A marble at a NaN position *)

Lemma infinity_not_below t : (infinity <? t) = false.
Proof.
  destruct (is_nan t) eqn:N; [apply ltb_nan_r, N|].
  rewrite ltb_frank by (try exact N; reflexivity).
  apply Z.ltb_ge. change (frank infinity) with (2 ^ 2100)%Z.
  destruct (is_finite t) eqn:F.
  - pose proof (frank_finite t F) as B. revert B.
    generalize (2 ^ 2100)%Z, (frank t). intros; lia.
  - unfold frank. rewrite is_finite_spec in F. rewrite is_nan_spec in N.
    destruct (Prim2SF t) as [s|s| |s m e]; try discriminate.
    assert (0 < 2 ^ 2100)%Z by (apply Z.pow_pos_nonneg; lia).
    destruct s; cbn [rank cond_Zopp]; lia.
Qed.

Lemma leastFrom_nan {A : Type} (key : A -> float) (l : list A) best least :
  (forall a, In a l -> is_nan (key a) = true) ->
  leastFrom key l best least = (best, least).
Proof.
  revert best least. induction l as [|a l IH]; intros best least H; [reflexivity|].
  cbn [leastFrom]. rewrite ltb_nan_l by (apply H; left; reflexivity).
  apply IH. intros a' Ha. apply H. right. exact Ha.
Qed.

Lemma distance_nan a b c d :
  is_nan c = true \/ is_nan d = true ->
  is_nan (JS.Math_sqrt (JS.sq (a - c) + JS.sq (b - d))) = true.
Proof.
  intros H. unfold JS.Math_sqrt, JS.sq. apply nan_sqrt, nan_add.
  destruct H as [H|H]; [left|right]; apply nan_mul; left; apply nan_sub; auto.
Qed.

Lemma findClosestPointOnPath_nan this equation searchRadius threshold :
  is_nan (v_x (position this)) = true \/ is_nan (v_y (position this)) = true ->
  match findClosestPointOnPath this equation searchRadius with
  | Some closestPoint => (cp_distance closestPoint <? threshold) = false
  | None => True
  end.
Proof.
  intros H. unfold findClosestPointOnPath.
  assert (Y : match findClosestPointExplicitY this equation searchRadius with
              | Some closestPoint => (cp_distance closestPoint <? threshold) = false
              | None => True
              end).
  { rewrite findClosestPointExplicitY_least. cbv zeta. unfold firstLeast.
    rewrite leastFrom_nan.
    - cbn [stateOf fst snd closestArg minDistance].
      destruct (evaluate equation _); [|exact I]. apply infinity_not_below.
    - intros s _. apply distance_nan, H. }
  destruct (eq_type equation); try exact Y; try exact I.
  - unfold findClosestPointExplicitX. cbv zeta. rewrite scanLoop_fold.
    change (mkScanState (v_y (position this)) JS.Infinity)
      with (stateOf (v_y (position this)) (None, infinity)).
    rewrite fold_scanBodyX, leastFrom_nan.
    + cbn [stateOf fst snd closestArg minDistance].
      destruct (evaluate equation _); [|exact I]. apply infinity_not_below.
    + intros s _. unfold sampleDistanceX. apply distance_nan, H.
  - unfold findClosestPointImplicit.
    destruct (getPoints equation _ _ _ _ _) as [|p0 rest]; [exact I|].
    rewrite closestOfPoints_least. cbv zeta. rewrite leastFrom_nan.
    + cbn [fst snd cp_distance]. apply ltb_nan_l. unfold distanceTo. apply distance_nan, H.
    + intros p _. unfold distanceTo. apply distance_nan, H.
Qed.

Lemma selectPath_nan this physics equations :
  is_nan (v_x (position this)) = true \/ is_nan (v_y (position this)) = true ->
  selectPath this physics equations = None.
Proof.
  intros H. unfold selectPath.
  replace (candidatePathsOf this physics equations) with (@nil PathData); [reflexivity|].
  symmetry. unfold candidatePathsOf.
  induction equations as [|equation rest IH]; [reflexivity|].
  cbn [flat_map]. rewrite IH, app_nil_r.
  pose proof (findClosestPointOnPath_nan this equation default_searchRadius
                (pathThreshold this) H) as F.
  destruct (findClosestPointOnPath this equation default_searchRadius); [|reflexivity].
  rewrite F. reflexivity.
Qed.

(** X27. A marble with a NaN coordinate in its position is never on a
    path: no equation of any type becomes a candidate, so [update] takes
    the free-fall branch. As the coordinate stays NaN, this holds at every
    later tick too: [onPath] is false and [currentEquation] is [null]
    after each of them, and [timeOffPath] grows by one with every tick. *)
Theorem ticks_nan_position (n : nat) (this : Marble) (physics : PhysicsEngine)
    (equations : list Equation) :
  JS.isNaN (v_x (position this)) || JS.isNaN (v_y (position this)) = true ->
  selectPath this physics equations = None /\
  onPath (ticks (S n) this physics equations) = false /\
  currentEquation (ticks (S n) this physics equations) = None /\
  timeOffPath (ticks n this physics equations) = (timeOffPath this + n)%nat.
Proof.
  unfold JS.isNaN. intros H. apply orb_true_iff in H.
  assert (N : forall k, is_nan (v_x (position (ticks k this physics equations))) = true \/
                        is_nan (v_y (position (ticks k this physics equations))) = true).
  { intros k. destruct (nan_ticks k this physics equations) as (_ & _ & P1 & P2).
    destruct H as [H|H]; [left; apply P1, H|right; apply P2, H]. }
  assert (S : forall k,
            onPath (ticks (S k) this physics equations) = false /\
            currentEquation (ticks (S k) this physics equations) = None /\
            timeOffPath (ticks (S k) this physics equations) =
              S (timeOffPath (ticks k this physics equations))).
  { intros k. cbn [ticks]. unfold update.
    destruct (path_state_antiStall
                (advance (ticks k this physics equations) physics equations))
      as (-> & -> & ->).
    pose proof (path_state_advance (ticks k this physics equations) physics equations) as A.
    cbv zeta in A. rewrite (selectPath_nan _ physics equations (N k)) in A. exact A. }
  split; [apply selectPath_nan, H|]. split; [apply S|]. split; [apply S|].
  induction n as [|n IH]; [cbn [ticks]; lia|].
  destruct (S n) as (_ & _ & ->). rewrite IH. lia.
Qed.

Lemma ticks_nan_position_witness :
  selectPath (update restingMarble newPhysicsEngine [steepStep]) newPhysicsEngine
    [steepStep; flatLine] = None.
Proof.
  refine (proj1 (ticks_nan_position 0 (update restingMarble newPhysicsEngine [steepStep])
                   newPhysicsEngine [steepStep; flatLine] _)).
  vm_compute. reflexivity.
Defined.

(** ** Collisions *)

(** X10. [checkCollision] reports no collision whenever a coordinate of
    the marble or of the star, or one of the two radii, is NaN. *)
Theorem checkCollision_nan (marble : Marble) (star : Star) :
  JS.isNaN (v_x (position marble)) || JS.isNaN (v_y (position marble)) ||
  JS.isNaN (star_x star) || JS.isNaN (star_y star) ||
  JS.isNaN (radius marble) || JS.isNaN (star_radius star) = true ->
  checkCollision marble star = false.
Proof.
  unfold JS.isNaN, checkCollision, JS.Math_sqrt. cbv zeta. intros H.
  repeat (apply orb_true_iff in H; destruct H as [H|H]).
  - apply ltb_nan_l, nan_sqrt, nan_add. left. apply nan_mul. left. apply nan_sub. auto.
  - apply ltb_nan_l, nan_sqrt, nan_add. right. apply nan_mul. left. apply nan_sub. auto.
  - apply ltb_nan_l, nan_sqrt, nan_add. left. apply nan_mul. left. apply nan_sub. auto.
  - apply ltb_nan_l, nan_sqrt, nan_add. right. apply nan_mul. left. apply nan_sub. auto.
  - apply ltb_nan_r, nan_add. auto.
  - apply ltb_nan_r, nan_add. auto.
Qed.

Lemma checkCollision_nan_witness :
  checkCollision (update restingMarble newPhysicsEngine [steepStep])
    {| star_x := 1; star_y := 0; star_radius := 0.3; star_collected := false |} = false.
Proof.
  apply checkCollision_nan. vm_compute. reflexivity.
Defined.

(** ** Constant equations *)

(** X11. For an equation whose [evaluate] returns the same value
    everywhere (finite or not), [calculateDerivative] and
    [calculateDerivativeX] return 0 at every point, and on the engine of
    the constructor the path velocity of such an equation of a type other
    than implicit is exactly [(0.12, 0)]: a marble on a horizontal line
    [y = c], and also one on a vertical line [x = c], is driven to the
    right. *)
Theorem calculatePathVelocity_constant (equation : Equation) (c x : float) :
  (forall t, evaluate equation t = Some c) ->
  calculateDerivative equation x default_h = 0 /\
  calculateDerivativeX equation x default_h = 0 /\
  (eq_type equation <> implicit ->
   calculatePathVelocity newPhysicsEngine equation x None = {| v_x := 0.12; v_y := 0 |}).
Proof.
  intros H.
  assert (D : (if unusable c c then 0 else (c - c) / default_h) = 0).
  { rewrite unusable_spec. destruct (JS.isFinite c) eqn:F; [|reflexivity].
    cbn [negb orb]. unfold JS.isFinite in F. rewrite (sub_diag c F). reflexivity. }
  assert (D1 : calculateDerivative equation x default_h = 0).
  { unfold calculateDerivative. rewrite !H. exact D. }
  assert (D2 : forall y, calculateDerivativeX equation y default_h = 0).
  { intros y. unfold calculateDerivativeX. rewrite !H. exact D. }
  split; [exact D1|]. split; [apply D2|].
  intros Ht. unfold calculatePathVelocity.
  destruct (eq_type equation); try congruence.
  - rewrite D1. reflexivity.
  - rewrite H, D2. reflexivity.
  - rewrite D1. reflexivity.
  - reflexivity.
Qed.

Lemma calculatePathVelocity_constant_witness :
  calculatePathVelocity newPhysicsEngine constantOne 3 None = {| v_x := 0.12; v_y := 0 |}.
Proof.
  refine (proj2 (proj2 (calculatePathVelocity_constant constantOne 1 3 _)) _).
  - intros t. reflexivity.
  - discriminate.
Defined.

(** ** The x component of the path velocity *)

Lemma SFadd_signed mx ex y :
  SFsigned false y -> SFsigned false (SF64add (S754_finite false mx ex) y).
Proof.
  unfold SF64add. intros [->|[->|(my & ey & ->)]]; cbn [SFadd].
  - right. right. eauto.
  - right. left. reflexivity.
  - cbn [cond_Zopp]. zfold.
    set (a := Zpos (fst (shl_align mx ex (Z.min ex ey)))).
    set (b := Zpos (fst (shl_align my ey (Z.min ex ey)))).
    assert (H : (a + b)%Z <> 0%Z) by (unfold a, b; lia).
    pose proof (binary_normalize_signed (a + b) (Z.min ex ey) H) as S.
    replace ((a + b <? 0)%Z) with false in S by (symmetry; apply Z.ltb_ge; unfold a, b; lia).
    exact S.
Qed.

Lemma SFdiv_signed mx ex y :
  SFsigned false y -> SFsigned false (SF64div (S754_finite false mx ex) y).
Proof.
  unfold SF64div. intros [->|[->|(my & ey & ->)]]; cbn [SFdiv xorb].
  - right. left. reflexivity.
  - left. reflexivity.
  - pose proof (SFdiv_core_nonneg mx ex my ey) as H.
    destruct (SFdiv_core_binary prec emax (Zpos mx) ex (Zpos my) ey) as [[mz ez] lz].
    cbn [fst] in H. apply binary_round_aux_signed, H.
Qed.

Lemma div_of_finite_not_nan s m :
  is_finite s = true -> is_zero s = false -> is_nan m = false -> is_nan (s / m) = false.
Proof.
  rewrite is_finite_spec, !is_nan_spec, div_spec.
  unfold is_zero. rewrite eqb_spec. change (Prim2SF zero) with (S754_zero false).
  intros F Z N.
  destruct (Prim2SF s) as [ss|ss| |ss ms es]; try discriminate F.
  - destruct ss; discriminate Z.
  - destruct (Prim2SF m) as [sm|sm| |sm mm em]; try discriminate N; try reflexivity.
    apply SFdiv_not_nan. reflexivity.
Qed.

Lemma difference_not_nan y1 y2 :
  is_nan (if unusable y1 y2 then 0 else (y2 - y1) / default_h) = false.
Proof.
  rewrite unusable_spec.
  destruct (negb (JS.isFinite y1) || negb (JS.isFinite y2)) eqn:U; [reflexivity|].
  apply orb_false_iff in U. destruct U as [U1 U2].
  apply negb_false_iff in U1, U2. unfold JS.isFinite in U1, U2.
  unfold default_h. apply div_not_nan; try reflexivity.
  apply sub_finite_not_nan; assumption.
Qed.

Lemma calculateDerivative_not_nan equation x :
  is_nan (calculateDerivative equation x default_h) = false.
Proof.
  unfold calculateDerivative.
  destruct (evaluate equation _); [|reflexivity].
  destruct (evaluate equation _); [|reflexivity].
  apply difference_not_nan.
Qed.

Lemma calculateDerivativeX_not_nan equation y :
  is_nan (calculateDerivativeX equation y default_h) = false.
Proof.
  unfold calculateDerivativeX.
  destruct (evaluate equation _); [|reflexivity].
  destruct (evaluate equation _); [|reflexivity].
  apply difference_not_nan.
Qed.

(** [speed / sqrt(1 + d * d)] for a positive speed. *)
Lemma tangent_x_nonneg speed d :
  (0 <? speed) = true -> is_finite speed = true -> is_nan d = false ->
  (0 <=? speed / JS.Math_sqrt (1 + d * d)) = true.
Proof.
  intros P F N. destruct (pos_finite_spec speed P F) as (ms & es & Es).
  rewrite is_nan_spec in N.
  rewrite leb_zero_spec. unfold JS.Math_sqrt.
  rewrite div_spec, sqrt_spec, add_spec, mul_spec, Es.
  change (Prim2SF 1) with (S754_finite false 4503599627370496 (-52)).
  apply SFsigned_nonneg, SFdiv_signed, SFsqrt_signed, SFadd_signed, SFmul_self_signed, N.
Qed.

Lemma pathVelocity_x_nonneg this equation x :
  eq_type equation <> implicit ->
  (0 <? pathFollowSpeed this) = true ->
  is_finite (pathFollowSpeed this) = true ->
  (0 <=? v_x (calculatePathVelocity this equation x None)) = true.
Proof.
  intros Ht P F. unfold calculatePathVelocity.
  destruct (eq_type equation); try congruence; cbn [v_x].
  - apply tangent_x_nonneg; try assumption. apply calculateDerivative_not_nan.
  - destruct (evaluate equation x) as [y|]; [|reflexivity]. cbn [v_x].
    apply tangent_x_nonneg; try assumption.
    destruct (JS.strict_neq _ 0); [|reflexivity].
    apply div_of_finite_not_nan; try reflexivity.
    apply calculateDerivativeX_not_nan.
  - apply tangent_x_nonneg; try assumption. apply calculateDerivative_not_nan.
  - apply ltb_zero_nonneg, P.
Qed.


(** X26. For an equation of any type but implicit, on an engine whose
    [pathFollowSpeed] is positive and finite (0.12 for the constructor's),
    the x component of the path velocity is never NaN and never negative,
    whatever the curve and the point: path following never drives a
    marble to the left on such a curve. The y component can be NaN. *)
Theorem calculatePathVelocity_x_nonneg (this : PhysicsEngine) (equation : Equation)
    (x : float) :
  eq_type equation <> implicit ->
  (0 <? pathFollowSpeed this) = true ->
  JS.isFinite (pathFollowSpeed this) = true ->
  let v := calculatePathVelocity this equation x None in
  (0 <=? v_x v) = true /\ JS.isNaN (v_x v) = false.
Proof.
  intros Ht P F v. unfold JS.isFinite in F. unfold JS.isNaN.
  assert (H : (0 <=? v_x v) = true) by (apply pathVelocity_x_nonneg; assumption).
  split; [exact H|apply (leb_true_not_nan _ _ H)].
Qed.

Lemma calculatePathVelocity_x_nonneg_witness :
  (0 <=? v_x (calculatePathVelocity newPhysicsEngine steepStep 0.998 None)) = true /\
  JS.isNaN (v_y (calculatePathVelocity newPhysicsEngine steepStep 0.998 None)) = true.
Proof.
  split; [|vm_compute; reflexivity].
  apply (calculatePathVelocity_x_nonneg newPhysicsEngine steepStep 0.998);
    [discriminate|reflexivity|reflexivity].
Defined.

(** ** The sign of [velocity.x] over successive ticks *)

Lemma update_velocity_x_nonneg this physics equations :
  (forall equation, In equation equations -> eq_type equation <> implicit) ->
  (0 <? pathFollowSpeed physics) = true -> is_finite (pathFollowSpeed physics) = true ->
  (0 <? friction physics) = true -> is_finite (friction physics) = true ->
  (0 <=? v_x (velocity this)) = true ->
  (0 <=? v_x (velocity (update this physics equations))) = true.
Proof.
  intros Ht P F Pf Ff H.
  assert (A : (0 <=? v_x (velocity (advance this physics equations))) = true).
  { rewrite velocity_advance.
    destruct (selectPath this physics equations) as [pathData|] eqn:S; cbn [v_x].
    - apply mul_nonneg; try assumption. apply add_nonneg.
      + apply mul_nonneg; [exact H| |]; destruct (onPath this); reflexivity.
      + apply mul_nonneg; [|destruct (onPath this); reflexivity
                           |destruct (onPath this); reflexivity].
        apply pathVelocity_x_nonneg; try assumption.
        apply Ht, (selectPath_some _ _ _ _ S).
    - apply mul_nonneg; try assumption.
      apply mul_nonneg; [exact H|reflexivity|reflexivity]. }
  unfold update. rewrite velocity_antiStall.
  destruct (stalled _); [|exact A].
  cbn [nudge v_x]. apply add_nonneg; [exact A|reflexivity].
Qed.

(** The sign of [velocity.x] says nothing of where the marble goes: on
    the line [y = 3x], from (0.75, 0), the marble is on the path after each
    of the first seven ticks and its [velocity.x] is positive, yet its [x]
    falls in each of them, from 0.75 to 0.2966: the snap toward the
    closest point outweighs the velocity. *)
Example snap_moves_left :
  let m n := ticks n (newMarble 0.75 0) newPhysicsEngine [steepLine] in
  forallb (fun n => onPath (m (S n)) &&
                    (0 <? v_x (velocity (m (S n)))) &&
                    (v_x (position (m (S n))) <? v_x (position (m n))))
    (seq 0 7) = true.
Proof. vm_compute. reflexivity. Qed.

(** X28. [velocity.x] never becomes negative: when no equation of the
    list is implicit and the engine has a positive finite
    [pathFollowSpeed] and a positive finite [friction] (as the
    constructor's engine has), a marble whose [velocity.x] is not negative
    (0.05 after the constructor or [reset]) has a [velocity.x] that is
    neither negative nor NaN after any number of ticks, on a path or off
    it. This is a fact about the velocity only: [position.x] can still
    decrease while the marble follows a path, by the snap toward the
    closest point. *)
Theorem ticks_velocity_x_nonneg (n : nat) (this : Marble) (physics : PhysicsEngine)
    (equations : list Equation) :
  (forall equation, In equation equations -> eq_type equation <> implicit) ->
  (0 <? pathFollowSpeed physics) = true -> JS.isFinite (pathFollowSpeed physics) = true ->
  (0 <? friction physics) = true -> JS.isFinite (friction physics) = true ->
  (0 <=? v_x (velocity this)) = true ->
  (0 <=? v_x (velocity (ticks n this physics equations))) = true.
Proof.
  unfold JS.isFinite. intros Ht P F Pf Ff H.
  induction n as [|n IH]; [exact H|].
  cbn [ticks]. apply update_velocity_x_nonneg; assumption.
Qed.

Lemma ticks_velocity_x_nonneg_witness :
  onPath (ticks 7 (newMarble 0.75 0) newPhysicsEngine [steepLine]) = true /\
  (0 <=? v_x (velocity (ticks 7 (newMarble 0.75 0) newPhysicsEngine [steepLine]))) = true.
Proof.
  split; [vm_compute; reflexivity|].
  apply ticks_velocity_x_nonneg; try reflexivity.
  intros equation [<-|[]]; discriminate.
Defined.

(** ** Lookahead samples of a curve [x = f(y)] *)

Lemma length_flat_map_le {A B : Type} (g : A -> list B) (k : nat) (l : list A) :
  (forall a, (length (g a) <= k)%nat) ->
  (length (flat_map g l) <= k * length l)%nat.
Proof.
  intros H. induction l as [|a l IH]; [cbn; lia|].
  cbn [flat_map]. rewrite length_app. cbn [length]. specialize (H a). lia.
Qed.

(** X12. For an explicit-x equation [samplePathPoints] returns at most
    [numSamples + 1] points. Each is [(f(y), y)] for one of the ordinates
    [y = -10 + i * (distance / numSamples)], [0 <= i <= numSamples], so the
    ordinates start at -10 whatever [startX] is; [f(y)] is finite and lies
    in [[startX, startX + distance]]. *)
Theorem samplePathPoints_explicit_x (equation : Equation) (startX distance : float)
    (numSamples : nat) :
  eq_type equation = explicit_x ->
  let points := samplePathPoints equation startX distance numSamples in
  (length points <= S numSamples)%nat /\
  forall p, In p points ->
    (exists i, (i <= numSamples)%nat /\
       v_y p = -10 + JS.of_nat i * (distance / JS.of_nat numSamples)) /\
    evaluate equation (v_y p) = Some (v_x p) /\
    JS.isFinite (v_x p) = true /\
    (startX <=? v_x p) = true /\ (v_x p <=? startX + distance) = true.
Proof.
  intros Ht points. unfold points, samplePathPoints. rewrite Ht. split.
  - match goal with |- (length (flat_map ?g ?l) <= _)%nat =>
      pose proof (length_flat_map_le g 1 l) as L end.
    rewrite length_seq in L. rewrite Nat.mul_1_l in L. apply L.
    intros i. unfold sampleExplicitX.
    destruct (evaluate equation _); [|cbn; lia].
    destruct (_ && _); cbn; lia.
  - intros p Hin. apply in_flat_map in Hin. destruct Hin as (i & Hi & Hin).
    apply in_seq in Hi. unfold sampleExplicitX in Hin.
    destruct (evaluate equation _) as [x|] eqn:Ex; [|destruct Hin].
    destruct (_ && _) eqn:U; [|destruct Hin].
    destruct Hin as [<-|[]]. cbn [v_x v_y].
    apply andb_prop in U. destruct U as [U U3].
    apply andb_prop in U. destruct U as [U U2].
    apply andb_prop in U. destruct U as [_ U1].
    repeat split; try assumption. exists i. split; [lia|reflexivity].
Qed.

Lemma samplePathPoints_explicit_x_witness :
  (length (samplePathPoints sidewaysParabola 0 5 20) <= 21)%nat.
Proof.
  exact (proj1 (samplePathPoints_explicit_x sidewaysParabola 0 5 20 eq_refl)).
Defined.

(** * Properties of the parser's equations *)

(** ** The points of an implicit curve *)

Lemma implicitGetPoints_tolerance f xMin xMax yMin yMax resolution p :
  In p (implicitGetPoints f xMin xMax yMin yMax resolution) ->
  (JS.Math_abs (f (v_x p) (v_y p)) <=? 0.1) = true.
Proof.
  unfold implicitGetPoints. cbv zeta.
  intros Hin. apply in_flat_map in Hin. destruct Hin as (i & _ & Hin).
  apply in_flat_map in Hin. destruct Hin as (j & _ & Hin).
  destruct (hasZeroCrossing _ _ _ _ _); [|destruct Hin].
  destruct (findZeroCrossing _ _ _ _ _ _) as [q|] eqn:Z; [|destruct Hin].
  destruct Hin as [<-|[]]. unfold findZeroCrossing in Z.
  apply find_some in Z. apply Z.
Qed.

(** X13. Every point that [getPoints] of an implicit equation
    [f(x, y) = 0] returns satisfies [|f(x, y)| <= 0.1] (so [f] is not NaN
    there), and there is at most one point for each cell of the grid:
    at most [resolution * resolution] points. *)
Theorem implicitGetPoints_spec (f : float -> float -> float)
    (xMin xMax yMin yMax : float) (resolution : nat) :
  let points := implicitGetPoints f xMin xMax yMin yMax resolution in
  (forall p, In p points -> (JS.Math_abs (f (v_x p) (v_y p)) <=? 0.1) = true) /\
  (length points <= resolution * resolution)%nat.
Proof.
  intros points. split; [intros p; apply implicitGetPoints_tolerance|].
  unfold points, implicitGetPoints. cbv zeta.
  match goal with |- (length (flat_map ?g ?l) <= _)%nat =>
    pose proof (length_flat_map_le g resolution l) as L end.
  rewrite length_seq in L. apply L. intros i.
  match goal with |- (length (flat_map ?g ?l) <= _)%nat =>
    pose proof (length_flat_map_le g 1 l) as L' end.
  rewrite length_seq, Nat.mul_1_l in L'. apply L'. intros j.
  destruct (hasZeroCrossing _ _ _ _ _); [|cbn; lia].
  destruct (findZeroCrossing _ _ _ _ _ _); cbn; lia.
Qed.

(** X15. The closest point that [findClosestPointOnPath] returns for an
    implicit equation [f(x, y) = 0] built by the parser satisfies
    [|f(x, y)| <= 0.1]; the result is [null] exactly when the sampling
    grid around the marble finds no point. *)
Theorem findClosestPointOnPath_implicit (marble : Marble) (f : float -> float -> float)
    (searchRadius : float) :
  let marbleX := v_x (position marble) in
  let marbleY := v_y (position marble) in
  match findClosestPointOnPath marble (implicitEquation f) searchRadius with
  | Some cp => (JS.Math_abs (f (cp_x cp) (cp_y cp)) <=? 0.1) = true
  | None =>
      implicitGetPoints f (marbleX - searchRadius) (marbleX + searchRadius)
        (marbleY - searchRadius) (marbleY + searchRadius) 50 = []
  end.
Proof.
  intros marbleX marbleY.
  change (findClosestPointOnPath marble (implicitEquation f) searchRadius)
    with (findClosestPointImplicit marble (implicitEquation f) searchRadius).
  unfold findClosestPointImplicit. fold marbleX marbleY.
  change (getPoints (implicitEquation f)) with (implicitGetPoints f).
  set (points := implicitGetPoints f _ _ _ _ _).
  assert (T : forall p, In p points -> (JS.Math_abs (f (v_x p) (v_y p)) <=? 0.1) = true).
  { intros p. apply implicitGetPoints_tolerance. }
  destruct points as [|p0 rest]; [reflexivity|].
  pose proof (closestOfPoints_member marbleX marbleY rest p0
                (distanceTo marbleX marbleY p0)) as M.
  destruct (closestOfPoints marbleX marbleY rest p0 (distanceTo marbleX marbleY p0))
    as [c d]. cbn [fst] in M. cbn [cp_x cp_y]. apply T, M.
Qed.

(** ** Piecewise equations *)

(** X16. For a piecewise equation built by the parser
    [findClosestPointOnPath] never returns [null]. When the distance it
    returns is below [Infinity], the point lies on the branch: [x]
    satisfies the condition, and [y] is the finite value of the expression
    at [x]. Otherwise the distance is [Infinity] and [x] is the marble's
    own [x], whether it satisfies the condition or not. *)
Theorem findClosestPointOnPath_piecewise (marble : Marble)
    (compiled : float -> option float) (condition : Condition) (searchRadius : float) :
  match findClosestPointOnPath marble (piecewiseEquation compiled condition) searchRadius with
  | Some cp =>
      cp_y cp = piecewiseEvaluate compiled condition (cp_x cp) /\
      (((cp_distance cp <? infinity) = true /\
        checkCondition (cp_x cp) condition = true /\
        compiled (cp_x cp) = Some (cp_y cp) /\
        JS.isFinite (cp_y cp) = true) \/
       (cp_distance cp = infinity /\ cp_x cp = v_x (position marble)))
  | None => False
  end.
Proof.
  change (findClosestPointOnPath marble (piecewiseEquation compiled condition) searchRadius)
    with (findClosestPointExplicitY marble (piecewiseEquation compiled condition) searchRadius).
  rewrite findClosestPointExplicitY_least. cbv zeta.
  set (marbleX := v_x (position marble)). set (marbleY := v_y (position marble)).
  set (samples := scanSamples marble _ searchRadius).
  cbn [evaluate piecewiseEquation]. cbn [cp_x cp_y cp_distance].
  split; [reflexivity|].
  unfold firstLeast.
  destruct (leastFrom_spec (sampleDistance marbleX marbleY) samples None infinity)
    as [[R _]|(l1 & s & l2 & El & R & Hs & _)]; rewrite R;
    cbn [stateOf fst snd closestArg minDistance].
  - right. auto.
  - left. destruct s as [x y]. cbn [fst].
    assert (Hin : In (x, y) samples) by (rewrite El; apply in_elt).
    unfold samples, scanSamples in Hin. apply in_flat_map in Hin.
    destruct Hin as (x' & _ & Hin). unfold sampleAt in Hin.
    cbn [evaluate piecewiseEquation] in Hin.
    destruct (negb (JS.isNaN (piecewiseEvaluate compiled condition x')) &&
              JS.isFinite (piecewiseEvaluate compiled condition x')) eqn:U; [|destruct Hin].
    destruct Hin as [Hin|[]]. injection Hin as -> <-.
    apply andb_prop in U. destruct U as [_ U].
    split; [exact Hs|].
    unfold piecewiseEvaluate in *. destruct (checkCondition x condition); [|discriminate U].
    split; [reflexivity|]. unfold guardedEvaluate in *.
    destruct (compiled x); [|discriminate U]. auto.
Qed.

(** X17. Where the condition of a piecewise equation fails at [x - 0.005]
    or at [x + 0.005], [calculateDerivative] returns 0 at [x], and the path
    velocity on the engine of the constructor is [(0.12, 0)]: at the edge
    of its domain the curve is followed as if it were flat. *)
Theorem calculateDerivative_piecewise (compiled : float -> option float)
    (condition : Condition) (x : float) :
  checkCondition (x - 0.005) condition && checkCondition (x + 0.005) condition = false ->
  calculateDerivative (piecewiseEquation compiled condition) x default_h = 0 /\
  calculatePathVelocity newPhysicsEngine (piecewiseEquation compiled condition) x None =
    {| v_x := 0.12; v_y := 0 |}.
Proof.
  intros H.
  assert (D : calculateDerivative (piecewiseEquation compiled condition) x default_h = 0).
  { unfold calculateDerivative. rewrite half_default_h.
    cbn [evaluate piecewiseEquation]. unfold piecewiseEvaluate.
    apply andb_false_iff in H. destruct H as [-> | ->].
    - reflexivity.
    - unfold unusable. change (JS.isNaN JS.NaN) with true. rewrite orb_true_r. reflexivity. }
  split; [exact D|].
  unfold calculatePathVelocity. cbn [eq_type piecewiseEquation]. rewrite D. reflexivity.
Qed.

Lemma calculateDerivative_piecewise_witness :
  calculateDerivative rightBranchParsed 5 default_h = 0.
Proof.
  refine (proj1 (calculateDerivative_piecewise _ _ 5 _)). reflexivity.
Defined.

(** ** Minimum and maximum of finite values *)

Lemma leb_trans a b c : (a <=? b) = true -> (b <=? c) = true -> (a <=? c) = true.
Proof.
  rewrite !leb_le. intros (Na & Nb & H1) (_ & Nc & H2). repeat split; try assumption. lia.
Qed.

Lemma Math_min_cases a b :
  is_nan a = false -> is_nan b = false ->
  (JS.Math_min a b = a \/ JS.Math_min a b = b) /\
  (JS.Math_min a b <=? a) = true /\ (JS.Math_min a b <=? b) = true.
Proof.
  intros Na Nb. unfold JS.Math_min. rewrite Na, Nb. cbn [orb].
  destruct (a <? b) eqn:L1.
  - split; [left; reflexivity|]. split; [apply leb_refl, Na|apply ltb_leb, L1].
  - destruct (b <? a) eqn:L2.
    + split; [right; reflexivity|]. split; [apply ltb_leb, L2|apply leb_refl, Nb].
    + apply not_ltb_leb in L1, L2; try assumption.
      destruct (get_sign a).
      * split; [left; reflexivity|]. split; [apply leb_refl, Na|exact L2].
      * split; [right; reflexivity|]. split; [exact L1|apply leb_refl, Nb].
Qed.

Lemma Math_max_cases a b :
  is_nan a = false -> is_nan b = false ->
  (JS.Math_max a b = a \/ JS.Math_max a b = b) /\
  (a <=? JS.Math_max a b) = true /\ (b <=? JS.Math_max a b) = true.
Proof.
  intros Na Nb. unfold JS.Math_max. rewrite Na, Nb. cbn [orb].
  destruct (a <? b) eqn:L1.
  - split; [right; reflexivity|]. split; [apply ltb_leb, L1|apply leb_refl, Nb].
  - destruct (b <? a) eqn:L2.
    + split; [left; reflexivity|]. split; [apply leb_refl, Na|apply ltb_leb, L2].
    + apply not_ltb_leb in L1, L2; try assumption.
      destruct (get_sign a).
      * split; [right; reflexivity|]. split; [exact L2|apply leb_refl, Nb].
      * split; [left; reflexivity|]. split; [apply leb_refl, Na|exact L1].
Qed.

Lemma fold_Math_min vs : forall init,
  is_nan init = false -> (forall v, In v vs -> is_nan v = false) ->
  let m := fold_left JS.Math_min vs init in
  In m (init :: vs) /\ forall v, In v (init :: vs) -> (m <=? v) = true.
Proof.
  induction vs as [|v vs IH]; intros init Ni Nv.
  - cbn. split; [auto|]. intros v [<-|[]]. apply leb_refl, Ni.
  - cbn [fold_left].
    assert (Nv0 : is_nan v = false) by (apply Nv; left; reflexivity).
    destruct (Math_min_cases init v Ni Nv0) as (C & L1 & L2).
    assert (Nm : is_nan (JS.Math_min init v) = false) by apply (leb_true_not_nan _ _ L1).
    destruct (IH (JS.Math_min init v) Nm (fun w Hw => Nv w (or_intror Hw))) as [I A].
    cbv zeta in *. split.
    + destruct I as [I|I]; [|right; right; exact I].
      rewrite <- I. destruct C as [-> | ->]; [left|right; left]; reflexivity.
    + intros w [<-|[<-|Hw]].
      * apply leb_trans with (JS.Math_min init v); [apply A; left; reflexivity|exact L1].
      * apply leb_trans with (JS.Math_min init v); [apply A; left; reflexivity|exact L2].
      * apply A. right. exact Hw.
Qed.

Lemma fold_Math_max vs : forall init,
  is_nan init = false -> (forall v, In v vs -> is_nan v = false) ->
  let m := fold_left JS.Math_max vs init in
  In m (init :: vs) /\ forall v, In v (init :: vs) -> (v <=? m) = true.
Proof.
  induction vs as [|v vs IH]; intros init Ni Nv.
  - cbn. split; [auto|]. intros v [<-|[]]. apply leb_refl, Ni.
  - cbn [fold_left].
    assert (Nv0 : is_nan v = false) by (apply Nv; left; reflexivity).
    destruct (Math_max_cases init v Ni Nv0) as (C & L1 & L2).
    assert (Nm : is_nan (JS.Math_max init v) = false) by apply (leb_true_not_nan _ _ L1).
    destruct (IH (JS.Math_max init v) Nm (fun w Hw => Nv w (or_intror Hw))) as [I A].
    cbv zeta in *. split.
    + destruct I as [I|I]; [|right; right; exact I].
      rewrite <- I. destruct C as [-> | ->]; [left|right; left]; reflexivity.
    + intros w [<-|[<-|Hw]].
      * apply leb_trans with (JS.Math_max init v); [exact L1|apply A; left; reflexivity].
      * apply leb_trans with (JS.Math_max init v); [exact L2|apply A; left; reflexivity].
      * apply A. right. exact Hw.
Qed.

Lemma finite_below_infinity v : is_finite v = true -> (infinity <=? v) = false.
Proof.
  intros F. rewrite leb_frank; [|reflexivity|apply finite_not_nan, F].
  apply Z.leb_gt. pose proof (frank_finite v F) as B.
  change (frank infinity) with (2 ^ 2100)%Z.
  revert B. generalize (2 ^ 2100)%Z, (frank v). intros; lia.
Qed.

Lemma finite_above_neg_infinity v : is_finite v = true -> (v <=? neg_infinity) = false.
Proof.
  intros F. rewrite leb_frank; [|apply finite_not_nan, F|reflexivity].
  apply Z.leb_gt. pose proof (frank_finite v F) as B.
  change (frank neg_infinity) with (- 2 ^ 2100)%Z.
  revert B. generalize (2 ^ 2100)%Z, (frank v). intros; lia.
Qed.

(** X14. [hasZeroCrossing] examines a grid cell exactly when at least two
    of its four corner values are finite, some finite corner value is at
    most [tolerance] and some finite corner value is at least
    [-tolerance]. *)
Theorem hasZeroCrossing_spec (f11 f12 f21 f22 tolerance : float) :
  let finite := filter JS.isFinite [f11; f12; f21; f22] in
  hasZeroCrossing f11 f12 f21 f22 tolerance = true <->
  (2 <= length finite)%nat /\
  (exists v, In v finite /\ (v <=? tolerance) = true) /\
  (exists w, In w finite /\ (- tolerance <=? w) = true).
Proof.
  intros finite. unfold hasZeroCrossing. cbv zeta.
  assert (E : filter (fun v => negb (JS.isNaN v) && JS.isFinite v) [f11; f12; f21; f22] = finite).
  { unfold finite. apply filter_ext. intros v. unfold JS.isNaN, JS.isFinite.
    destruct (is_finite v) eqn:F; [|apply andb_false_r].
    rewrite (finite_not_nan v F). reflexivity. }
  rewrite E.
  assert (Hf : forall v, In v finite -> is_finite v = true).
  { intros v Hv. apply filter_In in Hv. apply Hv. }
  assert (Hn : forall v, In v finite -> is_nan v = false).
  { intros v Hv. apply finite_not_nan, Hf, Hv. }
  destruct (fold_Math_min finite JS.Infinity eq_refl Hn) as [I1 A1].
  destruct (fold_Math_max finite neg_infinity eq_refl Hn) as [I2 A2].
  cbv zeta in *.
  set (minVal := fold_left JS.Math_min finite JS.Infinity) in *.
  set (maxVal := fold_left JS.Math_max finite neg_infinity) in *.
  destruct (Nat.ltb_spec (length finite) 2) as [Hl|Hl].
  - split; [discriminate|]. intros (H & _). lia.
  - assert (Hmin : In minVal finite).
    { destruct I1 as [I1|I1]; [|exact I1]. exfalso.
      destruct finite as [|v0 rest]; [cbn in Hl; lia|].
      specialize (A1 v0 (or_intror (or_introl eq_refl))). rewrite <- I1 in A1.
      rewrite finite_below_infinity in A1; [discriminate|apply Hf; left; reflexivity]. }
    assert (Hmax : In maxVal finite).
    { destruct I2 as [I2|I2]; [|exact I2]. exfalso.
      destruct finite as [|v0 rest]; [cbn in Hl; lia|].
      specialize (A2 v0 (or_intror (or_introl eq_refl))). rewrite <- I2 in A2.
      rewrite finite_above_neg_infinity in A2; [discriminate|apply Hf; left; reflexivity]. }
    split.
    + intros H. apply andb_prop in H. destruct H as [H1 H2].
      split; [exact Hl|]. split; [exists minVal|exists maxVal]; auto.
    + intros (_ & (v & Hv & H1) & (w & Hw & H2)). apply andb_true_intro. split.
      * apply leb_trans with v; [apply A1; right; exact Hv|exact H1].
      * apply leb_trans with w; [exact H2|apply A2; right; exact Hw].
Qed.

(** ** Colours *)

Lemma nextColors_from n : forall i,
  (i < 6)%nat ->
  let this := {| colors := colors newEquationParser; colorIndex := i |} in
  fst (nextColors n this) =
    map (fun k => nth_error (colors newEquationParser) ((i + k) mod 6)) (seq 0 n) /\
  snd (nextColors n this) =
    {| colors := colors newEquationParser; colorIndex := (i + n) mod 6 |}.
Proof.
  induction n as [|n IH]; intros i Hi this.
  - cbn [nextColors fst snd map seq]. rewrite Nat.add_0_r, Nat.mod_small by exact Hi.
    split; reflexivity.
  - cbn [nextColors]. unfold getNextColor. cbn [colors colorIndex this].
    change (length (colors newEquationParser)) with 6%nat.
    assert (Hi' : ((i + 1) mod 6 < 6)%nat) by (apply Nat.mod_upper_bound; lia).
    destruct (IH _ Hi') as [E1 E2]. cbv zeta in E1, E2.
    destruct (nextColors n _) as [rest this''] eqn:N.
    cbn [fst snd] in *. subst rest this''. split.
    + cbn [seq map]. rewrite Nat.add_0_r, (Nat.mod_small i) by exact Hi. f_equal.
      rewrite <- seq_shift, map_map. apply map_ext. intros k.
      rewrite (Nat.Div0.add_mod_idemp_l (i + 1) k 6).
      replace (i + 1 + k)%nat with (i + S k)%nat by lia. reflexivity.
    + rewrite (Nat.Div0.add_mod_idemp_l (i + 1) n 6).
      replace (i + 1 + n)%nat with (i + S n)%nat by lia. reflexivity.
Qed.

(** X18. From the parser of the constructor, the colours that successive
    calls of [getNextColor] return cycle through the six colours in
    order: call number [k] (from 0) returns colour [k mod 6], never
    [undefined]; after [n] calls [colorIndex] is [n mod 6], and
    [resetColorIndex] gives back the parser of the constructor. *)
Theorem getNextColor_cycle (n : nat) :
  let '(given, this) := nextColors n newEquationParser in
  given = map (fun k => nth_error (colors newEquationParser) (k mod 6)) (seq 0 n) /\
  (forall color, In color given -> color <> None) /\
  colorIndex this = (n mod 6)%nat /\
  fst (getNextColor this) = nth_error (colors newEquationParser) (n mod 6) /\
  resetColorIndex this = newEquationParser.
Proof.
  destruct (nextColors_from n 0) as [E1 E2]; [lia|].
  cbv zeta in E1, E2. change {| colors := _; colorIndex := 0 |} with newEquationParser in *.
  destruct (nextColors n newEquationParser) as [given this]. cbn [fst snd] in *.
  subst given this. cbn [Nat.add]. repeat split.
  intros color Hin. apply in_map_iff in Hin. destruct Hin as (k & <- & _).
  apply nth_error_Some. change (length (colors newEquationParser)) with 6%nat.
  apply Nat.mod_upper_bound. lia.
Qed.

(** * Properties of the renderer *)

(** ** Continuous segments *)

Lemma segmentsLoop_valid a : forall rest currentSegment,
  segmentsLoop (map Some a ++ rest) currentSegment =
  segmentsLoop rest (currentSegment ++ a).
Proof.
  induction a as [|p a IH]; intros rest cur.
  - cbn [map app]. rewrite app_nil_r. reflexivity.
  - cbn [map app segmentsLoop]. rewrite IH, <- app_assoc. reflexivity.
Qed.

Lemma in_last {A : Type} (l : list A) (d : A) : l <> [] -> In (last l d) l.
Proof.
  induction l as [|a l IH]; [congruence|]. intros _.
  destruct l as [|b l]; [left; reflexivity|].
  right. apply IH. discriminate.
Qed.

Lemma drawSmoothCurve_vertices points x y :
  In (vertex x y) (drawSmoothCurve points) \/ In (curveVertex x y) (drawSmoothCurve points) ->
  In {| v_x := x; v_y := y |} points.
Proof.
  assert (V : forall p, In p points -> In {| v_x := v_x p; v_y := v_y p |} points).
  { intros [px py] H. exact H. }
  unfold drawSmoothCurve. destruct (length points <? 2)%nat; [intros [[]|[]]|].
  destruct (3 <? length points)%nat.
  - destruct points as [|first rest]; [intros [H|H]; cbn in H; intuition discriminate|].
    set (points := first :: rest) in *.
    intros [H|H]; cbn [app] in H.
    + destruct H as [H|[H|H]]; try discriminate H.
      destruct H as [H|H]; [discriminate H|].
      apply in_app_or in H. destruct H as [H|H].
      * apply in_app_or in H. destruct H as [H|[H|[]]]; [|discriminate H].
        apply in_map_iff in H. destruct H as (p & E & _). discriminate E.
      * destruct H as [H|[]]. discriminate H.
    + destruct H as [H|[H|H]]; try discriminate H.
      destruct H as [H|H].
      { injection H as <- <-. apply V. left. reflexivity. }
      apply in_app_or in H. destruct H as [H|H].
      * apply in_app_or in H. destruct H as [H|[H|[]]].
        -- apply in_map_iff in H. destruct H as (p & E & Hp).
           injection E as <- <-. apply V, Hp.
        -- injection H as <- <-. apply V. apply (in_last (first :: rest) first). discriminate.
      * destruct H as [H|[]]. discriminate H.
  - intros [H|H]; cbn [app] in H.
    + destruct H as [H|[H|H]]; try discriminate H.
      apply in_app_or in H. destruct H as [H|[H|[]]]; [|discriminate H].
      apply in_map_iff in H. destruct H as (p & E & Hp).
      injection E as <- <-. apply V, Hp.
    + destruct H as [H|[H|H]]; try discriminate H.
      apply in_app_or in H. destruct H as [H|[H|[]]]; [|discriminate H].
      apply in_map_iff in H. destruct H as (p & E & _). discriminate E.
Qed.

Lemma drawSegment_vertices points x y :
  In (vertex x y) (drawSegment points) \/ In (curveVertex x y) (drawSegment points) ->
  In {| v_x := x; v_y := y |} points.
Proof.
  unfold drawSegment. destruct (1 <? length points)%nat; [|intros [[]|[]]].
  apply drawSmoothCurve_vertices.
Qed.

Lemma segmentsLoop_vertices x y : forall points currentSegment,
  In (vertex x y) (segmentsLoop points currentSegment) \/
  In (curveVertex x y) (segmentsLoop points currentSegment) ->
  In {| v_x := x; v_y := y |} currentSegment \/ In (Some {| v_x := x; v_y := y |}) points.
Proof.
  induction points as [|[p|] points IH]; intros cur H.
  - left. apply drawSegment_vertices, H.
  - cbn [segmentsLoop] in H. apply IH in H. destruct H as [H|H]; [|right; right; exact H].
    apply in_app_or in H. destruct H as [H|[<-|[]]]; [left; exact H|right; left; reflexivity].
  - cbn [segmentsLoop] in H.
    assert (H' : (In (vertex x y) (drawSegment cur) \/ In (curveVertex x y) (drawSegment cur)) \/
                 (In (vertex x y) (segmentsLoop points []) \/
                  In (curveVertex x y) (segmentsLoop points []))).
    { destruct H as [H|H]; apply in_app_or in H; tauto. }
    destruct H' as [H'|H'].
    + left. apply drawSegment_vertices, H'.
    + apply IH in H'. destruct H' as [[]|H']. right. right. exact H'.
Qed.

(** X19. [drawContinuousSegments] draws the runs of consecutive valid
    points, each run on its own: a run that ends at an invalid point, or at
    the end of the array, is passed to [drawSmoothCurve] when it has two
    points or more and is dropped otherwise, so an isolated valid point is
    not drawn. Every vertex and curve vertex it issues is at a valid point
    of the input. *)
Theorem drawContinuousSegments_runs :
  (forall a rest,
     drawContinuousSegments (map Some a ++ None :: rest) =
     drawSegment a ++ drawContinuousSegments rest) /\
  (forall a, drawContinuousSegments (map Some a) = drawSegment a) /\
  (forall a, drawSegment a = if (length a <? 2)%nat then [] else drawSmoothCurve a) /\
  (forall points x y,
     In (vertex x y) (drawContinuousSegments points) \/
     In (curveVertex x y) (drawContinuousSegments points) ->
     In (Some {| v_x := x; v_y := y |}) points).
Proof.
  unfold drawContinuousSegments. split; [|split; [|split]].
  - intros a rest. rewrite segmentsLoop_valid. reflexivity.
  - intros a. rewrite <- (app_nil_r (map Some a)), segmentsLoop_valid. reflexivity.
  - intros a. unfold drawSegment.
    destruct (Nat.ltb_spec 1 (length a)), (Nat.ltb_spec (length a) 2); try reflexivity; lia.
  - intros points x y H. apply segmentsLoop_vertices in H. destruct H as [[]|H]. exact H.
Qed.


(** ** Grouping points into curves *)

Lemma has_cons used i j : has (i :: used) j = Nat.eqb j i || has used j.
Proof. reflexivity. Qed.

Lemma unusedOf_not_in used j l :
  ~ In j (map fst l) -> unusedOf (j :: used) l = unusedOf used l.
Proof.
  induction l as [|[i p] l IH]; intros H; [reflexivity|].
  cbn [unusedOf filter fst]. rewrite has_cons.
  destruct (Nat.eqb_spec i j) as [->|Hne].
  - exfalso. apply H. left. reflexivity.
  - cbn [orb]. fold (unusedOf (j :: used) l). fold (unusedOf used l).
    rewrite IH; [reflexivity|]. intros Hin. apply H. right. exact Hin.
Qed.

Lemma unusedOf_take used j p l :
  NoDup (map fst l) -> In (j, p) l -> has used j = false ->
  Permutation (unusedOf used l) ((j, p) :: unusedOf (j :: used) l).
Proof.
  induction l as [|[i q] l IH]; intros Hnd Hin Hj; [destruct Hin|].
  cbn [map fst] in Hnd. inversion Hnd as [|? ? Hni Hnd']; subst.
  cbn [unusedOf filter fst]. rewrite has_cons.
  fold (unusedOf (j :: used) l). fold (unusedOf used l).
  destruct Hin as [E|Hin].
  - injection E as -> ->. rewrite Hj, Nat.eqb_refl. cbn [negb orb].
    rewrite unusedOf_not_in by exact Hni. apply Permutation_refl.
  - destruct (Nat.eqb_spec i j) as [->|Hne].
    + exfalso. apply Hni. apply (in_map fst) in Hin. exact Hin.
    + cbn [orb]. destruct (has used i); cbn [negb].
      * apply IH; assumption.
      * eapply perm_trans; [apply perm_skip, IH; assumption|apply perm_swap].
Qed.

Lemma nextPoint_some points used lastPoint maxDistance j p :
  nextPoint points used lastPoint maxDistance = Some (j, p) ->
  In (j, p) (indexed points) /\ has used j = false /\
  (pointDistance p lastPoint <=? maxDistance) = true.
Proof.
  unfold nextPoint. intros H. apply find_some in H. destruct H as [Hin H].
  cbn [fst snd] in H. apply andb_prop in H. destruct H as [H1 H2].
  apply negb_true_iff in H1. auto.
Qed.

Lemma fst_combine {A B : Type} : forall (l1 : list A) (l2 : list B),
  length l1 = length l2 -> map fst (combine l1 l2) = l1.
Proof.
  induction l1 as [|a l1 IH]; intros [|b l2] H; try discriminate H; [reflexivity|].
  cbn. f_equal. apply IH. injection H as H. exact H.
Qed.

Lemma snd_combine {A B : Type} : forall (l1 : list A) (l2 : list B),
  length l1 = length l2 -> map snd (combine l1 l2) = l2.
Proof.
  induction l1 as [|a l1 IH]; intros [|b l2] H; try discriminate H; [reflexivity|].
  cbn. f_equal. apply IH. injection H as H. exact H.
Qed.

Lemma indexed_NoDup points : NoDup (map fst (indexed points)).
Proof.
  unfold indexed. rewrite fst_combine by apply length_seq.
  apply seq_NoDup.
Qed.

Lemma chained_cons maxDistance a b l :
  chained maxDistance (a :: b :: l) =
  (pointDistance b a <=? maxDistance) && chained maxDistance (b :: l).
Proof. reflexivity. Qed.

Lemma chained_snoc maxDistance p : forall pre a,
  chained maxDistance (pre ++ [a]) = true ->
  (pointDistance p a <=? maxDistance) = true ->
  chained maxDistance ((pre ++ [a]) ++ [p]) = true.
Proof.
  induction pre as [|b pre IH]; intros a H D.
  - cbn [app]. rewrite chained_cons, D. reflexivity.
  - specialize (IH a). cbn [app] in *.
    destruct (pre ++ [a]) as [|c l] eqn:E; [destruct pre; discriminate E|].
    cbn [app] in *. rewrite chained_cons in *.
    apply andb_prop in H. destruct H as [H1 H2].
    rewrite H1. cbn [andb]. apply IH; assumption.
Qed.

Lemma growCurve_spec points maxDistance : forall fuel curve lastPoint used,
  let all := indexed points in
  let r := growCurve fuel points maxDistance curve lastPoint used in
  (exists added,
     fst r = curve ++ added /\
     Permutation (map snd (unusedOf used all)) (added ++ map snd (unusedOf (snd r) all))) /\
  (forall j, has used j = true -> has (snd r) j = true) /\
  ((exists pre, curve = pre ++ [lastPoint]) -> chained maxDistance curve = true ->
   chained maxDistance (fst r) = true).
Proof.
  intros fuel. induction fuel as [|fuel IH]; intros curve lastPoint used all r.
  - unfold r. cbn [growCurve fst snd]. split; [|split; auto].
    exists []. rewrite app_nil_r. split; [reflexivity|apply Permutation_refl].
  - unfold r. cbn [growCurve].
    destruct (nextPoint points used lastPoint maxDistance) as [[j p]|] eqn:N.
    + apply nextPoint_some in N. destruct N as (Hin & Hj & D).
      destruct (IH (curve ++ [p]) p (j :: used)) as ((added & E & P) & M & C).
      split; [|split].
      * exists (p :: added). split; [rewrite E, <- app_assoc; reflexivity|].
        eapply perm_trans.
        { apply Permutation_map, unusedOf_take; [apply indexed_NoDup|exact Hin|exact Hj]. }
        cbn [map snd app]. apply perm_skip, P.
      * intros i Hi. apply M. rewrite has_cons, Hi. apply orb_true_r.
      * intros (pre & Ec) Hc. apply C; [exists curve; reflexivity|].
        rewrite Ec. apply chained_snoc; [rewrite <- Ec; exact Hc|exact D].
    + cbn [fst snd]. split; [|split; auto].
      exists []. rewrite app_nil_r. split; [reflexivity|apply Permutation_refl].
Qed.

Lemma groupLoop_partition points maxDistance fuel : forall rest used pre,
  indexed points = pre ++ rest ->
  (forall ip, In ip pre -> has used (fst ip) = true) ->
  Permutation (concat (groupLoop fuel points maxDistance rest used))
    (map snd (unusedOf used (indexed points))).
Proof.
  induction rest as [|[i p] rest IH]; intros used pre E U.
  - cbn [groupLoop concat]. rewrite app_nil_r in E. rewrite E.
    replace (unusedOf used pre) with (@nil (nat * Vector2)); [apply Permutation_refl|].
    symmetry. clear E. induction pre as [|ip pre IHp]; [reflexivity|].
    cbn [unusedOf filter]. rewrite (U ip (or_introl eq_refl)). cbn [negb].
    apply IHp. intros ip' Hin. apply U. right. exact Hin.
  - cbn [groupLoop]. destruct (has used i) eqn:Hi.
    + apply (IH used (pre ++ [(i, p)])); [rewrite <- app_assoc; exact E|].
      intros ip Hin. apply in_app_or in Hin. destruct Hin as [Hin|[<-|[]]]; [apply U, Hin|exact Hi].
    + destruct (growCurve_spec points maxDistance fuel [p] p (i :: used))
        as ((added & Ec & P) & M & _).
      destruct (growCurve fuel points maxDistance [p] p (i :: used)) as [curve used'].
      cbn [fst snd] in *. cbn [concat].
      assert (Hin : In (i, p) (indexed points)) by (rewrite E; apply in_elt).
      eapply perm_trans;
        [|apply Permutation_sym, Permutation_map,
            (unusedOf_take used i p _ (indexed_NoDup points) Hin Hi)].
      cbn [map snd]. rewrite Ec. cbn [app]. apply perm_skip.
      eapply perm_trans; [|apply Permutation_sym, P].
      apply Permutation_app_head.
      apply (IH used' (pre ++ [(i, p)])); [rewrite <- app_assoc; exact E|].
      intros ip Hin'. apply M. rewrite has_cons.
      apply in_app_or in Hin'. destruct Hin' as [Hin'|[<-|[]]].
      * rewrite (U ip Hin'). apply orb_true_r.
      * cbn [fst]. rewrite Nat.eqb_refl. reflexivity.
Qed.

Lemma groupLoop_chained points maxDistance fuel : forall rest used curve,
  In curve (groupLoop fuel points maxDistance rest used) ->
  curve <> [] /\ chained maxDistance curve = true.
Proof.
  induction rest as [|[i p] rest IH]; intros used curve Hin; [destruct Hin|].
  cbn [groupLoop] in Hin. destruct (has used i); [apply (IH _ _ Hin)|].
  destruct (growCurve_spec points maxDistance fuel [p] p (i :: used))
    as ((added & Ec & _) & _ & C).
  destruct (growCurve fuel points maxDistance [p] p (i :: used)) as [curve' used'].
  cbn [fst snd] in *. destruct Hin as [<-|Hin]; [|apply (IH _ _ Hin)].
  split; [rewrite Ec; discriminate|].
  apply C; [exists []; reflexivity|reflexivity].
Qed.

(** The rounds of the inner loop. *)

Lemma nextPoint_none_unused points used lastPoint maxDistance :
  unusedOf used (indexed points) = [] ->
  nextPoint points used lastPoint maxDistance = None.
Proof.
  unfold nextPoint, unusedOf. generalize (indexed points) as l.
  induction l as [|ip l IH]; intros H; [reflexivity|].
  cbn [filter find] in *. destruct (negb (has used (fst ip))); [discriminate H|].
  cbn [andb]. apply IH, H.
Qed.

Lemma growCurve_fuel points maxDistance extra : forall fuel curve lastPoint used,
  (length (unusedOf used (indexed points)) <= fuel)%nat ->
  growCurve (fuel + extra) points maxDistance curve lastPoint used =
  growCurve fuel points maxDistance curve lastPoint used.
Proof.
  induction fuel as [|fuel IH]; intros curve lastPoint used H.
  - cbn [Nat.add growCurve]. destruct extra as [|extra]; [reflexivity|].
    cbn [growCurve]. rewrite nextPoint_none_unused; [reflexivity|].
    destruct (unusedOf used (indexed points)); [reflexivity|cbn in H; lia].
  - cbn [Nat.add growCurve].
    destruct (nextPoint points used lastPoint maxDistance) as [[j p]|] eqn:N; [|reflexivity].
    apply nextPoint_some in N. destruct N as (Hin & Hj & _).
    apply IH.
    pose proof (Permutation_length
                  (unusedOf_take used j p _ (indexed_NoDup points) Hin Hj)) as L.
    cbn [length] in L. lia.
Qed.

Lemma unusedOf_length used l : (length (unusedOf used l) <= length l)%nat.
Proof. apply filter_length_le. Qed.

Lemma unusedOf_length_lt used i p l :
  In (i, p) l ->
  (length (unusedOf (i :: used) l) < length l)%nat.
Proof.
  induction l as [|[j q] l IH]; intros Hin; [destruct Hin|].
  cbn [unusedOf filter fst length]. rewrite has_cons.
  fold (unusedOf (i :: used) l).
  destruct Hin as [E|Hin].
  - injection E as -> ->. rewrite Nat.eqb_refl. cbn [orb negb].
    pose proof (unusedOf_length (i :: used) l). lia.
  - specialize (IH Hin). destruct (negb _); cbn [length]; lia.
Qed.

Lemma groupLoop_fuel points maxDistance fuel :
  (length points <= fuel)%nat ->
  forall rest used pre, indexed points = pre ++ rest ->
  groupLoop fuel points maxDistance rest used =
  groupLoop (length points) points maxDistance rest used.
Proof.
  intros Hf. induction rest as [|[i p] rest IH]; intros used pre E; [reflexivity|].
  cbn [groupLoop]. destruct (has used i).
  - apply (IH used (pre ++ [(i, p)])). rewrite <- app_assoc. exact E.
  - assert (Hin : In (i, p) (indexed points)) by (rewrite E; apply in_elt).
    assert (L : (length (unusedOf (i :: used) (indexed points)) <= length points)%nat).
    { pose proof (unusedOf_length_lt used i p _ Hin) as L.
      unfold indexed in L at 2. rewrite length_combine, length_seq, Nat.min_id in L. lia. }
    replace fuel with (length points + (fuel - length points))%nat at 1 by lia.
    rewrite growCurve_fuel by exact L.
    destruct (growCurve (length points) points maxDistance [p] p (i :: used)) as [curve used'].
    f_equal. apply (IH used' (pre ++ [(i, p)])). rewrite <- app_assoc. exact E.
Qed.

Lemma groupPointsIntoCurves_perm points maxDistance :
  Permutation (concat (groupPointsIntoCurves points maxDistance)) points.
Proof.
  unfold groupPointsIntoCurves.
  eapply perm_trans;
    [apply (groupLoop_partition points maxDistance _ (indexed points) [] []);
     [reflexivity|intros ip []]|].
  unfold unusedOf. cbn [has existsb negb].
  rewrite forallb_filter_id by (apply forallb_forall; reflexivity).
  unfold indexed. rewrite snd_combine by apply length_seq.
  apply Permutation_refl.
Qed.

(** X20. [groupPointsIntoCurves] puts every point of the array into
    exactly one curve: the curves, one after the other, are a permutation
    of the points. No curve is empty, so there are at most as many curves
    as points; and the inner loop always ends within as many rounds as
    there are points. *)
Theorem groupPointsIntoCurves_partition (points : list Vector2) (maxDistance : float) :
  Permutation (concat (groupPointsIntoCurves points maxDistance)) points /\
  (forall curve, In curve (groupPointsIntoCurves points maxDistance) -> curve <> []) /\
  (length (groupPointsIntoCurves points maxDistance) <= length points)%nat /\
  (forall fuel, (length points <= fuel)%nat ->
     groupLoop fuel points maxDistance (indexed points) [] =
     groupPointsIntoCurves points maxDistance).
Proof.
  pose proof (groupPointsIntoCurves_perm points maxDistance) as P.
  assert (N : forall curve, In curve (groupPointsIntoCurves points maxDistance) -> curve <> []).
  { intros curve Hin. apply (groupLoop_chained _ _ _ _ _ _ Hin). }
  split; [exact P|]. split; [exact N|]. split.
  - rewrite <- (Permutation_length P). revert N.
    generalize (groupPointsIntoCurves points maxDistance) as curves.
    induction curves as [|c cs IH]; intros N; [cbn; lia|].
    cbn [concat length]. rewrite length_app.
    assert (c <> []) by (apply N; left; reflexivity).
    assert (length cs <= length (concat cs))%nat
      by (apply IH; intros c' H'; apply N; right; exact H').
    destruct c; [congruence|]. cbn [length]. lia.
  - intros fuel Hf. apply (groupLoop_fuel points maxDistance fuel Hf _ [] []). reflexivity.
Qed.

(** X21. In every curve that [groupPointsIntoCurves] returns, each
    point is within [maxDistance] of the point before it (the comparison
    [distance <= maxDistance] holds, so neither is at a NaN distance). *)
Theorem groupPointsIntoCurves_chained (points : list Vector2) (maxDistance : float)
    (curve : list Vector2) :
  In curve (groupPointsIntoCurves points maxDistance) ->
  forall before a b after,
    curve = before ++ a :: b :: after ->
    (pointDistance b a <=? maxDistance) = true.
Proof.
  intros Hin. apply groupLoop_chained in Hin. destruct Hin as [_ C].
  intros before. revert curve C. induction before as [|c before IH]; intros curve C a b after E.
  - subst curve. cbn [app] in C. rewrite chained_cons in C. apply andb_prop in C. apply C.
  - subst curve. specialize (IH (before ++ a :: b :: after)). cbn [app] in C.
    destruct (before ++ a :: b :: after) as [|d l] eqn:E; [destruct before; discriminate E|].
    rewrite chained_cons in C. apply andb_prop in C. destruct C as [_ C].
    apply (IH C a b after). symmetry. exact E.
Qed.

Lemma groupPointsIntoCurves_chained_witness :
  (pointDistance {| v_x := 0.3; v_y := 0 |} {| v_x := 0; v_y := 0 |} <=? 0.5) = true.
Proof.
  refine (groupPointsIntoCurves_chained threePoints 0.5
            [ {| v_x := 0; v_y := 0 |}; {| v_x := 0.3; v_y := 0 |} ] _
            [] {| v_x := 0; v_y := 0 |} {| v_x := 0.3; v_y := 0 |} [] eq_refl).
  vm_compute. left. reflexivity.
Defined.

(** ** Drawing an implicit curve *)

Lemma plotted_app a b : plotted (a ++ b) = (plotted a + plotted b)%nat.
Proof. unfold plotted. rewrite filter_app, length_app. reflexivity. Qed.

Lemma plotted_vertices {A : Type} (g h : A -> float) (l : list A) :
  plotted (map (fun p => vertex (g p) (h p)) l) = length l.
Proof.
  unfold plotted. induction l as [|a l IH]; [reflexivity|].
  cbn [map filter length]. rewrite IH. reflexivity.
Qed.

Lemma plotted_drawCurve xMin xMax yMin yMax width height curve :
  plotted (drawCurve xMin xMax yMin yMax width height curve) = length curve.
Proof.
  unfold drawCurve. cbv zeta.
  destruct (Nat.ltb_spec 1 (length curve)) as [H|H].
  - rewrite !plotted_app. cbn [fst snd].
    rewrite (plotted_vertices
               (fun p => mapToScreen (v_x p) xMin xMax 0 width)
               (fun p => mapToScreen (- v_y p) (- yMax) (- yMin) 0 height)).
    cbn. lia.
  - destruct curve as [|p [|q rest]]; [reflexivity|reflexivity|cbn in H; lia].
Qed.

(** X22. [drawImplicit] plots every point that [getPoints] returns on
    the 80 x 80 grid exactly once, as a vertex of a shape or as a single
    point: the number of [vertex] and [point] calls is the number of
    points. *)
Theorem drawImplicit_plots_each_point (equation : Equation)
    (xMin xMax yMin yMax width height : float) :
  plotted (drawImplicit equation xMin xMax yMin yMax width height) =
  length (getPoints equation xMin xMax yMin yMax 80).
Proof.
  unfold drawImplicit. cbv zeta.
  set (points := getPoints equation xMin xMax yMin yMax 80).
  pose proof (groupPointsIntoCurves_perm points 0.5) as P.
  rewrite <- (Permutation_length P).
  assert (E : forall curves,
            plotted (flat_map (drawCurve xMin xMax yMin yMax width height) curves) =
            length (concat curves)).
  { induction curves as [|c cs IH]; [reflexivity|].
    cbn [flat_map concat]. rewrite plotted_app, length_app, IH, plotted_drawCurve.
    reflexivity. }
  destruct points as [|p0 rest] eqn:Ep; [reflexivity|]. apply E.
Qed.

(** ** Screen coordinates *)

Lemma is_zero_spec x :
  is_zero x = match Prim2SF x with S754_zero _ => true | _ => false end.
Proof.
  unfold is_zero. rewrite eqb_spec. change (Prim2SF zero) with (S754_zero false).
  destruct (Prim2SF x) as [s|s| |s m e]; try reflexivity; destruct s; reflexivity.
Qed.

Lemma zero_mul z d : is_zero z = true -> is_finite d = true -> is_zero (z * d) = true.
Proof.
  rewrite !is_zero_spec, is_finite_spec, mul_spec. unfold SF64mul.
  destruct (Prim2SF z); try discriminate. intros _.
  destruct (Prim2SF d); try discriminate; reflexivity.
Qed.

Lemma zero_div z d :
  is_zero z = true -> is_nan d = false -> is_zero d = false -> is_zero (z / d) = true.
Proof.
  rewrite !is_zero_spec, is_nan_spec, div_spec. unfold SF64div.
  destruct (Prim2SF z); try discriminate. intros _.
  destruct (Prim2SF d); try discriminate; reflexivity.
Qed.

Lemma add_zero s z : is_nan s = false -> is_zero z = true -> (s + z =? s) = true.
Proof.
  rewrite is_zero_spec, is_nan_spec, eqb_spec, add_spec. unfold SF64add, SFeqb.
  pose proof (Prim2SF_valid s) as V.
  destruct (Prim2SF z) as [sz| | |]; try discriminate. intros N _.
  destruct (Prim2SF s) as [ss|ss| |ss m e]; try discriminate N.
  - destruct ss, sz; reflexivity.
  - destruct ss; reflexivity.
  - cbn [SFadd]. rewrite SFcompare_refl; [reflexivity|exact V|reflexivity].
Qed.

Lemma div_zero_not_finite n d : is_zero d = true -> is_finite (n / d) = false.
Proof.
  rewrite is_zero_spec, is_finite_spec, div_spec. unfold SF64div.
  destruct (Prim2SF d); try discriminate. intros _.
  destruct (Prim2SF n); reflexivity.
Qed.

Lemma add_not_finite s q : is_finite q = false -> is_finite (s + q) = false.
Proof.
  rewrite !is_finite_spec, add_spec. unfold SF64add.
  destruct (Prim2SF q) as [| sq | |]; try discriminate; intros _.
  - destruct (Prim2SF s) as [|ss| |]; try reflexivity. destruct ss, sq; reflexivity.
  - destruct (Prim2SF s); reflexivity.
Qed.

(** X23. [mapToScreen] sends the lower end of the range exactly to the
    lower end of the screen, [mapToScreen(min, min, max, screenMin,
    screenMax) == screenMin], whenever [min] and the screen extent are
    finite and [max - min] is neither 0 nor NaN. When [max - min] is 0 the
    result is never a finite number, whatever the value. *)
Theorem mapToScreen_edges (value min max screenMin screenMax : float) :
  (is_finite min = true -> is_finite (screenMax - screenMin) = true ->
   is_nan (max - min) = false -> is_zero (max - min) = false ->
   is_nan screenMin = false ->
   (mapToScreen min min max screenMin screenMax =? screenMin) = true) /\
  (is_zero (max - min) = true ->
   is_finite (mapToScreen value min max screenMin screenMax) = false).
Proof.
  unfold mapToScreen. split.
  - intros Fm Fd Nd Zd Ns. rewrite (sub_diag min Fm).
    apply add_zero; [exact Ns|]. apply zero_div; [|exact Nd|exact Zd].
    apply zero_mul; [reflexivity|exact Fd].
  - intros Zd. apply add_not_finite, div_zero_not_finite, Zd.
Qed.

(** * Properties of the user interface *)

(** ** The start position *)

Lemma Math_min_10 v :
  (-10 <=? v) = true -> (v <=? 10) = true -> JS.Math_min 10 v = v.
Proof.
  intros L U. unfold JS.Math_min.
  rewrite (proj2 (leb_true_not_nan _ _ L)). cbn [is_nan orb].
  change (is_nan 10) with false. cbn [orb].
  rewrite (ltb_not_leb_false _ _ U).
  destruct (v <? 10); [reflexivity|]. reflexivity.
Qed.

Lemma Math_max_10 v :
  (-10 <=? v) = true -> JS.Math_max (-10) v = v.
Proof.
  intros L. unfold JS.Math_max.
  rewrite (proj2 (leb_true_not_nan _ _ L)).
  change (is_nan (-10)) with false. cbn [orb].
  rewrite (ltb_not_leb_false _ _ L).
  destruct (-10 <? v); reflexivity.
Qed.

Lemma clamp_range v :
  is_nan v = false ->
  (-10 <=? JS.Math_max (-10) (JS.Math_min 10 v)) = true /\
  (JS.Math_max (-10) (JS.Math_min 10 v) <=? 10) = true.
Proof.
  intros N.
  destruct (Math_min_cases 10 v eq_refl N) as (_ & U & _).
  assert (Nm : is_nan (JS.Math_min 10 v) = false) by apply (leb_true_not_nan _ _ U).
  destruct (Math_max_cases (-10) (JS.Math_min 10 v) eq_refl Nm) as (C & L & _).
  split; [exact L|].
  destruct C as [-> | ->]; [reflexivity|exact U].
Qed.

Lemma orElse_not_nan value fallback :
  is_nan fallback = false -> is_nan (orElse value fallback) = false.
Proof.
  intros N. unfold orElse, JS.truthy.
  destruct (is_nan value) eqn:Nv; [exact N|]. cbn [orb].
  destruct (is_zero value); [exact N|exact Nv].
Qed.

(** X24. Whatever the two input fields hold (numbers of any size, the
    infinities, or NaN for text that is no number), the start position
    that [getStartPosition] returns is not NaN and lies inside the world
    [[-10, 10] x [-10, 10]], edges included; [checkBounds] accepts a
    marble made there. *)
Theorem getStartPosition_inside (startX startY : float) :
  insideBounds (getStartPosition startX startY) world = true /\
  checkBounds (newMarble (v_x (getStartPosition startX startY))
                         (v_y (getStartPosition startX startY))) world = true.
Proof.
  unfold getStartPosition. cbv zeta.
  destruct (clamp_range (orElse startX (-8)) (orElse_not_nan startX (-8) eq_refl)) as [X1 X2].
  destruct (clamp_range (orElse startY 8) (orElse_not_nan startY 8 eq_refl)) as [Y1 Y2].
  split.
  - unfold insideBounds. cbn [v_x v_y minX maxX minY maxY world].
    rewrite X1, X2, Y1, Y2. reflexivity.
  - unfold checkBounds. cbn [v_x v_y minX maxX minY maxY world position newMarble].
    rewrite !ltb_not_leb_false by assumption. reflexivity.
Qed.

(** X25. [validateCoordinateInput] leaves the normal border colour
    exactly for the values in [[-10, 10]]. For such a value other than 0,
    [getStartPosition] returns the value itself; a field that holds 0 (or
    no number) gives the default coordinate instead, -8 for [x] and 8 for
    [y], although 0 is shown as valid. *)
Theorem getStartPosition_valid (startX startY : float) :
  (validateCoordinateInput startX = "#e5e7eb"%string <->
   (-10 <=? startX) = true /\ (startX <=? 10) = true) /\
  (validateCoordinateInput startX = "#e5e7eb"%string -> is_zero startX = false ->
   v_x (getStartPosition startX startY) = startX) /\
  (validateCoordinateInput startY = "#e5e7eb"%string -> is_zero startY = false ->
   v_y (getStartPosition startX startY) = startY) /\
  (is_zero startX = true \/ is_nan startX = true ->
   v_x (getStartPosition startX startY) = -8) /\
  (is_zero startY = true \/ is_nan startY = true ->
   v_y (getStartPosition startX startY) = 8).
Proof.
  assert (V : forall v, validateCoordinateInput v = "#e5e7eb"%string <->
                        (-10 <=? v) = true /\ (v <=? 10) = true).
  { intros v. unfold validateCoordinateInput, JS.isNaN.
    destruct (is_nan v) eqn:N.
    - cbn [orb]. split; [discriminate|]. intros [H _].
      rewrite (proj2 (leb_true_not_nan _ _ H)) in N. discriminate N.
    - cbn [orb]. rewrite !ltb_antisym by (try exact N; reflexivity).
      destruct (-10 <=? v), (v <=? 10); cbn; split; try discriminate; auto;
        intros [? ?]; discriminate. }
  assert (K : forall v fallback, validateCoordinateInput v = "#e5e7eb"%string ->
                is_zero v = false ->
                JS.Math_max (-10) (JS.Math_min 10 (orElse v fallback)) = v).
  { intros v fallback H Z. apply V in H. destruct H as [L U].
    unfold orElse, JS.truthy. rewrite (proj2 (leb_true_not_nan _ _ L)), Z. cbn [orb negb].
    rewrite Math_min_10 by assumption. apply Math_max_10, L. }
  assert (D : forall v fallback, is_zero v = true \/ is_nan v = true ->
                orElse v fallback = fallback).
  { intros v fallback H. unfold orElse, JS.truthy.
    destruct H as [-> | ->]; [rewrite orb_true_r|]; reflexivity. }
  split; [apply V|]. unfold getStartPosition. cbv zeta. cbn [v_x v_y].
  split; [apply K|]. split; [apply K|]. split.
  - intros H. rewrite (D _ _ H). reflexivity.
  - intros H. rewrite (D _ _ H). reflexivity.
Qed.
